(** * go-logger: a shallow embedding of the dispatch core

    The Go package [go_logger] (logger.go) is embedded function by function:
    severity constants and the level-name table, [LoggerLevel],
    [loggerMessageFormat], the adapter registry, [NewLogger], [attach],
    [detach], [SetAsync], [Writer], [writeToOutputs], [flush], [Flush] and
    the background loop [startAsyncWrite].

    Go values are modelled as follows.
    - [int] and [int64] are [Z]; no arithmetic in this file can overflow.
    - A Go [string] is a sequence of bytes: Rocq's [string].
    - [error] is [option string]: [None] is [nil], [Some e] carries
      [e.Error()].
    - An adapter (interface [LoggerAbstract]) is a value of an abstract type
      with the four interface methods as a type class.
    - [fmt.Println], writes to [os.Stderr], [os.Exit], a panic and a
      goroutine parked on a channel are outcomes of a small effect monad.
    - The two goroutines of asynchronous mode are interleaved by an
      executable step function over explicit program points. *)

From Stdlib Require Import ZArith String Ascii DecimalString.
From stdpp Require Import gmap strings list.

Local Open Scope Z_scope.

(** ** Go's [strings], [strconv] and [path] functions used by the logger *)

Module GoStrings.

(** [strconv.Itoa] and [strconv.FormatInt(_, 10)]. *)
Definition Itoa (z : Z) : string := NilZero.string_of_int (Z.to_int z).

Definition newline : string := String (ascii_of_nat 10) EmptyString.

Definition byte_is_ascii (c : ascii) : bool := (N_of_ascii c <? 128)%N.

Definition byte_is_lower (c : ascii) : bool :=
  ((97 <=? N_of_ascii c) && (N_of_ascii c <=? 122))%N.

Definition byte_is_upper (c : ascii) : bool :=
  ((65 <=? N_of_ascii c) && (N_of_ascii c <=? 90))%N.

(** [c -= 'a' - 'A'] on a lower-case letter. *)
Definition byte_to_upper (c : ascii) : ascii :=
  if byte_is_lower c then ascii_of_N (N_of_ascii c - 32) else c.

Fixpoint all_ascii (s : string) : bool :=
  match s with
  | EmptyString => true
  | String c s' => byte_is_ascii c && all_ascii s'
  end.

Fixpoint map_bytes (f : ascii -> ascii) (s : string) : string :=
  match s with
  | EmptyString => EmptyString
  | String c s' => String (f c) (map_bytes f s')
  end.

(** [strings.ToUpper]: a string of ASCII bytes is mapped byte by byte; any
    other string goes through [strings.Map(unicode.ToUpper, s)], whose
    Unicode tables belong to the Go runtime and are a parameter here. *)
Definition ToUpper (unicode_upper : string -> string) (s : string) : string :=
  if all_ascii s then map_bytes byte_to_upper s else unicode_upper s.

Fixpoint drop (n : nat) (s : string) : string :=
  match n, s with
  | O, _ => s
  | S n', String _ s' => drop n' s'
  | S _, EmptyString => EmptyString
  end.

(** [strings.Replace(s, old, new, 1)]: the leftmost occurrence of [old] is
    replaced by [new]; without an occurrence [s] is returned. *)
Fixpoint Replace1 (s old new : string) : string :=
  if String.prefix old s then new +:+ drop (String.length old) s
  else match s with
       | EmptyString => EmptyString
       | String c s' => String c (Replace1 s' old new)
       end.

(** [strings.Contains]. *)
Fixpoint Contains (s sub : string) : bool :=
  String.prefix sub s ||
  match s with
  | EmptyString => false
  | String _ s' => Contains s' sub
  end.

(** Second component of [path.Split]: what follows the final slash. *)
Fixpoint path_Split_file (p : string) : string :=
  match p with
  | EmptyString => EmptyString
  | String _ p' => if Contains p "/" then path_Split_file p' else p
  end.

End GoStrings.

(** ** Severity model (logger.go, lines 16-47 and 303-325) *)

Definition LoggerLevelEmergency : Z := 0.
Definition LoggerLevelAlert : Z := 1.
Definition LoggerLevelCritical : Z := 2.
Definition LoggerLevelError : Z := 3.
Definition LoggerLevelWarning : Z := 4.
Definition LoggerLevelNotice : Z := 5.
Definition LoggerLevelInfo : Z := 6.
Definition LoggerLevelDebug : Z := 7.

Definition levelStringMapping : gmap Z string :=
  list_to_map
    [ (LoggerLevelEmergency, "Emergency");
      (LoggerLevelAlert, "Alert");
      (LoggerLevelCritical, "Critical");
      (LoggerLevelError, "Error");
      (LoggerLevelWarning, "Warning");
      (LoggerLevelNotice, "Notice");
      (LoggerLevelInfo, "Info");
      (LoggerLevelDebug, "Debug") ].

(** [levelStringMapping[level]]: a missing key reads as the empty string. *)
Definition levelString (level : Z) : string :=
  default EmptyString (levelStringMapping !! level).

Definition defaultLoggerMessageFormat : string :=
  "%millisecond_format% [%level_string%] %body%".

(** The eight names a caller may pass to [LoggerLevel], with their levels. *)
Definition level_names : list (string * Z) :=
  [ ("Emergency", LoggerLevelEmergency);
    ("Alert", LoggerLevelAlert);
    ("Critical", LoggerLevelCritical);
    ("Error", LoggerLevelError);
    ("Warning", LoggerLevelWarning);
    ("Notice", LoggerLevelNotice);
    ("Info", LoggerLevelInfo);
    ("Debug", LoggerLevelDebug) ].

Definition LoggerLevel (unicode_upper : string -> string) (levelStr : string) : Z :=
  let levelStr := GoStrings.ToUpper unicode_upper levelStr in
  if String.eqb levelStr "EMERGENCY" then LoggerLevelEmergency
  else if String.eqb levelStr "ALERT" then LoggerLevelAlert
  else if String.eqb levelStr "CRITICAL" then LoggerLevelCritical
  else if String.eqb levelStr "ERROR" then LoggerLevelError
  else if String.eqb levelStr "WARNING" then LoggerLevelWarning
  else if String.eqb levelStr "NOTICE" then LoggerLevelNotice
  else if String.eqb levelStr "INFO" then LoggerLevelInfo
  else if String.eqb levelStr "DEBUG" then LoggerLevelDebug
  else LoggerLevelDebug.

(** ** Log events and the message formatter (lines 78-89 and 327-340) *)

Record loggerMessage := {
  Timestamp : Z;
  TimestampFormat : string;
  Millisecond : Z;
  MillisecondFormat : string;
  Level : Z;
  LevelString : string;
  Body : string;
  File : string;
  Line : Z;
  Function : string
}.

Definition loggerMessageFormat (format : string) (loggerMsg : loggerMessage) : string :=
  let message := GoStrings.Replace1 format "%timestamp%" (GoStrings.Itoa (Timestamp loggerMsg)) in
  let message := GoStrings.Replace1 message "%timestamp_format%" (TimestampFormat loggerMsg) in
  let message := GoStrings.Replace1 message "%millisecond%" (GoStrings.Itoa (Millisecond loggerMsg)) in
  let message := GoStrings.Replace1 message "%millisecond_format%" (MillisecondFormat loggerMsg) in
  let message := GoStrings.Replace1 message "%level%" (GoStrings.Itoa (Level loggerMsg)) in
  let message := GoStrings.Replace1 message "%level_string%" (LevelString loggerMsg) in
  let message := GoStrings.Replace1 message "%file%" (File loggerMsg) in
  let message := GoStrings.Replace1 message "%line%" (GoStrings.Itoa (Line loggerMsg)) in
  let message := GoStrings.Replace1 message "%function%" (Function loggerMsg) in
  let message := GoStrings.Replace1 message "%body%" (Body loggerMsg) in
  message.

(** ** Adapters, bindings, channels and the logger (lines 27-36 and 63-76) *)

(** Go's [error]: [None] is [nil]. *)
Definition error : Type := option string.

(** The interface [LoggerAbstract].  A method with a pointer receiver may
    change its adapter, so each method returns the adapter it leaves. *)
Class LoggerAbstract (A Config : Type) := {
  adapter_Name : A -> string;
  adapter_Init : A -> Config -> A * error;
  adapter_Write : A -> loggerMessage -> A * error;
  adapter_Flush : A -> A
}.

(** A buffered channel [make(chan T, cap)]; capacity 0 is an unbuffered one. *)
Record Chan (T : Type) := { chan_buf : list T; chan_cap : nat }.
Arguments chan_buf {T} _.
Arguments chan_cap {T} _.

Definition make_chan {T : Type} (cap : nat) : Chan T :=
  {| chan_buf := []; chan_cap := cap |}.

(** [len(ch)]. *)
Definition chan_len {T : Type} (ch : Chan T) : nat := length (chan_buf ch).

(** [ch <- x] without a waiting receiver: possible when the buffer has room. *)
Definition chan_send {T : Type} (ch : Chan T) (x : T) : option (Chan T) :=
  if (chan_len ch <? chan_cap ch)%nat
  then Some {| chan_buf := chan_buf ch ++ [x]; chan_cap := chan_cap ch |}
  else None.

(** [<-ch] without a waiting sender: possible when the buffer is not empty. *)
Definition chan_recv {T : Type} (ch : Chan T) : option (T * Chan T) :=
  match chan_buf ch with
  | [] => None
  | x :: rest => Some (x, {| chan_buf := rest; chan_cap := chan_cap ch |})
  end.

(** Calls made on adapters, by position of the binding in [logger.outputs]. *)
Inductive Call :=
| CallInit (adapterName : string)
| CallWrite (i : nat) (loggerMsg : loggerMessage)
| CallFlush (i : nat).

(** What [runtime.Caller(3)] and the four [time.Now()] readings give one
    call of [Writer]. *)
Record CallEnv := {
  env_caller : option (string * string * Z);   (* function name, file, line *)
  env_Unix : Z;
  env_Format : string;
  env_UnixNano : Z;
  env_FormatMilli : string
}.

Section Core.

Context {A Config : Type} `{!LoggerAbstract A Config}.

(** [&ConsoleConfig{}]; the type is declared with the console adapter. *)
Variable ConsoleConfig_zero : Config.

Definition adapterLoggerFunc : Type := unit -> A.

Record outputLogger := {
  output_Name : string;
  output_Level : Z;
  output_Adapter : A
}.

(** [lock] is left out: every function below runs as one uninterrupted
    piece of its goroutine. [wait] is the counter of the WaitGroup. *)
Record Logger := {
  outputs : list outputLogger;
  msgChan : Chan loggerMessage;
  synchronous : bool;
  wait : Z;
  signalChan : Chan string
}.

(** Process state outside the logger: the package variable [adapters],
    what was printed, the adapter calls made so far and how many
    background goroutines [SetAsync] has started. *)
Record World := {
  adapters : gmap string adapterLoggerFunc;
  stdout : list string;
  stderr : list string;
  calls : list Call;
  drainTasks : nat
}.

Inductive Outcome (R : Type) :=
| Normal (r : R) (w : World)          (* the function returns *)
| Exited (code : Z) (w : World)       (* os.Exit *)
| Panicked (v : string) (w : World)   (* panic *)
| Blocked (w : World).                (* parked on a channel or WaitGroup *)
Arguments Normal {R} _ _.
Arguments Exited {R} _ _.
Arguments Panicked {R} _ _.
Arguments Blocked {R} _.

Definition M (R : Type) : Type := World -> Outcome R.

Definition ret {R : Type} (r : R) : M R := fun w => Normal r w.

Definition bind {R S : Type} (m : M R) (k : R -> M S) : M S :=
  fun w =>
    match m w with
    | Normal r w' => k r w'
    | Exited code w' => Exited code w'
    | Panicked v w' => Panicked v w'
    | Blocked w' => Blocked w'
    end.

Notation "'let*' x ':=' m 'in' k" := (bind m (fun x => k))
  (at level 10, x name, m at level 100, k at level 200).

Definition Println (line : string) : M unit :=
  fun w => Normal tt {| adapters := adapters w; stdout := stdout w ++ [line +:+ GoStrings.newline];
                        stderr := stderr w; calls := calls w; drainTasks := drainTasks w |}.

Definition Fprint_Stderr (text : string) : M unit :=
  fun w => Normal tt {| adapters := adapters w; stdout := stdout w;
                        stderr := stderr w ++ [text]; calls := calls w; drainTasks := drainTasks w |}.

Definition os_Exit {R : Type} (code : Z) : M R := fun w => Exited code w.

Definition panic {R : Type} (v : string) : M R := fun w => Panicked v w.

Definition block {R : Type} : M R := fun w => Blocked w.

Definition record_call (c : Call) : M unit :=
  fun w => Normal tt {| adapters := adapters w; stdout := stdout w;
                        stderr := stderr w; calls := calls w ++ [c]; drainTasks := drainTasks w |}.

Definition lookup_adapter (adapterName : string) : M (option adapterLoggerFunc) :=
  fun w => Normal (adapters w !! adapterName) w.

Definition go_startAsyncWrite : M unit :=
  fun w => Normal tt {| adapters := adapters w; stdout := stdout w;
                        stderr := stderr w; calls := calls w; drainTasks := S (drainTasks w) |}.

(** Lines 430-433. *)
Definition printError (message : string) : M unit :=
  let* _ := Println message in os_Exit 0.

(** Lines 52-61; [newLog] may be a nil function value. *)
Definition Register (adapterName : string) (newLog : option adapterLoggerFunc) : M unit :=
  fun w =>
    match adapters w !! adapterName with
    | Some _ => Panicked ("logger: logger adapter " +:+ adapterName +:+ " already registered!") w
    | None =>
        match newLog with
        | None => Panicked ("logger: logger adapter " +:+ adapterName +:+ " is nil!") w
        | Some f => Normal tt {| adapters := <[adapterName := f]> (adapters w); stdout := stdout w;
                                 stderr := stderr w; calls := calls w; drainTasks := drainTasks w |}
        end
    end.

(** [for _, x := range l { body x }]. *)
Fixpoint range {X : Type} (l : list X) (body : X -> M unit) : M unit :=
  match l with
  | [] => ret tt
  | x :: rest => let* _ := body x in range rest body
  end.

Definition set_outputs (logger : Logger) (outs : list outputLogger) : Logger :=
  {| outputs := outs; msgChan := msgChan logger; synchronous := synchronous logger;
     wait := wait logger; signalChan := signalChan logger |}.

(** Lines 120-144. *)
Definition attach (logger : Logger) (adapterName : string) (level : Z) (config : Config)
  : M (Logger * error) :=
  let* _ := range (outputs logger) (fun output =>
              if String.eqb (output_Name output) adapterName
              then printError ("logger: adapter " +:+ adapterName +:+ "already attached!")
              else ret tt) in
  let* found := lookup_adapter adapterName in
  match found with
  | None =>
      (* printError ends the process: logFun() is never reached *)
      let* _ := printError ("logger: adapter " +:+ adapterName +:+ "is nil!") in
      panic "invalid memory address or nil pointer dereference"
  | Some logFun =>
      let adapterLog := logFun tt in
      let* _ := record_call (CallInit adapterName) in
      let '(adapterLog, err) := adapter_Init adapterLog config in
      let* _ := match err with
                | Some e => printError ("logger: adapter " +:+ adapterName
                                        +:+ " init failed, error: " +:+ e)
                | None => ret tt
                end in
      let output := {| output_Name := adapterName; output_Level := level;
                       output_Adapter := adapterLog |} in
      ret (set_outputs logger (outputs logger ++ [output]), None)
  end.

(** Lines 110-115. *)
Definition Attach (logger : Logger) (adapterName : string) (level : Z) (config : Config)
  : M (Logger * error) :=
  attach logger adapterName level config.

(** Lines 93-105. *)
Definition NewLogger : M Logger :=
  let logger := {| outputs := []; msgChan := make_chan 10; synchronous := true;
                   wait := 0; signalChan := make_chan 1 |} in
  let* r := attach logger "console" LoggerLevelDebug ConsoleConfig_zero in
  ret (fst r).

(** Lines 159-169. *)
Definition detach (logger : Logger) (adapterName : string) : Logger * error :=
  let outs :=
    fold_left (fun outs output =>
                 if String.eqb (output_Name output) adapterName then outs
                 else outs ++ [output])
              (outputs logger) [] in
  (set_outputs logger outs, None).

(** Lines 149-154. *)
Definition Detach (logger : Logger) (adapterName : string) : Logger * error :=
  detach logger adapterName.

Definition set_msgChan (logger : Logger) (ch : Chan loggerMessage) : Logger :=
  {| outputs := outputs logger; msgChan := ch; synchronous := synchronous logger;
     wait := wait logger; signalChan := signalChan logger |}.

Definition set_signalChan (logger : Logger) (ch : Chan string) : Logger :=
  {| outputs := outputs logger; msgChan := msgChan logger; synchronous := synchronous logger;
     wait := wait logger; signalChan := ch |}.

(** [logger.wait.Add(delta)]; [Done()] is [Add(-1)].  The counter may not
    become negative. *)
Definition wait_Add (logger : Logger) (delta : Z) : M Logger :=
  if wait logger + delta <? 0 then panic "sync: negative WaitGroup counter"
  else ret {| outputs := outputs logger; msgChan := msgChan logger;
              synchronous := synchronous logger; wait := wait logger + delta;
              signalChan := signalChan logger |}.

(** Lines 179-203.  [make] panics on a negative size. *)
Definition SetAsync (logger : Logger) (data : list Z) : M Logger :=
  let msgChanLen := match data with d :: _ => d | [] => 100 end in
  if msgChanLen <? 0 then panic "makechan: size out of range"
  else
    let logger := {| outputs := outputs logger; msgChan := make_chan (Z.to_nat msgChanLen);
                     synchronous := false; wait := wait logger;
                     signalChan := make_chan 1 |} in
    let* _ := go_startAsyncWrite in
    ret logger.

(** One turn of the loop of lines 249-257 for the binding at position [i]. *)
Definition write_output (i : nat) (loggerOutput : outputLogger) (loggerMsg : loggerMessage)
  : M outputLogger :=
  if output_Level loggerOutput >=? Level loggerMsg then
    let* _ := record_call (CallWrite i loggerMsg) in
    let '(adapterLog, err) := adapter_Write (output_Adapter loggerOutput) loggerMsg in
    let* _ := match err with
              | Some e =>
                  Fprint_Stderr ("logger: unable write loggerMessage to adapter:"
                                 +:+ output_Name loggerOutput +:+ ", error: " +:+ e
                                 +:+ GoStrings.newline)
              | None => ret tt
              end in
    ret {| output_Name := output_Name loggerOutput; output_Level := output_Level loggerOutput;
           output_Adapter := adapterLog |}
  else ret loggerOutput.

Fixpoint write_outputs (i : nat) (outs : list outputLogger) (loggerMsg : loggerMessage)
  : M (list outputLogger) :=
  match outs with
  | [] => ret []
  | loggerOutput :: rest =>
      let* loggerOutput := write_output i loggerOutput loggerMsg in
      let* rest := write_outputs (S i) rest loggerMsg in
      ret (loggerOutput :: rest)
  end.

(** Lines 248-258. *)
Definition writeToOutputs (logger : Logger) (loggerMsg : loggerMessage) : M Logger :=
  let* outs := write_outputs 0 (outputs logger) loggerMsg in
  ret (set_outputs logger outs).

(** The event [Writer] builds (lines 209-234). *)
Definition build_message (env : CallEnv) (level : Z) (msg : string) : loggerMessage :=
  let '(funcName, file, line) :=
    match env_caller env with
    | None => ("null", "null", 0)
    | Some (funcName, file, line) => (funcName, file, line)
    end in
  let filename := GoStrings.path_Split_file file in
  {| Timestamp := env_Unix env;
     TimestampFormat := env_Format env;
     Millisecond := Z.quot (env_UnixNano env) 1000000;
     MillisecondFormat := env_FormatMilli env;
     Level := level;
     LevelString := levelString level;
     Body := msg;
     File := filename;
     Line := line;
     Function := funcName |}.

(** Lines 219-221. *)
Definition check_level (level : Z) : M unit :=
  if String.eqb (levelString level) ""
  then printError ("logger: level " +:+ GoStrings.Itoa level +:+ " is illegal!")
  else ret tt.

(** Lines 208-244.  On its own goroutine the send of line 238 parks when
    the queue is full. *)
Definition Writer (env : CallEnv) (logger : Logger) (level : Z) (msg : string)
  : M (Logger * error) :=
  let* _ := check_level level in
  let loggerMsg := build_message env level msg in
  if negb (synchronous logger) then
    let* logger := wait_Add logger 1 in
    match chan_send (msgChan logger) loggerMsg with
    | Some ch => ret (set_msgChan logger ch, None)
    | None => block
    end
  else
    let* logger := writeToOutputs logger loggerMsg in
    ret (logger, None).

Fixpoint flush_outputs (i : nat) (outs : list outputLogger) : M (list outputLogger) :=
  match outs with
  | [] => ret []
  | loggerOutput :: rest =>
      let* _ := record_call (CallFlush i) in
      let loggerOutput :=
        {| output_Name := output_Name loggerOutput; output_Level := output_Level loggerOutput;
           output_Adapter := adapter_Flush (output_Adapter loggerOutput) |} in
      let* rest := flush_outputs (S i) rest in
      ret (loggerOutput :: rest)
  end.

(** The loop of lines 278-286, run without another goroutine sending in
    between: one turn per queued event. *)
Fixpoint flush_queue (queued : list loggerMessage) (logger : Logger) : M Logger :=
  match queued with
  | [] => ret logger
  | loggerMsg :: rest =>
      let logger := set_msgChan logger {| chan_buf := rest;
                                          chan_cap := chan_cap (msgChan logger) |} in
      let* logger := writeToOutputs logger loggerMsg in
      let* logger := wait_Add logger (-1) in
      flush_queue rest logger
  end.

(** Lines 276-291. *)
Definition flush (logger : Logger) : M Logger :=
  if negb (synchronous logger) then
    let* logger := flush_queue (chan_buf (msgChan logger)) logger in
    let* outs := flush_outputs 0 (outputs logger) in
    ret (set_outputs logger outs)
  else ret logger.

(** Lines 294-301, as the calling goroutine sees it: the send parks while
    the signal channel is full, [Wait] parks while the counter is not 0. *)
Definition Flush (logger : Logger) : M Logger :=
  if negb (synchronous logger) then
    match chan_send (signalChan logger) "flush" with
    | Some ch =>
        let logger := set_signalChan logger ch in
        if wait logger =? 0 then ret logger else block
    | None => block
    end
  else flush logger.

(** The facade, lines 343-428: the result of [Writer] is dropped. *)
Definition log_at (level : Z) (env : CallEnv) (logger : Logger) (msg : string) : M Logger :=
  let* r := Writer env logger level msg in
  ret (fst r).

Definition Emergency := log_at LoggerLevelEmergency.
Definition Alert := log_at LoggerLevelAlert.
Definition Critical := log_at LoggerLevelCritical.
Definition Error := log_at LoggerLevelError.
Definition Warning := log_at LoggerLevelWarning.
Definition Notice := log_at LoggerLevelNotice.
Definition Info := log_at LoggerLevelInfo.
Definition Debug := log_at LoggerLevelDebug.

(** ** Asynchronous mode: the calling goroutine and the drain goroutine

    The calling goroutine runs [Writer] once per element of a list of
    calls and then [Flush]; the drain goroutine runs [startAsyncWrite]
    (lines 261-273).  Each goroutine is a set of program points, named by
    the source line about to run, and a step function; a schedule picks
    which goroutine moves.  One step is one channel or WaitGroup
    operation, or one whole [writeToOutputs]. *)

Record LogCall := { call_env : CallEnv; call_level : Z; call_msg : string }.

Definition call_event (c : LogCall) : loggerMessage :=
  build_message (call_env c) (call_level c) (call_msg c).

Inductive MainPc :=
| MCall (rest : list LogCall)                        (* next Writer; Flush when none is left *)
| MAdd (loggerMsg : loggerMessage) (rest : list LogCall)   (* line 237 *)
| MSend (loggerMsg : loggerMessage) (rest : list LogCall)  (* line 238 *)
| MSignal                                            (* line 296 *)
| MWait                                              (* line 297 *)
| MReturned                                          (* Flush has returned *)
| MStopped.                                          (* the process has ended *)

Inductive WorkerPc :=
| WSelect                                            (* line 263 *)
| WWrite (loggerMsg : loggerMessage)                 (* line 265 *)
| WDone                                              (* line 266 *)
| WSignal (signal : string)                          (* line 268 *)
| WFlushTest                                         (* line 279 *)
| WFlushWrite (loggerMsg : loggerMessage)            (* line 281 *)
| WFlushDone                                         (* line 282 *)
| WFlushOutputs                                      (* lines 287-289 *)
| WStopped.                                          (* the goroutine has ended *)

Record AsyncState := {
  cfg_logger : Logger;
  cfg_world : World;
  cfg_main : MainPc;
  cfg_worker : WorkerPc
}.

(** Which case a [select] with both cases ready takes is up to the runtime. *)
Inductive SelectCase := CaseMsg | CaseSignal.

Inductive Move := MainStep | WorkerStep (pick : SelectCase).

Definition goto_main (c : AsyncState) (logger : Logger) (pc : MainPc) : AsyncState :=
  {| cfg_logger := logger; cfg_world := cfg_world c; cfg_main := pc;
     cfg_worker := cfg_worker c |}.

Definition goto_worker (c : AsyncState) (logger : Logger) (pc : WorkerPc) : AsyncState :=
  {| cfg_logger := logger; cfg_world := cfg_world c; cfg_main := cfg_main c;
     cfg_worker := pc |}.

Definition process_ended (c : AsyncState) (w : World) : AsyncState :=
  {| cfg_logger := cfg_logger c; cfg_world := w; cfg_main := MStopped;
     cfg_worker := WStopped |}.

(** One uninterrupted action of the calling goroutine; a panic there is
    not recovered and ends the process like [os.Exit]. *)
Definition main_does (c : AsyncState) (action : M Logger) (pc : MainPc) : option AsyncState :=
  match action (cfg_world c) with
  | Normal logger w =>
      Some {| cfg_logger := logger; cfg_world := w; cfg_main := pc;
              cfg_worker := cfg_worker c |}
  | Exited _ w => Some (process_ended c w)
  | Panicked _ w => Some (process_ended c w)
  | Blocked _ => None
  end.

(** One uninterrupted action of the drain goroutine; its panic is
    recovered and printed at lines 194-199 and only that goroutine ends. *)
Definition worker_does (c : AsyncState) (action : M Logger) (pc : WorkerPc) : option AsyncState :=
  match action (cfg_world c) with
  | Normal logger w =>
      Some {| cfg_logger := logger; cfg_world := w; cfg_main := cfg_main c;
              cfg_worker := pc |}
  | Exited _ w => Some (process_ended c w)
  | Panicked v w =>
      Some {| cfg_logger := cfg_logger c;
              cfg_world := {| adapters := adapters w; stdout := stdout w ++ [v];
                              stderr := stderr w; calls := calls w;
                              drainTasks := drainTasks w |};
              cfg_main := cfg_main c; cfg_worker := WStopped |}
  | Blocked _ => None
  end.

Definition main_step (c : AsyncState) : option AsyncState :=
  let logger := cfg_logger c in
  match cfg_main c with
  | MCall (call :: rest) =>
      (* Writer, lines 209-236 and 240 *)
      let loggerMsg := call_event call in
      main_does c
        (let* _ := check_level (call_level call) in
         if negb (synchronous logger) then ret logger
         else writeToOutputs logger loggerMsg)
        (if negb (synchronous logger) then MAdd loggerMsg rest else MCall rest)
  | MCall [] =>
      (* Flush, lines 295 and 300 *)
      if negb (synchronous logger) then Some (goto_main c logger MSignal)
      else main_does c (flush logger) MReturned
  | MAdd loggerMsg rest => main_does c (wait_Add logger 1) (MSend loggerMsg rest)
  | MSend loggerMsg rest =>
      match chan_send (msgChan logger) loggerMsg with
      | Some ch => Some (goto_main c (set_msgChan logger ch) (MCall rest))
      | None => None
      end
  | MSignal =>
      match chan_send (signalChan logger) "flush" with
      | Some ch => Some (goto_main c (set_signalChan logger ch) MWait)
      | None => None
      end
  | MWait => if wait logger =? 0 then Some (goto_main c logger MReturned) else None
  | MReturned => None
  | MStopped => None
  end.

Definition worker_step (pick : SelectCase) (c : AsyncState) : option AsyncState :=
  let logger := cfg_logger c in
  match cfg_worker c with
  | WSelect =>
      match pick with
      | CaseMsg =>
          match chan_recv (msgChan logger) with
          | Some (loggerMsg, ch) =>
              Some (goto_worker c (set_msgChan logger ch) (WWrite loggerMsg))
          | None =>
              (* an unbuffered queue hands the event over from the sender
                 parked at line 238 *)
              match cfg_main c with
              | MSend loggerMsg rest =>
                  if (chan_cap (msgChan logger) =? 0)%nat
                  then Some {| cfg_logger := logger; cfg_world := cfg_world c;
                               cfg_main := MCall rest; cfg_worker := WWrite loggerMsg |}
                  else None
              | _ => None
              end
          end
      | CaseSignal =>
          match chan_recv (signalChan logger) with
          | Some (signal, ch) =>
              Some (goto_worker c (set_signalChan logger ch) (WSignal signal))
          | None => None
          end
      end
  | WWrite loggerMsg => worker_does c (writeToOutputs logger loggerMsg) WDone
  | WDone => worker_does c (wait_Add logger (-1)) WSelect
  | WSignal signal =>
      (* line 268, then the test of line 277 inside flush *)
      if String.eqb signal "flush" && negb (synchronous logger)
      then Some (goto_worker c logger WFlushTest)
      else Some (goto_worker c logger WSelect)
  | WFlushTest =>
      (* only this goroutine receives, so the receive of line 280 finds
         the event the test of line 279 saw *)
      match chan_recv (msgChan logger) with
      | Some (loggerMsg, ch) =>
          Some (goto_worker c (set_msgChan logger ch) (WFlushWrite loggerMsg))
      | None => Some (goto_worker c logger WFlushOutputs)
      end
  | WFlushWrite loggerMsg => worker_does c (writeToOutputs logger loggerMsg) WFlushDone
  | WFlushDone => worker_does c (wait_Add logger (-1)) WFlushTest
  | WFlushOutputs =>
      worker_does c
        (let* outs := flush_outputs 0 (outputs logger) in ret (set_outputs logger outs))
        WSelect
  | WStopped => None
  end.

Definition step (mv : Move) (c : AsyncState) : option AsyncState :=
  match mv with
  | MainStep => main_step c
  | WorkerStep pick => worker_step pick c
  end.

Fixpoint run_schedule (sched : list Move) (c : AsyncState) : option AsyncState :=
  match sched with
  | [] => Some c
  | mv :: rest =>
      match step mv c with
      | Some c' => run_schedule rest c'
      | None => None
      end
  end.

(** The state right after [SetAsync] returned [logger], with the calls
    still to be made. *)
Definition async_start (logger : Logger) (w : World) (todo : list LogCall) : AsyncState :=
  {| cfg_logger := logger; cfg_world := w; cfg_main := MCall todo; cfg_worker := WSelect |}.

End Core.

Arguments Normal {A R} r w.
Arguments Exited {A R} code w.
Arguments Panicked {A R} v w.
Arguments Blocked {A R} w.
Arguments adapterLoggerFunc A : clear implicits.
Arguments outputLogger A : clear implicits.
Arguments Logger A : clear implicits.
Arguments World A : clear implicits.
Arguments Outcome A R : clear implicits.
Arguments M A R : clear implicits.
Arguments AsyncState A : clear implicits.

(** ** Words of the specification about strings *)

(** [sub] occurs in [s]. *)
Definition occurs (sub s : string) : Prop :=
  exists pre post, s = pre +:+ sub +:+ post.

(** [r] is [s] with the leftmost occurrence of [old] replaced by [new], or
    [s] itself when [old] does not occur. *)
Inductive replaced_first (old new s r : string) : Prop :=
| replaced_absent : ~ occurs old s -> r = s -> replaced_first old new s r
| replaced_leftmost (pre post : string) :
    s = pre +:+ old +:+ post ->
    (forall pre' post', s = pre' +:+ old +:+ post' ->
                        (String.length pre <= String.length pre')%nat) ->
    r = pre +:+ new +:+ post ->
    replaced_first old new s r.

(** One [replaced_first] per entry of a table of tokens and values, in the
    order of the table. *)
Inductive substituted : list (string * string) -> string -> string -> Prop :=
| substituted_nil s : substituted [] s s
| substituted_cons tok val rest s m r :
    replaced_first tok val s m ->
    substituted rest m r ->
    substituted ((tok, val) :: rest) s r.

(** The ten recognized tokens with the field each stands for, in the order
    [loggerMessageFormat] treats them. *)
Definition placeholders (loggerMsg : loggerMessage) : list (string * string) :=
  [ ("%timestamp%", GoStrings.Itoa (Timestamp loggerMsg));
    ("%timestamp_format%", TimestampFormat loggerMsg);
    ("%millisecond%", GoStrings.Itoa (Millisecond loggerMsg));
    ("%millisecond_format%", MillisecondFormat loggerMsg);
    ("%level%", GoStrings.Itoa (Level loggerMsg));
    ("%level_string%", LevelString loggerMsg);
    ("%file%", File loggerMsg);
    ("%line%", GoStrings.Itoa (Line loggerMsg));
    ("%function%", Function loggerMsg);
    ("%body%", Body loggerMsg) ].

(** The other case of a letter; any other byte is left alone. *)
Definition swap_case (c : ascii) : ascii :=
  if GoStrings.byte_is_lower c then ascii_of_N (N_of_ascii c - 32)
  else if GoStrings.byte_is_upper c then ascii_of_N (N_of_ascii c + 32)
  else c.

(** [s] is [t] with the case of some of its letters changed. *)
Inductive case_variant : string -> string -> Prop :=
| case_variant_nil : case_variant EmptyString EmptyString
| case_variant_same c s t : case_variant s t -> case_variant (String c s) (String c t)
| case_variant_swap c s t :
    case_variant s t -> case_variant (String (swap_case c) s) (String c t).

(** *** Upper-casing beyond ASCII

    [unicode.ToUpper] maps the dotless i (U+0131, in UTF-8 the two bytes
    C4 B1) to the ASCII letter I.  [upper_dotless_i] is what
    [strings.Map(unicode.ToUpper, s)] returns on a string whose only
    non-ASCII rune is the dotless i: that rune becomes I, an ASCII
    letter is upper-cased and every other byte is kept. *)
Definition dotless_i_lead : ascii := ascii_of_nat 196.
Definition dotless_i_tail : ascii := ascii_of_nat 177.

Fixpoint upper_dotless_i (s : string) : string :=
  match s with
  | EmptyString => EmptyString
  | String c rest =>
      match rest with
      | String d rest' =>
          if Ascii.eqb c dotless_i_lead && Ascii.eqb d dotless_i_tail
          then String "I" (upper_dotless_i rest')
          else String (GoStrings.byte_to_upper c) (upper_dotless_i rest)
      | EmptyString => String (GoStrings.byte_to_upper c) EmptyString
      end
  end.

(** The word info written with a dotless i. *)
Definition dotless_info : string :=
  String dotless_i_lead (String dotless_i_tail "nfo").

(** ** Words of the specification about dispatch *)

(** Positions, counted from [i], of the thresholds that admit level [L]. *)
Fixpoint admitted_from (i : nat) (thresholds : list Z) (L : Z) : list nat :=
  match thresholds with
  | [] => []
  | T :: rest =>
      if T >=? L then i :: admitted_from (S i) rest L else admitted_from (S i) rest L
  end.

Section DispatchWords.

Context {A Config : Type} `{!LoggerAbstract A Config}.

(** The binding admits the event: its threshold is at least the level. *)
Definition admits (loggerOutput : outputLogger A) (loggerMsg : loggerMessage) : bool :=
  output_Level loggerOutput >=? Level loggerMsg.

(** Positions in [outs] of the bindings that admit [loggerMsg]. *)
Definition admitted (outs : list (outputLogger A)) (loggerMsg : loggerMessage) : list nat :=
  admitted_from 0 (map output_Level outs) (Level loggerMsg).

(** The binding after it was offered the event. *)
Definition write_result (loggerOutput : outputLogger A) (loggerMsg : loggerMessage)
  : outputLogger A :=
  if admits loggerOutput loggerMsg
  then {| output_Name := output_Name loggerOutput;
          output_Level := output_Level loggerOutput;
          output_Adapter := fst (adapter_Write (output_Adapter loggerOutput) loggerMsg) |}
  else loggerOutput.

(** What is printed on the diagnostic stream when the write of an admitting
    binding fails. *)
Definition write_error (loggerOutput : outputLogger A) (loggerMsg : loggerMessage)
  : list string :=
  if admits loggerOutput loggerMsg then
    match snd (adapter_Write (output_Adapter loggerOutput) loggerMsg) with
    | Some e => [ "logger: unable write loggerMessage to adapter:"
                  +:+ output_Name loggerOutput +:+ ", error: " +:+ e
                  +:+ GoStrings.newline ]
    | None => []
    end
  else [].

Definition flush_result (loggerOutput : outputLogger A) : outputLogger A :=
  {| output_Name := output_Name loggerOutput;
     output_Level := output_Level loggerOutput;
     output_Adapter := adapter_Flush (output_Adapter loggerOutput) |}.

(** [w'] is [w] with [errs] more on the diagnostic stream and [cs] more
    adapter calls, and nothing else changed. *)
Definition world_extends (w w' : World A) (errs : list string) (cs : list Call) : Prop :=
  adapters w' = adapters w
  /\ stdout w' = stdout w
  /\ stderr w' = stderr w ++ errs
  /\ calls w' = calls w ++ cs
  /\ drainTasks w' = drainTasks w.

(** The events written, by position of the binding, among adapter calls. *)
Definition writes_of (cs : list Call) : list (nat * loggerMessage) :=
  omap (fun c => match c with CallWrite i m => Some (i, m) | _ => None end) cs.

Definition flushes_of (cs : list Call) : list nat :=
  omap (fun c => match c with CallFlush i => Some i | _ => None end) cs.

End DispatchWords.

(** ** Words of the specification about asynchronous delivery *)

(** One event goes all the way before the next call: [Writer] (three steps
    of the calling goroutine), then receive, write and [Done] on the drain
    goroutine. *)
Definition eager_round : list Move :=
  [ MainStep; MainStep; MainStep;
    WorkerStep CaseMsg; WorkerStep CaseMsg; WorkerStep CaseMsg ].

(** [Flush] on the calling goroutine alone: test, signal, [Wait]. *)
Definition flush_alone : list Move := [ MainStep; MainStep; MainStep ].

(** The schedule that drains every event eagerly and lets [Flush] run
    before the drain goroutine reads the signal. *)
Fixpoint eager_schedule (n : nat) : list Move :=
  match n with
  | O => flush_alone
  | S n' => eager_round ++ eager_schedule n'
  end.

Section AsyncWords.

Context {A : Type}.

(** Events the drain goroutine has received and not yet written. *)
Definition worker_holds (pc : WorkerPc) : list loggerMessage :=
  match pc with
  | WWrite loggerMsg | WFlushWrite loggerMsg => [loggerMsg]
  | _ => []
  end.

(** Events the drain goroutine has written without having called [Done]. *)
Definition worker_owes (pc : WorkerPc) : Z :=
  match pc with
  | WDone | WFlushDone => 1
  | _ => 0
  end.

(** Events the calling goroutine has still to put on the queue. *)
Definition main_unsent (pc : MainPc) : list loggerMessage :=
  match pc with
  | MCall rest => map call_event rest
  | MAdd loggerMsg rest | MSend loggerMsg rest => loggerMsg :: map call_event rest
  | _ => []
  end.

(** Events counted by [Add] and not yet on the queue. *)
Definition main_counted (pc : MainPc) : Z :=
  match pc with
  | MSend _ _ => 1
  | _ => 0
  end.

(** The writes that dispatching [events], one after the other, makes on
    bindings with the given thresholds. *)
Definition dispatched (thresholds : list Z) (events : list loggerMessage)
  : list (nat * loggerMessage) :=
  flat_map (fun loggerMsg =>
              map (fun i => (i, loggerMsg)) (admitted_from 0 thresholds (Level loggerMsg)))
           events.

(** The in-flight counter counts exactly the events between [Add] and
    [Done], and the writes made so far are those of the events that are
    through. *)
Definition accounted (thresholds : list Z) (events : list loggerMessage)
           (before : list (nat * loggerMessage)) (c : AsyncState A) : Prop :=
  cfg_main c = MStopped
  \/ (synchronous (cfg_logger c) = false
      /\ map output_Level (outputs (cfg_logger c)) = thresholds
      /\ (cfg_main c = MReturned -> wait (cfg_logger c) = 0)
      /\ exists through,
           events = through ++ worker_holds (cfg_worker c)
                    ++ chan_buf (msgChan (cfg_logger c)) ++ main_unsent (cfg_main c)
           /\ writes_of (calls (cfg_world c)) = before ++ dispatched thresholds through
           /\ wait (cfg_logger c)
              = worker_owes (cfg_worker c)
                + Z.of_nat (length (worker_holds (cfg_worker c)))
                + Z.of_nat (length (chan_buf (msgChan (cfg_logger c))))
                + main_counted (cfg_main c)).

(** Between two calls under [eager_schedule]: nothing is in flight, the
    drain goroutine waits in its [select] and no signal has been sent. *)
Definition idle (c : AsyncState A) (rest : list LogCall) : Prop :=
  cfg_main c = MCall rest
  /\ cfg_worker c = WSelect
  /\ synchronous (cfg_logger c) = false
  /\ wait (cfg_logger c) = 0
  /\ chan_buf (msgChan (cfg_logger c)) = []
  /\ (0 < chan_cap (msgChan (cfg_logger c)))%nat
  /\ chan_buf (signalChan (cfg_logger c)) = []
  /\ (0 < chan_cap (signalChan (cfg_logger c)))%nat.

End AsyncWords.

(** Unfolds the projections of an asynchronous state. *)
Ltac async_simpl :=
  cbn [cfg_logger cfg_world cfg_main cfg_worker worker_holds worker_owes
       main_unsent main_counted goto_worker goto_main process_ended length app] in *.

(** ** A counting adapter, to run the model on *)

Module Probe.

(** An adapter that counts the calls it receives; [fails] makes every
    [Write] return an error. *)
Record t := {
  name : string;
  fails : bool;
  writes : nat;
  flushes : nat
}.

#[export] Instance adapter : LoggerAbstract t unit := {
  adapter_Name p := name p;
  adapter_Init p _ := (p, None);
  adapter_Write p _ :=
    ({| name := name p; fails := fails p; writes := S (writes p); flushes := flushes p |},
     if fails p then Some "disk full" else None);
  adapter_Flush p :=
    {| name := name p; fails := fails p; writes := writes p; flushes := S (flushes p) |}
}.

Definition new (adapterName : string) (failing : bool) : adapterLoggerFunc t :=
  fun _ => {| name := adapterName; fails := failing; writes := 0; flushes := 0 |}.

(** A process in which the adapters console and file are registered. *)
Definition world : World t :=
  {| adapters := <["file" := new "file" true]> {["console" := new "console" false]};
     stdout := []; stderr := []; calls := []; drainTasks := 0 |}.

Definition env : CallEnv :=
  {| env_caller := Some ("main.main", "/srv/app/main.go", 12);
     env_Unix := 1700000000;
     env_Format := "2023-11-14 22:13:20";
     env_UnixNano := 1700000000123456789;
     env_FormatMilli := "2023-11-14 22:13:20.123" |}.

Definition console_binding : outputLogger t :=
  {| output_Name := "console"; output_Level := LoggerLevelDebug;
     output_Adapter := new "console" false tt |}.

Definition file_binding : outputLogger t :=
  {| output_Name := "file"; output_Level := LoggerLevelWarning;
     output_Adapter := new "file" true tt |}.

(** The logger [NewLogger] returns in [world]. *)
Definition console_logger : Logger t :=
  {| outputs := [console_binding]; msgChan := make_chan 10; synchronous := true;
     wait := 0; signalChan := make_chan 1 |}.

(** A synchronous logger whose first binding fails every write. *)
Definition failing_logger : Logger t :=
  {| outputs := [file_binding; console_binding]; msgChan := make_chan 10;
     synchronous := true; wait := 0; signalChan := make_chan 1 |}.

(** [console_logger] after [SetAsync()]. *)
Definition async_logger : Logger t :=
  {| outputs := [console_binding]; msgChan := make_chan 100; synchronous := false;
     wait := 0; signalChan := make_chan 1 |}.

Definition async_world : World t :=
  {| adapters := adapters world; stdout := []; stderr := []; calls := []; drainTasks := 1 |}.

Definition one_call : list LogCall :=
  [ {| call_env := env; call_level := LoggerLevelEmergency; call_msg := "one" |} ].

(** The drain goroutine takes the event, writes it and calls [Done] before
    the calling goroutine reaches [Flush]; the flush signal is then sent and
    [Wait] returns at once, with the signal still unread. *)
Definition early_return : list Move :=
  [ MainStep; MainStep; MainStep;
    WorkerStep CaseMsg; WorkerStep CaseMsg; WorkerStep CaseMsg;
    MainStep; MainStep; MainStep ].

(** The state [early_return] leads to. *)
Definition early_state : AsyncState t :=
  default (async_start async_logger async_world one_call)
          (run_schedule early_return (async_start async_logger async_world one_call)).

End Probe.

(** ** Callers of the logger *)

(** One call of a method of the logger, as a caller writes it. *)
Inductive Op (Config : Type) :=
| OpAttach (adapterName : string) (level : Z) (config : Config)
| OpDetach (adapterName : string)
| OpSetAsync (data : list Z)
| OpWriter (env : CallEnv) (level : Z) (msg : string)
| OpFlush.
Arguments OpAttach {Config} _ _ _.
Arguments OpDetach {Config} _.
Arguments OpSetAsync {Config} _.
Arguments OpWriter {Config} _ _ _.
Arguments OpFlush {Config}.

Section Callers.

Context {A Config : Type} `{!LoggerAbstract A Config}.

(** The call on its own goroutine; the error a method returns is dropped,
    as the callers in _example do. *)
Definition run_op (op : Op Config) (logger : Logger A) : M A (Logger A) :=
  match op with
  | OpAttach adapterName level config =>
      bind (Attach logger adapterName level config) (fun r => ret (fst r))
  | OpDetach adapterName => ret (fst (Detach logger adapterName))
  | OpSetAsync data => SetAsync logger data
  | OpWriter env level msg =>
      bind (Writer env logger level msg) (fun r => ret (fst r))
  | OpFlush => Flush logger
  end.

(** [for _, c := range todo { logger.Writer(c) }]. *)
Fixpoint log_calls (todo : list LogCall) (logger : Logger A) : M A (Logger A) :=
  match todo with
  | [] => ret logger
  | call :: rest =>
      bind (Writer (call_env call) logger (call_level call) (call_msg call))
           (fun r => log_calls rest (fst r))
  end.

(** The facade (lines 343-428) by method name; the ...f variants are the
    same calls on the text [fmt.Sprintf] made. *)
Definition facade : list (string * (CallEnv -> Logger A -> string -> M A (Logger A))) :=
  [ ("Emergency", Emergency); ("Alert", Alert); ("Critical", Critical); ("Error", Error);
    ("Warning", Warning); ("Notice", Notice); ("Info", Info); ("Debug", Debug) ].

(** What it is for a facade method to log at the severity it is named
    after. *)
Definition logs_at_named_level (unicode_upper : string -> string)
           (entry : string * (CallEnv -> Logger A -> string -> M A (Logger A))) : Prop :=
  let level := LoggerLevel unicode_upper (fst entry) in
  0 <= level <= 7
  /\ levelString level = fst entry
  /\ forall env logger (msg : string) w,
       (forall code w', snd entry env logger msg w <> Exited code w')
       /\ (synchronous logger = true ->
           exists w',
             snd entry env logger msg w
             = Normal (set_outputs logger
                         (map (fun o => write_result o (build_message env level msg))
                              (outputs logger))) w'
             /\ LevelString (build_message env level msg) = fst entry
             /\ writes_of (calls w')
                = writes_of (calls w)
                  ++ map (fun i => (i, build_message env level msg))
                         (admitted (outputs logger) (build_message env level msg))).

End Callers.

(** ** Schedules for an unbuffered queue *)

(** One event through a queue of capacity 0: [Writer] up to its send
    (two steps), the hand-over to the drain goroutine waiting in its
    [select], then write and [Done]. *)
Definition handoff_round : list Move :=
  [ MainStep; MainStep; WorkerStep CaseMsg; WorkerStep CaseMsg; WorkerStep CaseMsg ].

Fixpoint handoff_schedule (n : nat) : list Move :=
  match n with
  | O => flush_alone
  | S n' => handoff_round ++ handoff_schedule n'
  end.

(** A schedule that delivers [n] events one at a time through a queue of
    capacity [cap] and then lets [Flush] run. *)
Definition delivery_schedule (cap n : nat) : list Move :=
  if (cap =? 0)%nat then handoff_schedule n else eager_schedule n.

(** ** The flush signal *)

(** The drain goroutine running alone on the flush signal: read it
    (line 267), test it (lines 268 and 277), find the queue empty
    (line 279) and flush the bindings (lines 287-289). *)
Definition drain_signal : list Move :=
  [ WorkerStep CaseSignal; WorkerStep CaseMsg; WorkerStep CaseMsg; WorkerStep CaseMsg ].

(** [Flush] has sent its signal (it is past line 296). *)
Definition main_signalled (pc : MainPc) : bool :=
  match pc with
  | MWait | MReturned => true
  | _ => false
  end.

(** The drain goroutine has read a signal and is between line 268 and the
    end of [flush]. *)
Definition worker_flushing (pc : WorkerPc) : bool :=
  match pc with
  | WSignal _ | WFlushTest | WFlushWrite _ | WFlushDone | WFlushOutputs => true
  | _ => false
  end.

Section FlushWords.

Context {A : Type}.

(** Where the flush signal of the one [Flush] call is: not yet sent; sent
    and unread; read, with the drain goroutine inside [flush]; or handled,
    with every one of the [bindings] bindings flushed once, in order.
    [before] are the flushes made before the run. *)
Definition flush_phase (bindings : nat) (before : list nat) (c : AsyncState A) : Prop :=
  cfg_main c = MStopped
  \/ (cfg_worker c <> WStopped
      /\ length (outputs (cfg_logger c)) = bindings
      /\ ((main_signalled (cfg_main c) = false
           /\ chan_buf (signalChan (cfg_logger c)) = []
           /\ worker_flushing (cfg_worker c) = false
           /\ flushes_of (calls (cfg_world c)) = before)
          \/ (main_signalled (cfg_main c) = true
              /\ chan_buf (signalChan (cfg_logger c)) = ["flush"]
              /\ worker_flushing (cfg_worker c) = false
              /\ flushes_of (calls (cfg_world c)) = before)
          \/ (main_signalled (cfg_main c) = true
              /\ chan_buf (signalChan (cfg_logger c)) = []
              /\ worker_flushing (cfg_worker c) = true
              /\ (forall signal, cfg_worker c = WSignal signal -> signal = "flush")
              /\ flushes_of (calls (cfg_world c)) = before)
          \/ (main_signalled (cfg_main c) = true
              /\ chan_buf (signalChan (cfg_logger c)) = []
              /\ worker_flushing (cfg_worker c) = false
              /\ flushes_of (calls (cfg_world c)) = before ++ seq 0 bindings))).

(** Between two calls with an unbuffered queue: nothing is in flight and
    the drain goroutine waits in its [select]. *)
Definition unbuffered_idle (c : AsyncState A) (rest : list LogCall) : Prop :=
  cfg_main c = MCall rest
  /\ cfg_worker c = WSelect
  /\ synchronous (cfg_logger c) = false
  /\ wait (cfg_logger c) = 0
  /\ chan_buf (msgChan (cfg_logger c)) = []
  /\ chan_cap (msgChan (cfg_logger c)) = 0%nat
  /\ chan_buf (signalChan (cfg_logger c)) = []
  /\ (0 < chan_cap (signalChan (cfg_logger c)))%nat.

(** Only the drain goroutine moves. *)
Definition drain_only (sched : list Move) : Prop :=
  Forall (fun mv => mv <> MainStep) sched.

End FlushWords.

(** ** More instances on the counting adapter *)

Module Sample.

Import Probe.

(** The result and the world of a run that returned; [fallback] otherwise. *)
Definition returned {R : Type} (fallback : R * World t) (outcome : Outcome t R)
  : R * World t :=
  match outcome with
  | Normal r w => (r, w)
  | _ => fallback
  end.

Definition event : loggerMessage := build_message env LoggerLevelError "disk nearly full".

(** [NewLogger] in [world]. *)
Definition created : Logger t * World t :=
  returned (console_logger, world) (NewLogger tt world).

(** The file adapter attached to the console logger. *)
Definition attached : (Logger t * error) * World t :=
  returned ((console_logger, None), world)
           (attach console_logger "file" LoggerLevelWarning tt world).

(** [event] dispatched to a failing file binding and a console binding. *)
Definition written : Logger t * World t :=
  returned (failing_logger, world) (writeToOutputs failing_logger event world).

(** An asynchronous logger with two events on its queue. *)
Definition queued_logger : Logger t :=
  {| outputs := [file_binding; console_binding];
     msgChan := {| chan_buf := [ build_message env LoggerLevelDebug "first"; event ];
                   chan_cap := 100 |};
     synchronous := false; wait := 2; signalChan := make_chan 1 |}.

(** [console_logger] after [SetAsync(0)]: an unbuffered queue. *)
Definition unbuffered_logger : Logger t :=
  {| outputs := [console_binding]; msgChan := make_chan 0; synchronous := false;
     wait := 0; signalChan := make_chan 1 |}.

End Sample.

(** An adapter whose [Init] refuses every configuration. *)
Module Refusing.

Record t := { reason : string }.

#[export] Instance adapter : LoggerAbstract t unit := {
  adapter_Name _ := "database";
  adapter_Init p _ := (p, Some (reason p));
  adapter_Write p _ := (p, None);
  adapter_Flush p := p
}.

Definition new : adapterLoggerFunc t := fun _ => {| reason := "connection refused" |}.

Definition world : World t :=
  {| adapters := {["database" := new]};
     stdout := []; stderr := []; calls := []; drainTasks := 0 |}.

Definition logger : Logger t :=
  {| outputs := []; msgChan := make_chan 10; synchronous := true;
     wait := 0; signalChan := make_chan 1 |}.

End Refusing.

(** * Theorems *)

(** ** Strings: occurrence and leftmost replacement *)

Section StringFacts.

Import GoStrings.

Lemma append_nil_l (s : string) : EmptyString +:+ s = s.
Proof. reflexivity. Qed.

Lemma append_cons (c : ascii) (s t : string) : String c s +:+ t = String c (s +:+ t).
Proof. reflexivity. Qed.

Lemma append_nil_r (s : string) : s +:+ EmptyString = s.
Proof.
  induction s as [|c s IH]; [reflexivity|].
  rewrite append_cons. f_equal. exact IH.
Qed.

Lemma append_assoc (a b c : string) : (a +:+ b) +:+ c = a +:+ b +:+ c.
Proof.
  induction a as [|x a IH]; [reflexivity|].
  rewrite !append_cons. f_equal. exact IH.
Qed.

Lemma prefix_append (a post : string) : String.prefix a (a +:+ post) = true.
Proof.
  induction a as [|x a IH].
  - rewrite append_nil_l. now destruct post.
  - rewrite append_cons. simpl.
    destruct (ascii_dec x x) as [_|Hne]; [exact IH | now elim Hne].
Qed.

Lemma prefix_drop (a s : string) :
  String.prefix a s = true -> s = a +:+ drop (String.length a) s.
Proof.
  revert s. induction a as [|x a IH]; intros s Hp.
  - reflexivity.
  - destruct s as [|y s]; simpl in Hp; [discriminate|].
    destruct (ascii_dec x y) as [->|_]; [|discriminate].
    rewrite append_cons. simpl. f_equal. now apply IH.
Qed.

Lemma prefix_occurs (old s : string) : String.prefix old s = true -> occurs old s.
Proof.
  intros Hp. exists EmptyString, (drop (String.length old) s).
  rewrite append_nil_l. now apply prefix_drop.
Qed.

Lemma occurs_cons (old : string) (c : ascii) (s : string) :
  occurs old (String c s) -> String.prefix old (String c s) = true \/ occurs old s.
Proof.
  intros [pre [post Heq]]. destruct pre as [|x pre].
  - left. rewrite Heq, append_nil_l. apply prefix_append.
  - right. rewrite append_cons in Heq. injection Heq as _ Heq. now exists pre, post.
Qed.

Lemma occurs_nil (old : string) :
  occurs old EmptyString -> String.prefix old EmptyString = true.
Proof.
  intros [pre [post Heq]]. destruct pre as [|x pre].
  - rewrite append_nil_l in Heq. rewrite Heq. apply prefix_append.
  - rewrite append_cons in Heq. discriminate.
Qed.

Lemma Contains_nil (sub : string) :
  Contains EmptyString sub = String.prefix sub EmptyString || false.
Proof. reflexivity. Qed.

Lemma Contains_cons (c : ascii) (s sub : string) :
  Contains (String c s) sub = String.prefix sub (String c s) || Contains s sub.
Proof. reflexivity. Qed.

Lemma Replace1_nil (old new : string) :
  Replace1 EmptyString old new =
  if String.prefix old EmptyString then new +:+ drop (String.length old) EmptyString
  else EmptyString.
Proof. reflexivity. Qed.

Lemma Replace1_cons (c : ascii) (s old new : string) :
  Replace1 (String c s) old new =
  if String.prefix old (String c s) then new +:+ drop (String.length old) (String c s)
  else String c (Replace1 s old new).
Proof. reflexivity. Qed.

Lemma Contains_occurs (s sub : string) : Contains s sub = true <-> occurs sub s.
Proof.
  induction s as [|c s IH].
  - rewrite Contains_nil, orb_false_r. split; [apply prefix_occurs | apply occurs_nil].
  - rewrite Contains_cons, orb_true_iff, IH. split.
    + intros [Hp | [pre [post Heq]]]; [now apply prefix_occurs|].
      exists (String c pre), post. rewrite append_cons. now rewrite Heq.
    + apply occurs_cons.
Qed.

Lemma Replace1_absent (s old new : string) : ~ occurs old s -> Replace1 s old new = s.
Proof.
  induction s as [|c s IH]; intros Hno.
  - rewrite Replace1_nil. destruct (String.prefix old EmptyString) eqn:Hp; [|reflexivity].
    elim Hno. now apply prefix_occurs.
  - rewrite Replace1_cons. destruct (String.prefix old (String c s)) eqn:Hp.
    + elim Hno. now apply prefix_occurs.
    + f_equal. apply IH. intros [pre [post Heq]]. apply Hno.
      exists (String c pre), post. rewrite append_cons. now rewrite Heq.
Qed.

Lemma Replace1_spec (s old new : string) : replaced_first old new s (Replace1 s old new).
Proof.
  induction s as [|c s IH].
  - rewrite Replace1_nil. destruct (String.prefix old EmptyString) eqn:Hp.
    + apply (replaced_leftmost old new _ _ EmptyString (drop (String.length old) EmptyString)).
      * now apply prefix_drop.
      * intros; simpl; lia.
      * reflexivity.
    + apply replaced_absent; [|reflexivity].
      intros Hocc. apply occurs_nil in Hocc. congruence.
  - rewrite Replace1_cons. destruct (String.prefix old (String c s)) eqn:Hp.
    + apply (replaced_leftmost old new _ _ EmptyString (drop (String.length old) (String c s))).
      * now apply prefix_drop.
      * intros; simpl; lia.
      * reflexivity.
    + destruct IH as [Hno Hr | pre post Hs Hleft Hr].
      * apply replaced_absent; [|now rewrite Hr].
        intros Hocc. apply occurs_cons in Hocc as [Hp' | Hocc]; [congruence | tauto].
      * apply (replaced_leftmost old new _ _ (String c pre) post).
        -- rewrite append_cons. now rewrite Hs.
        -- intros pre' post' Heq. destruct pre' as [|x pre'].
           ++ rewrite Heq, append_nil_l, prefix_append in Hp. discriminate.
           ++ rewrite append_cons in Heq. injection Heq as _ Heq. simpl.
              apply Hleft in Heq. lia.
        -- rewrite append_cons. now rewrite Hr.
Qed.

End StringFacts.

(** ** The message formatter *)

Section FormatterFacts.

Import GoStrings.

Lemma loggerMessageFormat_chain (format : string) (loggerMsg : loggerMessage) :
  substituted (placeholders loggerMsg) format (loggerMessageFormat format loggerMsg).
Proof.
  unfold loggerMessageFormat, placeholders; cbv zeta.
  repeat (eapply substituted_cons; [apply Replace1_spec|]).
  apply substituted_nil.
Qed.

Lemma loggerMessageFormat_verbatim (format : string) (loggerMsg : loggerMessage) :
  (forall tok val, In (tok, val) (placeholders loggerMsg) -> ~ occurs tok format) ->
  loggerMessageFormat format loggerMsg = format.
Proof.
  intros Hno. unfold loggerMessageFormat; cbv zeta.
  assert (Hstep : forall tok val, In (tok, val) (placeholders loggerMsg) ->
                                  Replace1 format tok val = format).
  { intros tok val Hin. apply Replace1_absent. now apply (Hno tok val). }
  rewrite (Hstep "%timestamp%") by (simpl; tauto).
  rewrite (Hstep "%timestamp_format%") by (simpl; tauto).
  rewrite (Hstep "%millisecond%") by (simpl; tauto).
  rewrite (Hstep "%millisecond_format%") by (simpl; tauto).
  rewrite (Hstep "%level%") by (simpl; tauto).
  rewrite (Hstep "%level_string%") by (simpl; tauto).
  rewrite (Hstep "%file%") by (simpl; tauto).
  rewrite (Hstep "%line%") by (simpl; tauto).
  rewrite (Hstep "%function%") by (simpl; tauto).
  apply Hstep. simpl; tauto.
Qed.

Lemma Replace1_not_Contains (s old new : string) :
  Contains s old = false -> Replace1 s old new = s.
Proof.
  intros Hc. apply Replace1_absent. intros Hocc.
  apply Contains_occurs in Hocc. congruence.
Qed.

Lemma Replace1_prefix (s old new : string) :
  String.prefix old s = true -> Replace1 s old new = new +:+ drop (String.length old) s.
Proof.
  intros Hp. destruct s as [|c s].
  - rewrite Replace1_nil. now rewrite Hp.
  - rewrite Replace1_cons. now rewrite Hp.
Qed.

Lemma loggerMessageFormat_file_resubstituted (loggerMsg : loggerMessage) :
  File loggerMsg = "%body%" -> loggerMessageFormat "%file%" loggerMsg = Body loggerMsg.
Proof.
  intros Hfile. unfold loggerMessageFormat; cbv zeta. rewrite Hfile.
  rewrite (Replace1_not_Contains "%file%" "%timestamp%") by reflexivity.
  rewrite (Replace1_not_Contains "%file%" "%timestamp_format%") by reflexivity.
  rewrite (Replace1_not_Contains "%file%" "%millisecond%") by reflexivity.
  rewrite (Replace1_not_Contains "%file%" "%millisecond_format%") by reflexivity.
  rewrite (Replace1_not_Contains "%file%" "%level%") by reflexivity.
  rewrite (Replace1_not_Contains "%file%" "%level_string%") by reflexivity.
  rewrite (Replace1_prefix "%file%" "%file%") by reflexivity.
  change ("%body%" +:+ drop (String.length "%file%") "%file%") with "%body%".
  rewrite (Replace1_not_Contains "%body%" "%line%") by reflexivity.
  rewrite (Replace1_not_Contains "%body%" "%function%") by reflexivity.
  rewrite (Replace1_prefix "%body%" "%body%") by reflexivity.
  change (drop (String.length "%body%") "%body%") with EmptyString.
  apply append_nil_r.
Qed.

(** C5 (amended). [loggerMessageFormat] makes one leftmost-occurrence
    replacement per recognized token, in the order timestamp,
    timestamp_format, millisecond, millisecond_format, level, level_string,
    file, line, function, body, so a token is replaced at most once per
    render; a template in which no recognized token occurs is returned
    verbatim; the body, substituted last, is inserted as it is whatever it
    contains; but placeholder-shaped text in an earlier field is itself
    substituted by a later step: the template [%file%] with a file name
    [%body%] renders as the body. *)
Theorem loggerMessageFormat_single_pass (format : string) (loggerMsg : loggerMessage) :
  substituted (placeholders loggerMsg) format (loggerMessageFormat format loggerMsg)
  /\ ((forall tok val, In (tok, val) (placeholders loggerMsg) -> ~ occurs tok format) ->
      loggerMessageFormat format loggerMsg = format)
  /\ (exists m, substituted (removelast (placeholders loggerMsg)) format m
                /\ replaced_first "%body%" (Body loggerMsg) m
                                  (loggerMessageFormat format loggerMsg))
  /\ (File loggerMsg = "%body%" -> loggerMessageFormat "%file%" loggerMsg = Body loggerMsg).
Proof.
  split; [apply loggerMessageFormat_chain|].
  split; [apply loggerMessageFormat_verbatim|].
  split; [|apply loggerMessageFormat_file_resubstituted].
  unfold loggerMessageFormat, placeholders; cbv zeta.
  eexists. split; [|apply Replace1_spec].
  cbn [removelast].
  repeat (eapply substituted_cons; [apply Replace1_spec|]).
  apply substituted_nil.
Qed.

(** The example of the specification, and a template with a repeated and
    an unrecognized token. *)
Example loggerMessageFormat_examples :
  let loggerMsg := {| Timestamp := 1700000000; TimestampFormat := "2023-11-14 22:13:20";
                      Millisecond := 1700000000123;
                      MillisecondFormat := "2023-11-14 22:13:20.123";
                      Level := 7; LevelString := "Debug"; Body := "hi";
                      File := "main.go"; Line := 42; Function := "main.main" |} in
  loggerMessageFormat "%level_string% %body%" loggerMsg = "Debug hi"
  /\ loggerMessageFormat "%body% %body% %nope% [%file%:%line%]" loggerMsg
     = "hi %body% %nope% [main.go:42]"
  /\ loggerMessageFormat defaultLoggerMessageFormat loggerMsg
     = "2023-11-14 22:13:20.123 [Debug] hi".
Proof. repeat split; vm_compute; reflexivity. Qed.

(** C5, as stated, fails: a placeholder-shaped file name is substituted
    again.  The template [%file%] on an event whose file is [%body%] and
    whose body is [hi] renders as [hi], not as the file name. *)
Lemma loggerMessageFormat_resubstitutes :
  let loggerMsg := {| Timestamp := 0; TimestampFormat := ""; Millisecond := 0;
                      MillisecondFormat := ""; Level := 7; LevelString := "Debug";
                      Body := "hi"; File := "%body%"; Line := 1; Function := "f" |} in
  loggerMessageFormat "%file%" loggerMsg = "hi"
  /\ loggerMessageFormat "%file%" loggerMsg <> File loggerMsg.
Proof. split; vm_compute; [reflexivity | discriminate]. Qed.

End FormatterFacts.

(** ** Level names *)

Section SeverityFacts.

Import GoStrings.

Variable unicode_upper : string -> string.

Lemma swap_case_fold (c : ascii) :
  byte_is_ascii (swap_case c) = byte_is_ascii c
  /\ byte_to_upper (swap_case c) = byte_to_upper c.
Proof. destruct c as [[] [] [] [] [] [] [] []]; split; reflexivity. Qed.

Lemma swap_case_involutive (c : ascii) : swap_case (swap_case c) = c.
Proof. destruct c as [[] [] [] [] [] [] [] []]; reflexivity. Qed.

Lemma byte_to_upper_case (c : ascii) :
  c = byte_to_upper c \/ c = swap_case (byte_to_upper c).
Proof. destruct c as [[] [] [] [] [] [] [] []]; (left; reflexivity) || (right; reflexivity). Qed.

Lemma byte_to_upper_inj (c d : ascii) :
  byte_to_upper c = byte_to_upper d -> c = d \/ c = swap_case d.
Proof.
  intros Heq.
  destruct (byte_to_upper_case c) as [Hc | Hc], (byte_to_upper_case d) as [Hd | Hd].
  - left. congruence.
  - right. rewrite Hd, swap_case_involutive. congruence.
  - right. rewrite Hc, Heq, <- Hd. reflexivity.
  - left. congruence.
Qed.

Lemma case_variant_upper (s t : string) :
  case_variant s t ->
  all_ascii s = all_ascii t /\ map_bytes byte_to_upper s = map_bytes byte_to_upper t.
Proof.
  induction 1 as [| c s t _ [IHa IHm] | c s t _ [IHa IHm]]; simpl.
  - split; reflexivity.
  - rewrite IHa, IHm. split; reflexivity.
  - destruct (swap_case_fold c) as [Ha Hu]. rewrite Ha, Hu, IHa, IHm. split; reflexivity.
Qed.

Lemma upper_case_variant (s t : string) :
  map_bytes byte_to_upper s = map_bytes byte_to_upper t -> case_variant s t.
Proof.
  revert t. induction s as [|c s IH]; intros [|d t] Heq; simpl in Heq; try discriminate.
  - constructor.
  - injection Heq as Hc Hs. apply IH in Hs.
    destruct (byte_to_upper_inj c d Hc) as [-> | ->]; now constructor.
Qed.

Lemma case_variant_ToUpper (s t : string) :
  all_ascii t = true -> case_variant s t ->
  ToUpper unicode_upper s = ToUpper unicode_upper t.
Proof.
  intros Ht Hv. destruct (case_variant_upper s t Hv) as [Ha Hm].
  unfold ToUpper. now rewrite Ha, Ht, Hm.
Qed.

Lemma ToUpper_case_variant (s t : string) :
  all_ascii s = true -> all_ascii t = true ->
  ToUpper unicode_upper s = ToUpper unicode_upper t -> case_variant s t.
Proof.
  unfold ToUpper. intros -> ->. apply upper_case_variant.
Qed.

(** The switch of [LoggerLevel] is a search of the table of names. *)
Lemma LoggerLevel_find (levelStr : string) :
  LoggerLevel unicode_upper levelStr =
  match find (fun entry => String.eqb (ToUpper unicode_upper levelStr)
                                      (ToUpper unicode_upper (fst entry))) level_names with
  | Some entry => snd entry
  | None => LoggerLevelDebug
  end.
Proof.
  unfold LoggerLevel, level_names; cbv zeta; cbn [find fst snd].
  generalize (ToUpper unicode_upper levelStr) as upper; intros upper.
  change (ToUpper unicode_upper "Emergency") with "EMERGENCY".
  change (ToUpper unicode_upper "Alert") with "ALERT".
  change (ToUpper unicode_upper "Critical") with "CRITICAL".
  change (ToUpper unicode_upper "Error") with "ERROR".
  change (ToUpper unicode_upper "Warning") with "WARNING".
  change (ToUpper unicode_upper "Notice") with "NOTICE".
  change (ToUpper unicode_upper "Info") with "INFO".
  change (ToUpper unicode_upper "Debug") with "DEBUG".
  repeat (match goal with
          | |- context [String.eqb upper ?name] =>
              destruct (String.eqb upper name); [reflexivity|]
          end).
  reflexivity.
Qed.

Lemma level_names_ascii (n : string) (lvl : Z) :
  In (n, lvl) level_names -> all_ascii n = true.
Proof.
  simpl. intros H.
  repeat (destruct H as [H | H]; [injection H as <- _; reflexivity|]).
  contradiction.
Qed.

Lemma LoggerLevel_of_name (levelStr n : string) (lvl : Z) :
  In (n, lvl) level_names ->
  ToUpper unicode_upper levelStr = ToUpper unicode_upper n ->
  LoggerLevel unicode_upper levelStr = lvl.
Proof.
  simpl. intros H Hup. unfold LoggerLevel; cbv zeta.
  repeat (destruct H as [H | H];
          [injection H as <- <-; rewrite Hup; reflexivity|]).
  contradiction.
Qed.

Lemma LoggerLevel_unknown (levelStr : string) :
  (forall n lvl, In (n, lvl) level_names ->
                 ToUpper unicode_upper levelStr <> ToUpper unicode_upper n) ->
  LoggerLevel unicode_upper levelStr = LoggerLevelDebug.
Proof.
  intros Hno. rewrite LoggerLevel_find.
  destruct (find _ level_names) as [[n lvl]|] eqn:Hfind; [|reflexivity].
  apply find_some in Hfind as [Hin Heq]. simpl in Heq.
  apply String.eqb_eq in Heq. now elim (Hno n lvl Hin).
Qed.

(** C6 (amended). [LoggerLevel] ignores the case of ASCII letters: a
    string that differs from one of the eight level names only in the
    case of its letters gives that level (so WARNING gives Warning); a
    string of ASCII bytes that is no such variant of any name gives
    Debug, and so does the empty string.  Any other string is upper-cased
    by Go's Unicode tables: it gives the level of a name when its
    upper-case form is that of the name, although it is no case variant
    of it, and Debug when its upper-case form is that of no name. *)
Theorem LoggerLevel_case_insensitive (levelStr : string) :
  (forall n lvl, In (n, lvl) level_names -> case_variant levelStr n ->
                 LoggerLevel unicode_upper levelStr = lvl)
  /\ (all_ascii levelStr = true ->
      (forall n lvl, In (n, lvl) level_names -> ~ case_variant levelStr n) ->
      LoggerLevel unicode_upper levelStr = LoggerLevelDebug)
  /\ (forall n lvl, In (n, lvl) level_names ->
                    ToUpper unicode_upper levelStr = ToUpper unicode_upper n ->
                    LoggerLevel unicode_upper levelStr = lvl)
  /\ ((forall n lvl, In (n, lvl) level_names ->
                     ToUpper unicode_upper levelStr <> ToUpper unicode_upper n) ->
      LoggerLevel unicode_upper levelStr = LoggerLevelDebug)
  /\ LoggerLevel unicode_upper EmptyString = LoggerLevelDebug.
Proof.
  split; [|split; [|split; [|split]]].
  - intros n lvl Hin Hv. apply (LoggerLevel_of_name _ n lvl Hin).
    apply case_variant_ToUpper; [now apply (level_names_ascii n lvl) | exact Hv].
  - intros Hascii Hno. apply LoggerLevel_unknown. intros n lvl Hin Heq.
    apply (Hno n lvl Hin).
    apply ToUpper_case_variant; [exact Hascii | now apply (level_names_ascii n lvl) | exact Heq].
  - intros n lvl Hin Heq. now apply (LoggerLevel_of_name _ n lvl Hin).
  - apply LoggerLevel_unknown.
  - reflexivity.
Qed.

End SeverityFacts.

(** WARNING is the name Warning with every letter but the first in the
    other case. *)
Lemma WARNING_case_variant : case_variant "WARNING" "Warning".
Proof.
  apply case_variant_same.
  apply (case_variant_swap "a"), (case_variant_swap "r"), (case_variant_swap "n"),
    (case_variant_swap "i"), (case_variant_swap "n"), (case_variant_swap "g").
  apply case_variant_nil.
Qed.

Lemma bogus_no_case_variant (n : string) (lvl : Z) :
  In (n, lvl) level_names -> ~ case_variant "bogus" n.
Proof.
  intros Hin Hv. apply case_variant_upper in Hv as [_ Hv].
  simpl in Hin.
  repeat (destruct Hin as [Hin | Hin]; [injection Hin as <- _; vm_compute in Hv; discriminate|]).
  contradiction.
Qed.

(** The word info written with a dotless i is no case variant of a level
    name: it is not a string of ASCII bytes. *)
Lemma dotless_info_no_case_variant (n : string) (lvl : Z) :
  In (n, lvl) level_names -> ~ case_variant dotless_info n.
Proof.
  intros Hin Hv. apply case_variant_upper in Hv as [Hascii _].
  rewrite (level_names_ascii n lvl Hin) in Hascii. vm_compute in Hascii. discriminate.
Qed.

(** C6, as stated, fails: the word info written with a dotless i is not
    the empty string and no case variant of any of the eight names, so it
    is an unknown input; Go's upper-casing turns it into INFO, and
    [LoggerLevel] gives Info, not Debug. *)
Lemma LoggerLevel_dotless_i_is_Info :
  dotless_info <> EmptyString
  /\ GoStrings.all_ascii dotless_info = false
  /\ (forall n lvl, In (n, lvl) level_names -> ~ case_variant dotless_info n)
  /\ upper_dotless_i dotless_info = "INFO"
  /\ LoggerLevel upper_dotless_i dotless_info = LoggerLevelInfo
  /\ LoggerLevelInfo <> LoggerLevelDebug.
Proof.
  split; [discriminate|]. split; [reflexivity|].
  split; [exact dotless_info_no_case_variant|].
  split; [reflexivity|]. split; [reflexivity | discriminate].
Qed.

(** C6 (amended) on WARNING, on an unknown ASCII name, on the empty string
    and on the word info written with a dotless i. *)
Lemma LoggerLevel_case_insensitive_witness :
  LoggerLevel (fun s => s) "WARNING" = LoggerLevelWarning
  /\ LoggerLevel (fun s => s) "bogus" = LoggerLevelDebug
  /\ LoggerLevel (fun s => s) EmptyString = LoggerLevelDebug
  /\ LoggerLevel upper_dotless_i dotless_info = LoggerLevelInfo.
Proof.
  split; [|split; [|split]].
  - apply (proj1 (LoggerLevel_case_insensitive (fun s => s) "WARNING") "Warning").
    + simpl; tauto.
    + exact WARNING_case_variant.
  - apply (proj1 (proj2 (LoggerLevel_case_insensitive (fun s => s) "bogus"))).
    + reflexivity.
    + exact bogus_no_case_variant.
  - apply (proj2 (proj2 (proj2 (proj2 (LoggerLevel_case_insensitive (fun s => s)
                                                                    EmptyString))))).
  - apply (proj1 (proj2 (proj2 (LoggerLevel_case_insensitive upper_dotless_i dotless_info)))
                 "Info").
    + simpl; tauto.
    + reflexivity.
Defined.

(** ** Dispatch to the bindings *)

Section DispatchFacts.

Context {A Config : Type} `{!LoggerAbstract A Config}.

Implicit Types (w : World A) (logger : Logger A).

Lemma world_extends_refl w : world_extends w w [] [].
Proof. unfold world_extends. now rewrite !app_nil_r. Qed.

Lemma world_extends_trans w1 w2 w3 e1 e2 c1 c2 :
  world_extends w1 w2 e1 c1 -> world_extends w2 w3 e2 c2 ->
  world_extends w1 w3 (e1 ++ e2) (c1 ++ c2).
Proof.
  unfold world_extends. intros (Ha & Ho & He & Hc & Hd) (Ha' & Ho' & He' & Hc' & Hd').
  rewrite Ha', Ho', He', Hc', Hd', Ha, Ho, He, Hc, Hd, !app_assoc. auto.
Qed.

Lemma write_output_run (i : nat) (loggerOutput : outputLogger A) loggerMsg w :
  exists w',
    write_output i loggerOutput loggerMsg w = Normal (write_result loggerOutput loggerMsg) w'
    /\ world_extends w w' (write_error loggerOutput loggerMsg)
         (if admits loggerOutput loggerMsg then [CallWrite i loggerMsg] else []).
Proof.
  unfold write_output, write_result, write_error, admits.
  destruct (output_Level loggerOutput >=? Level loggerMsg).
  - unfold bind, record_call, ret.
    destruct (adapter_Write (output_Adapter loggerOutput) loggerMsg) as [adapterLog [e|]];
      simpl; eexists; (split; [reflexivity|]); unfold world_extends; simpl;
      rewrite ?app_nil_r; auto.
  - eexists; split; [reflexivity | apply world_extends_refl].
Qed.

Lemma write_outputs_run (outs : list (outputLogger A)) (i : nat) loggerMsg w :
  exists w',
    write_outputs i outs loggerMsg w
    = Normal (map (fun o => write_result o loggerMsg) outs) w'
    /\ world_extends w w' (flat_map (fun o => write_error o loggerMsg) outs)
         (map (fun j => CallWrite j loggerMsg)
              (admitted_from i (map output_Level outs) (Level loggerMsg))).
Proof.
  revert i w. induction outs as [|o rest IH]; intros i w.
  - exists w. split; [reflexivity | apply world_extends_refl].
  - destruct (write_output_run i o loggerMsg w) as (w1 & Hrun1 & Hext1).
    destruct (IH (S i) w1) as (w2 & Hrun2 & Hext2).
    exists w2. split.
    + simpl. unfold bind at 1. rewrite Hrun1. unfold bind. rewrite Hrun2. reflexivity.
    + simpl. pose proof (world_extends_trans _ _ _ _ _ _ _ Hext1 Hext2) as Hext.
      unfold admits in Hext.
      destruct (output_Level o >=? Level loggerMsg); exact Hext.
Qed.

Lemma writeToOutputs_run logger loggerMsg w :
  exists w',
    writeToOutputs logger loggerMsg w
    = Normal (set_outputs logger (map (fun o => write_result o loggerMsg) (outputs logger))) w'
    /\ world_extends w w' (flat_map (fun o => write_error o loggerMsg) (outputs logger))
         (map (fun j => CallWrite j loggerMsg) (admitted (outputs logger) loggerMsg)).
Proof.
  destruct (write_outputs_run (outputs logger) 0 loggerMsg w) as (w' & Hrun & Hext).
  exists w'. split; [|exact Hext].
  unfold writeToOutputs, bind. now rewrite Hrun.
Qed.

Lemma admitted_from_spec (thresholds : list Z) (L : Z) (i j : nat) :
  In j (admitted_from i thresholds L) <->
  (i <= j)%nat /\ exists T, thresholds !! (j - i)%nat = Some T /\ T >= L.
Proof.
  revert i. induction thresholds as [|T rest IH]; intros i; simpl.
  - split; [contradiction | intros (_ & T & Hl & _); discriminate].
  - assert (Hrest : In j (admitted_from (S i) rest L) <->
                    (i < j)%nat /\ exists T', rest !! (j - S i)%nat = Some T' /\ T' >= L).
    { rewrite IH. split; intros [Hle H']; (split; [lia | exact H']). }
    assert (Hsplit : (i <= j)%nat /\ (exists T', (T :: rest) !! (j - i)%nat = Some T' /\ T' >= L)
                     <-> (i = j /\ T >= L)
                         \/ ((i < j)%nat /\ exists T', rest !! (j - S i)%nat = Some T' /\ T' >= L)).
    { split.
      - intros (Hle & T' & Hl & Hge).
        destruct (decide (i = j)) as [->|Hne].
        + left. rewrite Nat.sub_diag in Hl. simpl in Hl. injection Hl as ->. auto.
        + right. split; [lia|]. exists T'. split; [|exact Hge].
          replace (j - i)%nat with (S (j - S i)) in Hl by lia. exact Hl.
      - intros [[-> Hge] | (Hlt & T' & Hl & Hge)].
        + split; [lia|]. exists T. rewrite Nat.sub_diag. auto.
        + split; [lia|]. exists T'. split; [|exact Hge].
          replace (j - i)%nat with (S (j - S i)) by lia. exact Hl. }
    rewrite Hsplit, <- Hrest.
    destruct (T >=? L) eqn:Hge.
    + apply Z.geb_le in Hge. simpl.
      split; (intros [H' | H']; [left | right; exact H']); [split; [tauto | lia] | tauto].
    + assert (~ T >= L) by (intros Hc; apply Z.ge_le in Hc; apply Z.geb_le in Hc; congruence).
      tauto.
Qed.

Lemma admitted_spec (outs : list (outputLogger A)) loggerMsg (i : nat) :
  In i (admitted outs loggerMsg) <->
  exists o, outs !! i = Some o /\ output_Level o >= Level loggerMsg.
Proof.
  unfold admitted. rewrite admitted_from_spec, Nat.sub_0_r. split.
  - intros (_ & T & Hl & Hge). rewrite list_lookup_fmap in Hl.
    destruct (outs !! i) as [o|]; [|discriminate].
    injection Hl as <-. now exists o.
  - intros (o & Hl & Hge). split; [lia|]. exists (output_Level o).
    rewrite list_lookup_fmap, Hl. auto.
Qed.

(** C4. Dispatch of an event with level L calls [Write] with that event on
    the binding at position i if and only if a binding is attached there
    whose threshold T satisfies T >= L; the calls are made in the order of
    the bindings, one per admitting binding, and nothing else is called. *)
Theorem writeToOutputs_admits_by_threshold logger loggerMsg w :
  exists logger' w' new,
    writeToOutputs logger loggerMsg w = Normal logger' w'
    /\ calls w' = calls w ++ new
    /\ new = map (fun i => CallWrite i loggerMsg) (admitted (outputs logger) loggerMsg)
    /\ forall i, In (CallWrite i loggerMsg) new <->
                 exists o, outputs logger !! i = Some o
                           /\ output_Level o >= Level loggerMsg.
Proof.
  destruct (writeToOutputs_run logger loggerMsg w) as (w' & Hrun & Hext).
  destruct Hext as (_ & _ & _ & Hcalls & _).
  eexists _, w', _. split; [exact Hrun|]. split; [exact Hcalls|]. split; [reflexivity|].
  intros i. rewrite <- admitted_spec, in_map_iff. split.
  - intros (j & Heq & Hin). now injection Heq as ->.
  - intros Hin. now exists i.
Qed.

(** A threshold of Warning (4) admits the levels Emergency (0) to
    Warning (4) and neither Notice (5) nor anything less urgent. *)
Lemma warning_threshold_admits (L : Z) :
  admitted_from 0 [LoggerLevelWarning] L = if L <=? 4 then [0%nat] else [].
Proof.
  simpl. unfold LoggerLevelWarning.
  destruct (4 >=? L) eqn:H1, (L <=? 4) eqn:H2; try reflexivity.
  - apply Z.geb_le in H1. apply Z.leb_gt in H2. lia.
  - apply Z.leb_le in H2. apply Z.geb_le in H2. congruence.
Qed.

End DispatchFacts.

(** ** Writer and detach *)

Section LoggerFacts.

Context {A Config : Type} `{!LoggerAbstract A Config}.

Implicit Types (w : World A) (logger : Logger A) (outs : list (outputLogger A)).

(** *** Writer *)

Lemma levelString_defined (level : Z) :
  0 <= level <= 7 -> levelString level <> EmptyString.
Proof.
  intros Hrange.
  assert (Hcases : level = 0 \/ level = 1 \/ level = 2 \/ level = 3
                   \/ level = 4 \/ level = 5 \/ level = 6 \/ level = 7) by lia.
  repeat (destruct Hcases as [-> | Hcases]; [vm_compute; discriminate|]).
  subst; vm_compute; discriminate.
Qed.

Lemma check_level_defined (level : Z) w :
  levelString level <> EmptyString -> check_level level w = Normal tt w.
Proof.
  intros Hdef. unfold check_level.
  destruct (String.eqb (levelString level) "") eqn:Heq; [|reflexivity].
  apply String.eqb_eq in Heq. contradiction.
Qed.

Lemma Writer_synchronous env logger level msg w :
  synchronous logger = true -> levelString level <> EmptyString ->
  exists w',
    Writer env logger level msg w
    = Normal (set_outputs logger
                (map (fun o => write_result o (build_message env level msg)) (outputs logger)),
              None) w'
    /\ world_extends w w'
         (flat_map (fun o => write_error o (build_message env level msg)) (outputs logger))
         (map (fun j => CallWrite j (build_message env level msg))
              (admitted (outputs logger) (build_message env level msg))).
Proof.
  intros Hsync Hdef.
  destruct (writeToOutputs_run logger (build_message env level msg) w) as (w' & Hrun & Hext).
  exists w'. split; [|exact Hext].
  unfold Writer. unfold bind at 1. rewrite (check_level_defined level w Hdef).
  rewrite Hsync. simpl. unfold bind. now rewrite Hrun.
Qed.

Lemma Writer_asynchronous env logger level msg w :
  synchronous logger = false -> levelString level <> EmptyString ->
  Writer env logger level msg w
  = match wait_Add logger 1 w with
    | Normal counted w1 =>
        match chan_send (msgChan counted) (build_message env level msg) with
        | Some ch => Normal (set_msgChan counted ch, None) w1
        | None => Blocked w1
        end
    | Exited code w1 => Exited code w1
    | Panicked v w1 => Panicked v w1
    | Blocked w1 => Blocked w1
    end.
Proof.
  intros Hsync Hdef. unfold Writer, bind.
  rewrite (check_level_defined level w Hdef), Hsync. simpl.
  destruct (wait_Add logger 1 w) as [counted w1 | | |]; try reflexivity.
  destruct (chan_send _ _); reflexivity.
Qed.

Lemma wait_Add_cases logger (delta : Z) w :
  (wait logger + delta < 0 /\ exists v, wait_Add logger delta w = Panicked v w)
  \/ (0 <= wait logger + delta
      /\ exists counted,
           wait_Add logger delta w = Normal counted w
           /\ outputs counted = outputs logger
           /\ msgChan counted = msgChan logger
           /\ synchronous counted = synchronous logger
           /\ wait counted = wait logger + delta
           /\ signalChan counted = signalChan logger).
Proof.
  unfold wait_Add. destruct (wait logger + delta <? 0) eqn:Hneg.
  - left. apply Z.ltb_lt in Hneg. split; [exact Hneg|]. eexists. reflexivity.
  - right. apply Z.ltb_ge in Hneg. split; [exact Hneg|]. eexists.
    split; [reflexivity|]. simpl. auto.
Qed.

(** [Writer] surfaces no error: whenever it returns, it returns nil. *)
Lemma Writer_nil_when_it_returns env logger level msg w r w' :
  levelString level <> EmptyString ->
  Writer env logger level msg w = Normal r w' -> snd r = None.
Proof.
  intros Hdef. destruct (synchronous logger) eqn:Hsync.
  - destruct (Writer_synchronous env logger level msg w Hsync Hdef) as (w1 & Hrun & _).
    rewrite Hrun. intros Heq. injection Heq as <- _. reflexivity.
  - rewrite (Writer_asynchronous env logger level msg w Hsync Hdef).
    destruct (wait_Add logger 1 w) as [counted w1 | | |]; try discriminate.
    destruct (chan_send _ _); [|discriminate].
    intros Heq. injection Heq as <- _. reflexivity.
Qed.

(** C8. When the [Write] of an admitting binding returns an error during
    the dispatch of an event, a line naming the binding and the error is
    written to the standard error stream, every admitting binding, before
    or after the failing one, is still written to, and the call of [Writer]
    gives its caller no error: in synchronous mode it returns nil after
    this dispatch, and in either mode it returns nil whenever it returns. *)
Theorem Writer_continues_after_write_error env logger level msg w :
  levelString level <> EmptyString ->
  exists logger' w' errs new,
    writeToOutputs logger (build_message env level msg) w = Normal logger' w'
    /\ stderr w' = stderr w ++ errs
    /\ calls w' = calls w ++ new
    /\ (forall i o e,
           outputs logger !! i = Some o ->
           output_Level o >= Level (build_message env level msg) ->
           snd (adapter_Write (output_Adapter o) (build_message env level msg)) = Some e ->
           In ("logger: unable write loggerMessage to adapter:" +:+ output_Name o
               +:+ ", error: " +:+ e +:+ GoStrings.newline) errs)
    /\ (forall j o,
           outputs logger !! j = Some o ->
           output_Level o >= Level (build_message env level msg) ->
           In (CallWrite j (build_message env level msg)) new)
    /\ (synchronous logger = true ->
        Writer env logger level msg w = Normal (logger', None) w')
    /\ (forall r w'', Writer env logger level msg w = Normal r w'' -> snd r = None).
Proof.
  intros Hdef.
  destruct (writeToOutputs_run logger (build_message env level msg) w) as (w' & Hrun & Hext).
  destruct Hext as (_ & _ & Herr & Hcalls & _).
  eexists _, w', _, _. split; [exact Hrun|]. split; [exact Herr|]. split; [exact Hcalls|].
  split; [|split; [|split]].
  - intros i o e Hl Hge He. apply in_flat_map. exists o. split.
    + apply list_elem_of_In. eapply list_elem_of_lookup_2. exact Hl.
    + unfold write_error, admits. apply Z.ge_le in Hge. apply Z.geb_le in Hge.
      rewrite Hge, He. now left.
  - intros j o Hl Hge.
    apply (in_map (fun i => CallWrite i (build_message env level msg))).
    apply admitted_spec. now exists o.
  - intros Hsync.
    destruct (Writer_synchronous env logger level msg w Hsync Hdef) as (w1 & Hw & _).
    unfold Writer, bind in Hw |- *.
    rewrite (check_level_defined level w Hdef), Hsync in Hw |- *. simpl in Hw |- *.
    now rewrite Hrun.
  - intros r w''. now apply Writer_nil_when_it_returns.
Qed.

(** C10. For each of the eight levels [Writer] returns nil whenever it
    returns and never ends the process; in synchronous mode it always
    returns, whatever the adapters' writes return, and in asynchronous mode
    it returns as soon as the queue has room. *)
Theorem Writer_returns_nil env logger level msg w :
  0 <= level <= 7 ->
  (forall r w', Writer env logger level msg w = Normal r w' -> snd r = None)
  /\ (forall code w', Writer env logger level msg w <> Exited code w')
  /\ (synchronous logger = true ->
      exists logger' w', Writer env logger level msg w = Normal (logger', None) w')
  /\ (synchronous logger = false -> 0 <= wait logger ->
      (chan_len (msgChan logger) < chan_cap (msgChan logger))%nat ->
      exists logger' w', Writer env logger level msg w = Normal (logger', None) w').
Proof.
  intros Hrange. pose proof (levelString_defined level Hrange) as Hdef.
  split; [intros r w'; now apply Writer_nil_when_it_returns|].
  destruct (synchronous logger) eqn:Hsync.
  - destruct (Writer_synchronous env logger level msg w Hsync Hdef) as (w1 & Hrun & _).
    rewrite Hrun. repeat split; try discriminate. intros _. eauto.
  - rewrite (Writer_asynchronous env logger level msg w Hsync Hdef).
    destruct (wait_Add_cases logger 1 w)
      as [(Hneg & v & ->) | (_ & counted & -> & _ & Hq & _)].
    + repeat split; try discriminate. intros _ Hwait _. lia.
    + unfold chan_send. rewrite Hq.
      destruct (chan_len (msgChan logger) <? chan_cap (msgChan logger))%nat eqn:Hroom.
      * repeat split; try discriminate. intros _ _ _. eauto.
      * repeat split; try discriminate.
        intros _ _ Hlt. apply Nat.ltb_lt in Hlt. congruence.
Qed.

(** *** detach *)

Lemma detach_loop (adapterName : string) outs (kept : list (outputLogger A)) :
  fold_left (fun acc output =>
               if String.eqb (output_Name output) adapterName then acc else acc ++ [output])
            outs kept
  = kept ++ List.filter (fun output => negb (String.eqb (output_Name output) adapterName)) outs.
Proof.
  revert kept. induction outs as [|o rest IH]; intros kept; simpl.
  - now rewrite app_nil_r.
  - rewrite IH. destruct (String.eqb (output_Name o) adapterName); simpl.
    + reflexivity.
    + now rewrite <- app_assoc.
Qed.

Lemma filter_sublist {X : Type} (keep : X -> bool) (l : list X) :
  sublist (List.filter keep l) l.
Proof.
  induction l as [|x rest IH]; simpl.
  - constructor.
  - destruct (keep x); [apply sublist_skip | apply sublist_cons]; exact IH.
Qed.

Lemma filter_keeps_all {X : Type} (keep : X -> bool) (l : list X) :
  (forall x, In x l -> keep x = true) -> List.filter keep l = l.
Proof.
  induction l as [|x rest IH]; intros Hall; simpl; [reflexivity|].
  rewrite (Hall x) by now left. f_equal. apply IH. intros y Hin. apply Hall. now right.
Qed.

(** C7. [detach] keeps, in their order, exactly the bindings whose name
    differs from the argument, changes nothing else of the logger and
    returns nil; when no binding has that name the logger is unchanged. *)
Theorem detach_removes_named logger (adapterName : string) :
  outputs (fst (detach logger adapterName))
  = List.filter (fun output => negb (String.eqb (output_Name output) adapterName))
                (outputs logger)
  /\ (forall o, In o (outputs (fst (detach logger adapterName))) <->
                In o (outputs logger) /\ output_Name o <> adapterName)
  /\ sublist (outputs (fst (detach logger adapterName))) (outputs logger)
  /\ snd (detach logger adapterName) = None
  /\ ((forall o, In o (outputs logger) -> output_Name o <> adapterName) ->
      fst (detach logger adapterName) = logger).
Proof.
  assert (Hout : outputs (fst (detach logger adapterName))
                 = List.filter (fun output => negb (String.eqb (output_Name output) adapterName))
                               (outputs logger)).
  { unfold detach. simpl. now rewrite detach_loop. }
  split; [exact Hout|]. split; [|split; [|split]].
  - intros o. rewrite Hout, filter_In, negb_true_iff, String.eqb_neq. reflexivity.
  - rewrite Hout. apply filter_sublist.
  - reflexivity.
  - intros Hnone. clear Hout. destruct logger as [outs mc sy wt sc].
    unfold detach, set_outputs. simpl in *. rewrite detach_loop. simpl. f_equal.
    apply filter_keeps_all. intros o Hin. apply negb_true_iff, String.eqb_neq.
    now apply Hnone.
Qed.

End LoggerFacts.

(** ** attach, NewLogger and Flush in synchronous mode *)

Section LifecycleFacts.

Context {A Config : Type} `{!LoggerAbstract A Config}.

Implicit Types (w : World A) (logger : Logger A) (outs : list (outputLogger A)).

(** *** attach and NewLogger *)

Lemma printError_exits (message : string) w :
  exists w',
    printError message w = Exited 0 w'
    /\ adapters w' = adapters w
    /\ stdout w' = stdout w ++ [message +:+ GoStrings.newline]
    /\ stderr w' = stderr w
    /\ calls w' = calls w.
Proof. eexists. split; [reflexivity|]. simpl. auto. Qed.

(** The loop of lines 121-125 when no binding has the name. *)
Lemma attach_scan_fresh (adapterName : string) outs w :
  (forall o, In o outs -> output_Name o <> adapterName) ->
  range outs (fun output =>
                if String.eqb (output_Name output) adapterName
                then printError ("logger: adapter " +:+ adapterName +:+ "already attached!")
                else ret tt) w
  = Normal tt w.
Proof.
  induction outs as [|o rest IH]; intros Hfresh; simpl; [reflexivity|].
  assert (Hne : output_Name o <> adapterName) by (apply Hfresh; now left).
  apply String.eqb_neq in Hne. unfold bind. rewrite Hne. unfold ret at 1.
  apply IH. intros o' Hin. apply Hfresh. now right.
Qed.

(** The same loop when some binding has the name. *)
Lemma attach_scan_duplicate (adapterName : string) outs w :
  (exists o, In o outs /\ output_Name o = adapterName) ->
  exists w',
    range outs (fun output =>
                  if String.eqb (output_Name output) adapterName
                  then printError ("logger: adapter " +:+ adapterName +:+ "already attached!")
                  else ret tt) w
    = Exited 0 w'
    /\ adapters w' = adapters w
    /\ stdout w' = stdout w ++ [("logger: adapter " +:+ adapterName +:+ "already attached!")
                                +:+ GoStrings.newline]
    /\ stderr w' = stderr w
    /\ calls w' = calls w.
Proof.
  induction outs as [|o rest IH]; intros (o' & Hin & Hname).
  - contradiction.
  - simpl. unfold bind at 1.
    destruct (String.eqb (output_Name o) adapterName) eqn:Heq.
    + destruct (printError_exits ("logger: adapter " +:+ adapterName +:+ "already attached!") w)
        as (w' & Hrun & Hw).
      exists w'. now rewrite Hrun.
    + unfold ret at 1. apply IH. destruct Hin as [-> | Hin].
      * apply String.eqb_neq in Heq. contradiction.
      * now exists o'.
Qed.

(** C1 (amended). [attach] with a name that a binding of the logger
    already has prints the already-attached message on standard output and
    ends the process with exit status 0: it does not return, no adapter is
    constructed or initialised and no binding is added, whether or not the
    name is registered. *)
Theorem attach_duplicate_exits logger (adapterName : string) (level : Z) (config : Config) w :
  (exists o, In o (outputs logger) /\ output_Name o = adapterName) ->
  exists w',
    attach logger adapterName level config w = Exited 0 w'
    /\ stdout w' = stdout w ++ [("logger: adapter " +:+ adapterName +:+ "already attached!")
                                +:+ GoStrings.newline]
    /\ calls w' = calls w
    /\ stderr w' = stderr w
    /\ adapters w' = adapters w.
Proof.
  intros Hdup.
  destruct (attach_scan_duplicate adapterName (outputs logger) w Hdup)
    as (w' & Hrun & Ha & Ho & He & Hc).
  exists w'. split; [|auto].
  unfold attach. unfold bind at 1. now rewrite Hrun.
Qed.

(** [attach] with a fresh, registered name whose adapter initialises. *)
Lemma attach_fresh logger (adapterName : string) (level : Z) (config : Config) w
      (logFun : adapterLoggerFunc A) (adapterLog : A) :
  (forall o, In o (outputs logger) -> output_Name o <> adapterName) ->
  adapters w !! adapterName = Some logFun ->
  adapter_Init (logFun tt) config = (adapterLog, None) ->
  exists w',
    attach logger adapterName level config w
    = Normal (set_outputs logger
                (outputs logger ++ [{| output_Name := adapterName; output_Level := level;
                                       output_Adapter := adapterLog |}]), None) w'
    /\ world_extends w w' [] [CallInit adapterName].
Proof.
  intros Hfresh Hreg Hinit. eexists. split.
  - unfold attach. unfold bind at 1. rewrite (attach_scan_fresh _ _ _ Hfresh).
    unfold bind at 1. unfold lookup_adapter. rewrite Hreg.
    unfold bind at 1. unfold record_call. rewrite Hinit. reflexivity.
  - unfold world_extends. simpl. now rewrite app_nil_r.
Qed.

(** [attach] returns only with the new binding appended. *)
Lemma attach_returns logger (adapterName : string) (level : Z) (config : Config) w r w' :
  attach logger adapterName level config w = Normal r w' ->
  snd r = None
  /\ exists adapterLog,
       fst r = set_outputs logger
                 (outputs logger ++ [{| output_Name := adapterName; output_Level := level;
                                        output_Adapter := adapterLog |}]).
Proof.
  unfold attach. unfold bind at 1.
  destruct (range _ _ w) as [[] w1 | | |]; try discriminate.
  unfold bind at 1. unfold lookup_adapter.
  destruct (adapters w1 !! adapterName) as [logFun|]; [|discriminate].
  unfold bind at 1. unfold record_call.
  destruct (adapter_Init (logFun tt) config) as [adapterLog [e|]]; [discriminate|].
  simpl. intros Heq. injection Heq as <- _. split; [reflexivity|]. now exists adapterLog.
Qed.

(** C9. Whenever [NewLogger] returns, the logger is in synchronous mode and
    holds exactly one binding, named console, with threshold Debug (7); and
    it does return when the console adapter is registered and initialises
    from the empty configuration. *)
Theorem NewLogger_console_binding (ConsoleConfig_zero : Config) w :
  (forall logger w',
      NewLogger ConsoleConfig_zero w = Normal logger w' ->
      synchronous logger = true
      /\ map (fun o => (output_Name o, output_Level o)) (outputs logger)
         = [("console", LoggerLevelDebug)]
      /\ LoggerLevelDebug = 7)
  /\ (forall (newConsole : adapterLoggerFunc A) (adapterLog : A),
        adapters w !! "console" = Some newConsole ->
        adapter_Init (newConsole tt) ConsoleConfig_zero = (adapterLog, None) ->
        exists w',
          NewLogger ConsoleConfig_zero w
          = Normal {| outputs := [{| output_Name := "console";
                                     output_Level := LoggerLevelDebug;
                                     output_Adapter := adapterLog |}];
                      msgChan := make_chan 10; synchronous := true; wait := 0;
                      signalChan := make_chan 1 |} w').
Proof.
  split.
  - intros logger w'. unfold NewLogger; cbv zeta. unfold bind.
    destruct (attach _ "console" LoggerLevelDebug ConsoleConfig_zero w)
      as [r w1 | | |] eqn:Hatt; try discriminate.
    apply attach_returns in Hatt as (_ & adapterLog & Hr).
    unfold ret. intros Heq. injection Heq as <- _. rewrite Hr. simpl. auto.
  - intros newConsole adapterLog Hreg Hinit. unfold NewLogger; cbv zeta.
    match goal with
    | |- context [attach ?l _ _ _] =>
        destruct (attach_fresh l "console" LoggerLevelDebug ConsoleConfig_zero w
                               newConsole adapterLog) as (w' & Hrun & _);
        [intros o [] | exact Hreg | exact Hinit |]
    end.
    exists w'. unfold bind. now rewrite Hrun.
Qed.

(** *** Flush in synchronous mode *)

Lemma flush_synchronous logger w :
  synchronous logger = true -> flush logger w = Normal logger w.
Proof. intros Hsync. unfold flush. now rewrite Hsync. Qed.

(** C2 (amended). In synchronous mode [Flush] calls no binding's [Flush]:
    it returns at once with the logger, the adapters and the record of
    adapter calls unchanged, because the body of [flush] runs only when the
    logger is not synchronous. *)
Theorem Flush_synchronous_does_nothing logger w :
  synchronous logger = true -> Flush logger w = Normal logger w.
Proof.
  intros Hsync. unfold Flush. rewrite Hsync. simpl. now apply flush_synchronous.
Qed.

End LifecycleFacts.

(** ** Asynchronous mode: adapter calls *)

Section AsyncFacts.

Context {A Config : Type} `{!LoggerAbstract A Config}.

Implicit Types (w : World A) (logger : Logger A) (outs : list (outputLogger A))
         (c : AsyncState A).

Lemma writes_of_app (cs1 cs2 : list Call) :
  writes_of (cs1 ++ cs2) = writes_of cs1 ++ writes_of cs2.
Proof. unfold writes_of. apply omap_app. Qed.

Lemma writes_of_writes (loggerMsg : loggerMessage) (positions : list nat) :
  writes_of (map (fun i => CallWrite i loggerMsg) positions)
  = map (fun i => (i, loggerMsg)) positions.
Proof. induction positions as [|i rest IH]; simpl; [reflexivity | now rewrite <- IH]. Qed.

Lemma writes_of_flushes (positions : list nat) :
  writes_of (map CallFlush positions) = [].
Proof. induction positions as [|i rest IH]; simpl; [reflexivity | exact IH]. Qed.

Lemma write_result_level (o : outputLogger A) loggerMsg :
  output_Level (write_result o loggerMsg) = output_Level o.
Proof. unfold write_result. now destruct (admits o loggerMsg). Qed.

Lemma written_levels outs loggerMsg :
  map output_Level (map (fun o => write_result o loggerMsg) outs) = map output_Level outs.
Proof.
  rewrite map_map. apply map_ext. intros o. apply write_result_level.
Qed.

Lemma flush_outputs_run outs (i : nat) w :
  exists w',
    flush_outputs i outs w = Normal (map flush_result outs) w'
    /\ world_extends w w' [] (map CallFlush (seq i (length outs))).
Proof.
  revert i w. induction outs as [|o rest IH]; intros i w.
  - exists w. split; [reflexivity | apply world_extends_refl].
  - simpl. unfold bind, record_call.
    match goal with
    | |- context [flush_outputs (S i) rest ?w1] =>
        destruct (IH (S i) w1) as (w2 & Hrun & Hext)
    end.
    exists w2. rewrite Hrun. split.
    + reflexivity.
    + destruct Hext as (Ha & Ho & He & Hc & Hd). unfold world_extends. simpl in *.
      rewrite Ha, Ho, He, Hc, Hd, <- app_assoc. auto.
Qed.

Lemma check_level_cases (level : Z) w :
  check_level level w = Normal tt w \/ exists w', check_level level w = Exited 0 w'.
Proof.
  unfold check_level. destruct (String.eqb (levelString level) ""); [right | left].
  - eexists. reflexivity.
  - reflexivity.
Qed.

End AsyncFacts.

(** ** Asynchronous mode: every step keeps the accounts *)

Section AsyncInvariant.

Context {A Config : Type} `{!LoggerAbstract A Config}.

Implicit Types (w : World A) (logger : Logger A) (outs : list (outputLogger A))
         (c : AsyncState A).

Variable thresholds : list Z.
Variable events : list loggerMessage.
Variable before : list (nat * loggerMessage).

Lemma accounted_main_step c c' :
  main_step c = Some c' ->
  accounted thresholds events before c -> accounted thresholds events before c'.
Proof.
  intros Hstep Hacc. destruct c as [logger w mpc wpc].
  unfold main_step in Hstep; simpl in Hstep.
  destruct Hacc as [Hstop | (Hsync & Hlev & Hret & through & Hev & Hwr & Hwait)];
    simpl in *.
  { subst mpc. discriminate. }
  destruct mpc as [[|call rest] | m rest | m rest | | | | ]; simpl in *.
  - rewrite Hsync in Hstep. simpl in Hstep. injection Hstep as <-.
    right; simpl. repeat split; auto; try discriminate. exists through. auto.
  - rewrite Hsync in Hstep. simpl in Hstep. unfold main_does, bind in Hstep.
    simpl in Hstep.
    destruct (check_level_cases (call_level call) w) as [Hok | [w' Hex]].
    + rewrite Hok in Hstep. unfold ret in Hstep. injection Hstep as <-.
      right; simpl. repeat split; auto; try discriminate. exists through. auto.
    + rewrite Hex in Hstep. injection Hstep as <-. left. reflexivity.
  - unfold main_does, wait_Add in Hstep. simpl in Hstep.
    destruct (wait logger + 1 <? 0); simpl in Hstep; injection Hstep as <-.
    + left. reflexivity.
    + right; simpl. repeat split; auto; try discriminate. exists through.
      split; [exact Hev|]. split; [exact Hwr | lia].
  - destruct (chan_send (msgChan logger) m) as [ch|] eqn:Hsend; [|discriminate].
    injection Hstep as <-. unfold chan_send in Hsend.
    destruct (chan_len (msgChan logger) <? chan_cap (msgChan logger))%nat; [|discriminate].
    injection Hsend as <-.
    right; simpl. repeat split; auto; try discriminate. exists through.
    split; [|split; [exact Hwr|]].
    + rewrite Hev, <- !app_assoc. reflexivity.
    + rewrite length_app. simpl. lia.
  - destruct (chan_send (signalChan logger) "flush") as [ch|]; [|discriminate].
    injection Hstep as <-.
    right; simpl. repeat split; auto; try discriminate. exists through. auto.
  - destruct (wait logger =? 0) eqn:Hzero; [|discriminate].
    injection Hstep as <-. apply Z.eqb_eq in Hzero.
    right; simpl. repeat split; auto. exists through. auto.
  - discriminate.
  - discriminate.
Qed.

Lemma dispatched_snoc (through : list loggerMessage) (loggerMsg : loggerMessage) :
  dispatched thresholds (through ++ [loggerMsg])
  = dispatched thresholds through
    ++ map (fun i => (i, loggerMsg)) (admitted_from 0 thresholds (Level loggerMsg)).
Proof. unfold dispatched. rewrite flat_map_app. simpl. now rewrite app_nil_r. Qed.

(** What a whole [writeToOutputs] does to the accounts. *)
Lemma writeToOutputs_accounts logger loggerMsg w :
  map output_Level (outputs logger) = thresholds ->
  exists logger' w',
    writeToOutputs logger loggerMsg w = Normal logger' w'
    /\ map output_Level (outputs logger') = thresholds
    /\ msgChan logger' = msgChan logger
    /\ synchronous logger' = synchronous logger
    /\ wait logger' = wait logger
    /\ writes_of (calls w')
       = writes_of (calls w)
         ++ map (fun i => (i, loggerMsg)) (admitted_from 0 thresholds (Level loggerMsg)).
Proof.
  intros Hlev. destruct (writeToOutputs_run logger loggerMsg w) as (w' & Hrun & Hext).
  destruct Hext as (_ & _ & _ & Hcalls & _).
  eexists _, w'. split; [exact Hrun|]. simpl.
  rewrite written_levels, Hcalls, writes_of_app, writes_of_writes.
  unfold admitted. rewrite Hlev. auto.
Qed.

Lemma main_counted_nonneg (pc : MainPc) : 0 <= main_counted pc.
Proof. destruct pc; simpl; lia. Qed.

Lemma worker_step_stopped (pick : SelectCase) c c' :
  worker_step pick c = Some c' -> cfg_main c = MStopped -> cfg_main c' = MStopped.
Proof.
  intros Hstep Hmain. destruct c as [logger w mpc wpc]; simpl in *; subst mpc.
  unfold worker_step, worker_does, goto_worker, process_ended in Hstep; simpl in Hstep.
  repeat match type of Hstep with
         | context [match ?x with _ => _ end] => destruct x; try discriminate
         end.
  all: injection Hstep as <-; reflexivity.
Qed.

Lemma accounted_worker_step (pick : SelectCase) c c' :
  worker_step pick c = Some c' ->
  accounted thresholds events before c -> accounted thresholds events before c'.
Proof.
  intros Hstep Hacc. destruct c as [logger w mpc wpc].
  destruct Hacc as [Hstop | (Hsync & Hlev & Hret & through & Hev & Hwr & Hwait)];
    simpl in *.
  { left. subst mpc. eapply worker_step_stopped; [exact Hstep | reflexivity]. }
  unfold worker_step in Hstep.
  destruct wpc as [ | m | | signal | | m | | | ];
    async_simpl.
  - (* select *)
    destruct pick.
    + unfold chan_recv in Hstep.
      destruct (chan_buf (msgChan logger)) as [|m buf] eqn:Hbuf.
      * destruct mpc as [ | | m rest | | | | ]; try discriminate.
        destruct (chan_cap (msgChan logger) =? 0)%nat; [|discriminate].
        injection Hstep as <-.
        right; simpl. repeat split; auto; try discriminate. exists through.
        rewrite Hbuf. simpl in *. split; [exact Hev|]. split; [exact Hwr | lia].
      * injection Hstep as <-.
        right; simpl. repeat split; auto. exists through.
        simpl in *. split; [exact Hev|]. split; [exact Hwr | lia].
    + destruct (chan_recv (signalChan logger)) as [[signal ch]|]; [|discriminate].
      injection Hstep as <-.
      right; simpl. repeat split; auto. exists through. auto.
  - (* line 265 *)
    unfold worker_does in Hstep; async_simpl.
    destruct (writeToOutputs_accounts logger m w Hlev)
      as (logger' & w' & Hrun & Hlev' & Hq & Hs & Hw & Hcalls).
    rewrite Hrun in Hstep. injection Hstep as <-.
    right; simpl. rewrite Hq, Hs, Hw. repeat split; auto. exists (through ++ [m]).
    split; [|split].
    + rewrite Hev, <- !app_assoc. reflexivity.
    + rewrite Hcalls, Hwr, dispatched_snoc, app_assoc. reflexivity.
    + simpl in Hwait. lia.
  - (* line 266 *)
    unfold worker_does, wait_Add in Hstep; async_simpl.
    destruct (wait logger + -1 <? 0) eqn:Hneg; simpl in Hstep.
    + apply Z.ltb_lt in Hneg. pose proof (main_counted_nonneg mpc). lia.
    + injection Hstep as <-.
      right; simpl. repeat split; auto.
      * intros Hmain. specialize (Hret Hmain). lia.
      * exists through. split; [exact Hev|]. split; [exact Hwr | lia].
  - (* line 268 *)
    destruct (String.eqb signal "flush" && negb (synchronous logger));
      injection Hstep as <-;
      right; simpl; repeat split; auto; exists through; auto.
  - (* line 279 *)
    unfold chan_recv in Hstep.
    destruct (chan_buf (msgChan logger)) as [|m buf] eqn:Hbuf; injection Hstep as <-.
    + right; simpl. repeat split; auto. exists through. rewrite Hbuf. auto.
    + right; simpl. repeat split; auto. exists through.
      simpl in *. split; [exact Hev|]. split; [exact Hwr | lia].
  - (* line 281 *)
    unfold worker_does in Hstep; async_simpl.
    destruct (writeToOutputs_accounts logger m w Hlev)
      as (logger' & w' & Hrun & Hlev' & Hq & Hs & Hw & Hcalls).
    rewrite Hrun in Hstep. injection Hstep as <-.
    right; simpl. rewrite Hq, Hs, Hw. repeat split; auto. exists (through ++ [m]).
    split; [|split].
    + rewrite Hev, <- !app_assoc. reflexivity.
    + rewrite Hcalls, Hwr, dispatched_snoc, app_assoc. reflexivity.
    + simpl in Hwait. lia.
  - (* line 282 *)
    unfold worker_does, wait_Add in Hstep; async_simpl.
    destruct (wait logger + -1 <? 0) eqn:Hneg; simpl in Hstep.
    + apply Z.ltb_lt in Hneg. pose proof (main_counted_nonneg mpc). lia.
    + injection Hstep as <-.
      right; simpl. repeat split; auto.
      * intros Hmain. specialize (Hret Hmain). lia.
      * exists through. split; [exact Hev|]. split; [exact Hwr | lia].
  - (* lines 287-289 *)
    unfold worker_does, bind in Hstep; async_simpl.
    destruct (flush_outputs_run (outputs logger) 0 w) as (w' & Hrun & Hext).
    rewrite Hrun in Hstep. unfold ret in Hstep. injection Hstep as <-.
    destruct Hext as (_ & _ & _ & Hcalls & _).
    right; simpl. repeat split; auto.
    + rewrite <- Hlev, map_map. apply map_ext. reflexivity.
    + exists through. split; [exact Hev|]. split; [|exact Hwait].
      rewrite Hcalls, writes_of_app, writes_of_flushes, app_nil_r. exact Hwr.
  - discriminate.
Qed.

Lemma accounted_run (sched : list Move) c c' :
  run_schedule sched c = Some c' ->
  accounted thresholds events before c -> accounted thresholds events before c'.
Proof.
  revert c. induction sched as [|mv rest IH]; intros c Hrun Hacc; simpl in Hrun.
  - now injection Hrun as <-.
  - destruct (step mv c) as [c1|] eqn:Hstep; [|discriminate].
    apply (IH c1 Hrun). destruct mv as [|pick]; simpl in Hstep.
    + now apply (accounted_main_step c).
    + now apply (accounted_worker_step pick c).
Qed.

End AsyncInvariant.

(** ** Asynchronous mode: what holds when Flush has returned *)

Section AsyncTheorem.

Context {A Config : Type} `{!LoggerAbstract A Config}.

Implicit Types (w : World A) (logger : Logger A) (c : AsyncState A).

Lemma SetAsync_returns logger0 (data : list Z) w0 logger w :
  SetAsync logger0 data w0 = Normal logger w ->
  synchronous logger = false
  /\ outputs logger = outputs logger0
  /\ wait logger = wait logger0
  /\ chan_buf (msgChan logger) = []
  /\ chan_buf (signalChan logger) = [] /\ chan_cap (signalChan logger) = 1%nat
  /\ calls w = calls w0.
Proof.
  unfold SetAsync.
  destruct (match data with [] => 100 | d :: _ => d end <? 0); [discriminate|].
  unfold bind, go_startAsyncWrite, ret. intros Heq. injection Heq as <- <-.
  simpl. auto 10.
Qed.

Lemma dispatched_calls (thresholds : list Z) (todo : list LogCall) :
  dispatched thresholds (map call_event todo)
  = flat_map (fun call => map (fun i => (i, call_event call))
                              (admitted_from 0 thresholds (Level (call_event call)))) todo.
Proof.
  unfold dispatched. induction todo as [|call rest IH]; simpl; [reflexivity|].
  now rewrite IH.
Qed.

(** C3 (amended). In asynchronous mode, after the calls of [todo] to
    [Writer] and one [Flush], under every interleaving of the calling and
    the drain goroutine, once [Flush] has returned the in-flight counter is
    zero, the queue is empty, and every event of [todo] has been written,
    in the order of the calls, to every binding whose threshold admits it
    and to no other. *)
Theorem Flush_returns_after_dispatch
        logger0 (data : list Z) w0 logger w (todo : list LogCall) (sched : list Move) c :
  wait logger0 = 0 ->
  SetAsync logger0 data w0 = Normal logger w ->
  run_schedule sched (async_start logger w todo) = Some c ->
  cfg_main c = MReturned ->
  wait (cfg_logger c) = 0
  /\ chan_buf (msgChan (cfg_logger c)) = []
  /\ writes_of (calls (cfg_world c))
     = writes_of (calls w0)
       ++ flat_map (fun call => map (fun i => (i, call_event call))
                                   (admitted (outputs logger0) (call_event call))) todo.
Proof.
  intros Hwait0 Hasync Hrun Hmain.
  apply SetAsync_returns in Hasync as (Hsync & Houts & Hwait & Hbuf & _ & _ & Hcalls).
  assert (Hacc : accounted (map output_Level (outputs logger0)) (map call_event todo)
                           (writes_of (calls w0)) c).
  { apply (accounted_run _ _ _ sched (async_start logger w todo)); [exact Hrun|].
    right; simpl. rewrite Hsync, Houts, Hwait, Hbuf, Hcalls, Hwait0.
    repeat split; try discriminate. exists []. simpl. rewrite app_nil_r. auto. }
  destruct Hacc as [Hstop | (_ & _ & Hret & through & Hev & Hwr & Hcount)];
    [congruence|].
  specialize (Hret Hmain). rewrite Hmain in Hev, Hcount. simpl in Hev, Hcount.
  assert (Hq : chan_buf (msgChan (cfg_logger c)) = [] /\ worker_holds (cfg_worker c) = []).
  { destruct (chan_buf (msgChan (cfg_logger c))), (cfg_worker c); simpl in *;
      split; try reflexivity; lia. }
  destruct Hq as [Hq Hh]. rewrite Hq, Hh in Hev. simpl in Hev. rewrite app_nil_r in Hev.
  split; [exact Hret|]. split; [exact Hq|].
  rewrite Hwr, <- Hev, dispatched_calls. reflexivity.
Qed.

End AsyncTheorem.

(** ** Asynchronous mode: the steps are the functions, and an eager schedule *)

Section AsyncProgress.

Context {A Config : Type} `{!LoggerAbstract A Config}.

Implicit Types (w : World A) (logger : Logger A) (c : AsyncState A).

Lemma run_schedule_app (s1 s2 : list Move) c :
  run_schedule (s1 ++ s2) c
  = match run_schedule s1 c with
    | Some c' => run_schedule s2 c'
    | None => None
    end.
Proof.
  revert c. induction s1 as [|mv rest IH]; intros c; simpl; [reflexivity|].
  destruct (step mv c); [apply IH | reflexivity].
Qed.

Lemma check_level_ret (level : Z) :
  levelString level <> EmptyString -> check_level (A:=A) level = ret tt.
Proof.
  intros Hdef. unfold check_level.
  destruct (String.eqb (levelString level) "") eqn:Heq; [|reflexivity].
  apply String.eqb_eq in Heq. contradiction.
Qed.

(** The three steps of the calling goroutine through one call are [Writer]
    run without interruption. *)
Lemma Writer_is_three_steps (call : LogCall) (rest : list LogCall) logger w
      (wpc : WorkerPc) r w' :
  synchronous logger = false ->
  Writer (call_env call) logger (call_level call) (call_msg call) w = Normal r w' ->
  run_schedule [MainStep; MainStep; MainStep]
               {| cfg_logger := logger; cfg_world := w;
                  cfg_main := MCall (call :: rest); cfg_worker := wpc |}
  = Some {| cfg_logger := fst r; cfg_world := w';
            cfg_main := MCall rest; cfg_worker := wpc |}.
Proof.
  intros Hsync Hw. unfold Writer, bind in Hw.
  destruct (check_level_cases (call_level call) w) as [Hck | [w1 Hck]];
    rewrite Hck in Hw; [|discriminate].
  rewrite Hsync in Hw. cbn [negb] in Hw. fold (call_event call) in Hw.
  destruct (wait_Add logger 1 w) as [counted w1 | | |] eqn:Hadd; try discriminate.
  destruct (chan_send (msgChan counted) (call_event call)) as [ch|] eqn:Hsend;
    [|discriminate].
  injection Hw as <- <-.
  cbn [run_schedule step].
  assert (H1 : main_step {| cfg_logger := logger; cfg_world := w;
                            cfg_main := MCall (call :: rest); cfg_worker := wpc |}
               = Some {| cfg_logger := logger; cfg_world := w;
                         cfg_main := MAdd (call_event call) rest; cfg_worker := wpc |}).
  { unfold main_step, main_does, bind. cbn [cfg_main cfg_logger cfg_world cfg_worker].
    now rewrite Hsync, Hck. }
  rewrite H1.
  assert (H2 : main_step {| cfg_logger := logger; cfg_world := w;
                            cfg_main := MAdd (call_event call) rest; cfg_worker := wpc |}
               = Some {| cfg_logger := counted; cfg_world := w1;
                         cfg_main := MSend (call_event call) rest; cfg_worker := wpc |}).
  { unfold main_step, main_does. cbn [cfg_main cfg_logger cfg_world cfg_worker].
    now rewrite Hadd. }
  rewrite H2.
  unfold main_step, goto_main. cbn [cfg_main cfg_logger cfg_world cfg_worker].
  now rewrite Hsend.
Qed.

(** The three steps of [flush_alone] are [Flush] run without interruption. *)
Lemma Flush_is_three_steps logger w (wpc : WorkerPc) logger' w' :
  synchronous logger = false ->
  Flush logger w = Normal logger' w' ->
  run_schedule flush_alone
               {| cfg_logger := logger; cfg_world := w; cfg_main := MCall [];
                  cfg_worker := wpc |}
  = Some {| cfg_logger := logger'; cfg_world := w'; cfg_main := MReturned;
            cfg_worker := wpc |}.
Proof.
  intros Hsync Hf. unfold Flush in Hf. rewrite Hsync in Hf. cbn [negb] in Hf.
  destruct (chan_send (signalChan logger) "flush") as [ch|] eqn:Hsend; [|discriminate].
  destruct (wait (set_signalChan logger ch) =? 0) eqn:Hzero; [|discriminate].
  injection Hf as <- <-.
  unfold flush_alone. cbn [run_schedule step].
  assert (H1 : main_step {| cfg_logger := logger; cfg_world := w; cfg_main := MCall [];
                            cfg_worker := wpc |}
               = Some {| cfg_logger := logger; cfg_world := w; cfg_main := MSignal;
                         cfg_worker := wpc |}).
  { unfold main_step, goto_main. cbn [cfg_main cfg_logger cfg_world cfg_worker].
    now rewrite Hsync. }
  rewrite H1.
  assert (H2 : main_step {| cfg_logger := logger; cfg_world := w; cfg_main := MSignal;
                            cfg_worker := wpc |}
               = Some {| cfg_logger := set_signalChan logger ch; cfg_world := w;
                         cfg_main := MWait; cfg_worker := wpc |}).
  { unfold main_step, goto_main. cbn [cfg_main cfg_logger cfg_world cfg_worker].
    now rewrite Hsend. }
  rewrite H2.
  unfold main_step, goto_main. cbn [cfg_main cfg_logger cfg_world cfg_worker].
  now rewrite Hzero.
Qed.

Lemma writeToOutputs_msgChan logger loggerMsg w logger' w' :
  writeToOutputs logger loggerMsg w = Normal logger' w' -> msgChan logger' = msgChan logger.
Proof.
  destruct (writeToOutputs_run logger loggerMsg w) as (w1 & Hrun & _).
  rewrite Hrun. intros Heq. injection Heq as <- _. reflexivity.
Qed.

Lemma wait_Add_msgChan logger (delta : Z) w logger' w' :
  wait_Add logger delta w = Normal logger' w' -> msgChan logger' = msgChan logger.
Proof.
  unfold wait_Add. destruct (wait logger + delta <? 0); [discriminate|].
  intros Heq. injection Heq as <- _. reflexivity.
Qed.

(** The drain goroutine's steps through the loop of lines 278-286 are
    [flush_queue] when no other goroutine sends in between. *)
Lemma flush_queue_is_worker_steps (queued : list loggerMessage) logger w (mpc : MainPc)
      logger' w' :
  chan_buf (msgChan logger) = queued ->
  flush_queue queued logger w = Normal logger' w' ->
  run_schedule (concat (map (fun _ => [WorkerStep CaseMsg; WorkerStep CaseMsg;
                                       WorkerStep CaseMsg]) queued))
               {| cfg_logger := logger; cfg_world := w; cfg_main := mpc;
                  cfg_worker := WFlushTest |}
  = Some {| cfg_logger := logger'; cfg_world := w'; cfg_main := mpc;
            cfg_worker := WFlushTest |}
  /\ chan_buf (msgChan logger') = [].
Proof.
  revert logger w. induction queued as [|m rest IH]; intros logger w Hbuf Hq.
  - injection Hq as <- <-. split; [reflexivity | exact Hbuf].
  - cbn [flush_queue] in Hq. unfold bind in Hq.
    set (taken := set_msgChan logger {| chan_buf := rest;
                                        chan_cap := chan_cap (msgChan logger) |}) in *.
    destruct (writeToOutputs taken m w) as [written w1 | | |] eqn:Hwrite; try discriminate.
    destruct (wait_Add written (-1) w1) as [done w2 | | |] eqn:Hdone; try discriminate.
    assert (Hq' : chan_buf (msgChan done) = rest).
    { rewrite (wait_Add_msgChan _ _ _ _ _ Hdone), (writeToOutputs_msgChan _ _ _ _ _ Hwrite).
      reflexivity. }
    destruct (IH done w2 Hq' Hq) as (Hrun & Hempty).
    split; [|exact Hempty].
    cbn [map concat app run_schedule step].
    assert (H1 : worker_step CaseMsg {| cfg_logger := logger; cfg_world := w;
                                        cfg_main := mpc; cfg_worker := WFlushTest |}
                 = Some {| cfg_logger := taken; cfg_world := w; cfg_main := mpc;
                           cfg_worker := WFlushWrite m |}).
    { unfold worker_step, chan_recv, goto_worker.
      cbn [cfg_main cfg_logger cfg_world cfg_worker]. now rewrite Hbuf. }
    rewrite H1.
    assert (H2 : worker_step CaseMsg {| cfg_logger := taken; cfg_world := w;
                                        cfg_main := mpc; cfg_worker := WFlushWrite m |}
                 = Some {| cfg_logger := written; cfg_world := w1; cfg_main := mpc;
                           cfg_worker := WFlushDone |}).
    { unfold worker_step, worker_does.
      cbn [cfg_main cfg_logger cfg_world cfg_worker]. now rewrite Hwrite. }
    rewrite H2.
    assert (H3 : worker_step CaseMsg {| cfg_logger := written; cfg_world := w1;
                                        cfg_main := mpc; cfg_worker := WFlushDone |}
                 = Some {| cfg_logger := done; cfg_world := w2; cfg_main := mpc;
                           cfg_worker := WFlushTest |}).
    { unfold worker_step, worker_does.
      cbn [cfg_main cfg_logger cfg_world cfg_worker]. now rewrite Hdone. }
    rewrite H3. exact Hrun.
Qed.

(** From the received flush signal to the next [select], the drain
    goroutine running alone does what [flush] does. *)
Lemma flush_is_worker_steps logger w (mpc : MainPc) logger' w' :
  synchronous logger = false ->
  flush logger w = Normal logger' w' ->
  exists sched,
    run_schedule sched {| cfg_logger := logger; cfg_world := w; cfg_main := mpc;
                          cfg_worker := WSignal "flush" |}
    = Some {| cfg_logger := logger'; cfg_world := w'; cfg_main := mpc;
              cfg_worker := WSelect |}.
Proof.
  intros Hsync Hf. unfold flush in Hf. rewrite Hsync in Hf. cbn [negb] in Hf.
  unfold bind at 1 in Hf.
  destruct (flush_queue (chan_buf (msgChan logger)) logger w) as [drained w1 | | |] eqn:Hq;
    try discriminate.
  destruct (flush_queue_is_worker_steps _ logger w mpc drained w1 eq_refl Hq)
    as (Hrun & Hempty).
  exists ([WorkerStep CaseMsg]
          ++ concat (map (fun _ => [WorkerStep CaseMsg; WorkerStep CaseMsg;
                                    WorkerStep CaseMsg]) (chan_buf (msgChan logger)))
          ++ [WorkerStep CaseMsg; WorkerStep CaseMsg]).
  cbn [app run_schedule step].
  assert (H1 : worker_step CaseMsg {| cfg_logger := logger; cfg_world := w;
                                      cfg_main := mpc; cfg_worker := WSignal "flush" |}
               = Some {| cfg_logger := logger; cfg_world := w; cfg_main := mpc;
                         cfg_worker := WFlushTest |}).
  { unfold worker_step, goto_worker. cbn [cfg_main cfg_logger cfg_world cfg_worker].
    now rewrite Hsync. }
  rewrite H1, run_schedule_app, Hrun. cbn [run_schedule step].
  assert (H2 : worker_step CaseMsg {| cfg_logger := drained; cfg_world := w1;
                                      cfg_main := mpc; cfg_worker := WFlushTest |}
               = Some {| cfg_logger := drained; cfg_world := w1; cfg_main := mpc;
                         cfg_worker := WFlushOutputs |}).
  { unfold worker_step, chan_recv, goto_worker.
    cbn [cfg_main cfg_logger cfg_world cfg_worker]. now rewrite Hempty. }
  rewrite H2.
  unfold worker_step, worker_does. cbn [cfg_main cfg_logger cfg_world cfg_worker].
  now rewrite Hf.
Qed.

Lemma flushes_of_app (cs1 cs2 : list Call) :
  flushes_of (cs1 ++ cs2) = flushes_of cs1 ++ flushes_of cs2.
Proof. unfold flushes_of. apply omap_app. Qed.

Lemma flushes_of_writes (loggerMsg : loggerMessage) (positions : list nat) :
  flushes_of (map (fun i => CallWrite i loggerMsg) positions) = [].
Proof. induction positions as [|i rest IH]; simpl; [reflexivity | exact IH]. Qed.

Lemma eager_round_runs c (call : LogCall) (rest : list LogCall) :
  idle c (call :: rest) ->
  levelString (call_level call) <> EmptyString ->
  exists c',
    run_schedule eager_round c = Some c'
    /\ idle c' rest
    /\ flushes_of (calls (cfg_world c')) = flushes_of (calls (cfg_world c)).
Proof.
  intros (Hmain & Hworker & Hsync & Hwait & Hbuf & Hcap & Hsbuf & Hscap) Hdef.
  destruct c as [[outs [mbuf mcap] sync wt [sbuf scap]] w mpc wpc]. simpl in *. subst.
  destruct mcap as [|mcap]; [lia|].
  unfold eager_round. cbn [run_schedule step].
  (* Writer up to line 236 *)
  unfold main_step at 1. cbn [cfg_main cfg_logger synchronous negb].
  rewrite (check_level_ret _ Hdef).
  unfold main_does at 1, bind, ret. cbn [cfg_world cfg_worker].
  (* line 237 *)
  unfold main_step at 1. cbn [cfg_main cfg_logger].
  unfold main_does at 1, wait_Add, ret. cbn [wait cfg_world cfg_worker outputs msgChan
                                              synchronous signalChan].
  change (0 + 1 <? 0) with false. cbv iota.
  (* line 238 *)
  unfold main_step at 1. cbn [cfg_main cfg_logger msgChan].
  unfold chan_send, chan_len. cbn [chan_buf chan_cap length Nat.ltb Nat.leb app].
  unfold goto_main, set_msgChan. cbn [cfg_world cfg_worker outputs synchronous wait signalChan].
  (* line 264 *)
  unfold worker_step at 1. cbn [cfg_worker cfg_logger msgChan].
  unfold chan_recv. cbn [chan_buf chan_cap].
  unfold goto_worker, set_msgChan. cbn [cfg_world cfg_main outputs synchronous wait signalChan].
  (* line 265 *)
  unfold worker_step at 1. cbn [cfg_worker cfg_logger].
  match goal with
  | |- context [writeToOutputs ?l ?m] =>
      destruct (writeToOutputs_run l m w) as (w' & Hrun & Hext)
  end.
  unfold worker_does at 1. cbn [cfg_world cfg_main]. rewrite Hrun.
  (* line 266 *)
  unfold worker_step at 1. cbn [cfg_worker cfg_logger].
  unfold worker_does, wait_Add, set_outputs, ret.
  cbn [wait cfg_world cfg_main outputs msgChan synchronous signalChan].
  change (0 + 1 + -1 <? 0) with false. cbv iota.
  eexists. split; [reflexivity|]. split.
  - unfold idle. simpl. repeat split; auto; lia.
  - destruct Hext as (_ & _ & _ & Hcalls & _). simpl. rewrite Hcalls.
    rewrite flushes_of_app, flushes_of_writes. apply app_nil_r.
Qed.

Lemma flush_alone_runs c :
  idle c [] ->
  exists c',
    run_schedule flush_alone c = Some c'
    /\ cfg_main c' = MReturned
    /\ calls (cfg_world c') = calls (cfg_world c)
    /\ chan_buf (signalChan (cfg_logger c')) = ["flush"].
Proof.
  intros (Hmain & Hworker & Hsync & Hwait & Hbuf & Hcap & Hsbuf & Hscap).
  destruct c as [[outs [mbuf mcap] sync wt [sbuf scap]] w mpc wpc]. simpl in *. subst.
  destruct scap as [|scap]; [lia|].
  eexists. split; [reflexivity|]. simpl. auto.
Qed.

(** Under [eager_schedule] every call and then [Flush] complete, and no
    binding is flushed before [Flush] returns: the signal is still unread. *)
Lemma eager_schedule_runs (todo : list LogCall) c :
  idle c todo ->
  Forall (fun call => levelString (call_level call) <> EmptyString) todo ->
  exists c',
    run_schedule (eager_schedule (length todo)) c = Some c'
    /\ cfg_main c' = MReturned
    /\ flushes_of (calls (cfg_world c')) = flushes_of (calls (cfg_world c))
    /\ chan_buf (signalChan (cfg_logger c')) = ["flush"].
Proof.
  revert c. induction todo as [|call rest IH]; intros c Hidle Hdef.
  - destruct (flush_alone_runs c Hidle) as (c' & Hrun & Hmain & Hcalls & Hsig).
    exists c'. simpl. rewrite Hcalls. auto.
  - inversion Hdef as [|? ? Hcall Hrest]; subst.
    destruct (eager_round_runs c call rest Hidle Hcall) as (c1 & Hrun1 & Hidle1 & Hfl1).
    destruct (IH c1 Hidle1 Hrest) as (c' & Hrun & Hmain & Hfl & Hsig).
    exists c'.
    change (eager_schedule (length (call :: rest)))
      with (eager_round ++ eager_schedule (length rest)).
    rewrite run_schedule_app, Hrun1. split; [exact Hrun|]. split; [exact Hmain|].
    split; [congruence | exact Hsig].
Qed.

(** For any number of calls with known levels, in a logger just switched
    to asynchronous mode with a queue of positive capacity, some
    interleaving lets [Flush] return after every event was dispatched and
    before any binding was flushed. *)
Lemma Flush_can_return_unflushed logger0 (data : list Z) w0 logger w (todo : list LogCall) :
  wait logger0 = 0 ->
  SetAsync logger0 data w0 = Normal logger w ->
  (0 < chan_cap (msgChan logger))%nat ->
  Forall (fun call => levelString (call_level call) <> EmptyString) todo ->
  exists c,
    run_schedule (eager_schedule (length todo)) (async_start logger w todo) = Some c
    /\ cfg_main c = MReturned
    /\ flushes_of (calls (cfg_world c)) = flushes_of (calls w0)
    /\ chan_buf (signalChan (cfg_logger c)) = ["flush"].
Proof.
  intros Hwait0 Hasync Hcap Hdef.
  apply SetAsync_returns in Hasync as (Hsync & _ & Hwait & Hbuf & Hsbuf & Hscap & Hcalls).
  destruct (eager_schedule_runs todo (async_start logger w todo)) as (c & Hrun & Hmain & Hfl & Hsig).
  - unfold idle. simpl. rewrite Hscap. repeat split; auto; lia.
  - exact Hdef.
  - exists c. simpl in Hfl. rewrite Hfl, Hcalls. auto.
Qed.

End AsyncProgress.

(** ** The theorems on the counting adapter *)

Section Instances.

Import Probe.

(** [console_logger] is what [NewLogger] returns in [world]. *)
Lemma NewLogger_on_probe :
  exists w', NewLogger tt world = Normal console_logger w'.
Proof. eexists. vm_compute. reflexivity. Qed.

(** [async_logger] is [console_logger] after [SetAsync()]. *)
Lemma SetAsync_on_probe :
  SetAsync console_logger [] world = Normal async_logger async_world.
Proof. vm_compute. reflexivity. Qed.

(** C1, as stated, fails: the console adapter is registered and the logger
    holds a binding named console; [attach] of console ends the process
    with status 0 and does not return a logger with two bindings. *)
Lemma attach_duplicate_does_not_return :
  adapters world !! "console" = Some (new "console" false)
  /\ map output_Name (outputs console_logger) = ["console"]
  /\ match attach console_logger "console" LoggerLevelDebug tt world with
     | Exited code w' =>
         code = 0
         /\ stdout w' = ["logger: adapter consolealready attached!" +:+ GoStrings.newline]
         /\ calls w' = []
     | _ => False
     end.
Proof. vm_compute. repeat split. Qed.

(** C1 (amended) on the console logger. *)
Lemma attach_duplicate_exits_witness :
  exists w',
    attach console_logger "console" LoggerLevelDebug tt world = Exited 0 w'
    /\ stdout w' = stdout world ++ [("logger: adapter " +:+ "console" +:+ "already attached!")
                                    +:+ GoStrings.newline]
    /\ calls w' = calls world
    /\ stderr w' = stderr world
    /\ adapters w' = adapters world.
Proof.
  apply (attach_duplicate_exits console_logger "console" LoggerLevelDebug tt world).
  exists console_binding. split; [left; reflexivity | reflexivity].
Defined.

(** C2, as stated, fails: a synchronous logger with one binding; [Flush]
    returns without a [Flush] call on that binding. *)
Lemma Flush_synchronous_skips_bindings :
  synchronous console_logger = true
  /\ length (outputs console_logger) = 1%nat
  /\ match Flush console_logger world with
     | Normal logger' w' =>
         flushes_of (calls w') = []
         /\ map (fun o => flushes (output_Adapter o)) (outputs logger') = [0%nat]
     | _ => False
     end.
Proof. vm_compute. repeat split. Qed.

(** C2 (amended) on the console logger. *)
Lemma Flush_synchronous_does_nothing_witness :
  Flush console_logger world = Normal console_logger world.
Proof. apply Flush_synchronous_does_nothing. reflexivity. Defined.

(** C3, as stated, fails: one event, one binding.  Under the schedule
    [early_return] [Flush] has returned, the event is written, the counter
    is zero, and no [Flush] of the binding has been called: the signal is
    still on the signal channel. *)
Lemma Flush_returns_before_bindings_flush :
  match run_schedule early_return (async_start async_logger async_world one_call) with
  | Some c =>
      cfg_main c = MReturned
      /\ wait (cfg_logger c) = 0
      /\ length (outputs (cfg_logger c)) = 1%nat
      /\ map fst (writes_of (calls (cfg_world c))) = [0%nat]
      /\ flushes_of (calls (cfg_world c)) = []
      /\ map (fun o => flushes (output_Adapter o)) (outputs (cfg_logger c)) = [0%nat]
      /\ chan_buf (signalChan (cfg_logger c)) = ["flush"]
  | None => False
  end.
Proof. vm_compute. repeat split. Qed.

(** [early_return] is a run of the two goroutines. *)
Lemma early_return_runs :
  run_schedule early_return (async_start async_logger async_world one_call)
  = Some early_state.
Proof. vm_compute. reflexivity. Qed.

(** C3 (amended) on the run [early_return]. *)
Lemma Flush_returns_after_dispatch_witness :
  wait (cfg_logger early_state) = 0
  /\ chan_buf (msgChan (cfg_logger early_state)) = []
  /\ writes_of (calls (cfg_world early_state))
     = writes_of (calls world)
       ++ flat_map (fun call => map (fun i => (i, call_event call))
                                   (admitted (outputs console_logger) (call_event call)))
                   one_call.
Proof.
  apply (Flush_returns_after_dispatch console_logger [] world async_logger async_world
                                      one_call early_return early_state).
  - reflexivity.
  - exact SetAsync_on_probe.
  - exact early_return_runs.
  - vm_compute. reflexivity.
Defined.

(** A write with threshold Warning: Error (3) is admitted, Notice (5) is not. *)
Example writeToOutputs_on_probe :
  match writeToOutputs failing_logger (build_message env LoggerLevelError "boom") world,
        writeToOutputs failing_logger (build_message env LoggerLevelNotice "note") world with
  | Normal _ w1, Normal _ w2 =>
      map fst (writes_of (calls w1)) = [0%nat; 1%nat]
      /\ map fst (writes_of (calls w2)) = [1%nat]
  | _, _ => False
  end.
Proof. vm_compute. repeat split. Qed.

(** C5 (amended): a template without tokens is returned as it is. *)
Lemma loggerMessageFormat_single_pass_witness :
  loggerMessageFormat "plain text" (build_message env LoggerLevelInfo "hi") = "plain text".
Proof.
  apply (proj1 (proj2 (loggerMessageFormat_single_pass
                         "plain text" (build_message env LoggerLevelInfo "hi")))).
  intros tok val Hin Hocc. apply Contains_occurs in Hocc.
  simpl in Hin.
  repeat (destruct Hin as [Hin | Hin]; [injection Hin as <- _; vm_compute in Hocc; discriminate|]).
  contradiction.
Defined.

(** C7 on a logger with two bindings. *)
Lemma detach_removes_named_witness :
  fst (detach failing_logger "nobody") = failing_logger
  /\ outputs (fst (detach failing_logger "file")) = [console_binding].
Proof.
  split.
  - apply (proj2 (proj2 (proj2 (proj2 (detach_removes_named failing_logger "nobody"))))).
    intros o Hin. simpl in Hin. destruct Hin as [<- | [<- | []]]; discriminate.
  - rewrite (proj1 (detach_removes_named failing_logger "file")). reflexivity.
Defined.

(** The first binding fails its write; the second is still written to, the
    failure is on standard error and [Writer] returns nil. *)
Example Writer_on_failing_probe :
  match Writer env failing_logger LoggerLevelError "boom" world with
  | Normal (logger', err) w' =>
      err = None
      /\ stderr w' = ["logger: unable write loggerMessage to adapter:file, error: disk full"
                      +:+ GoStrings.newline]
      /\ map fst (writes_of (calls w')) = [0%nat; 1%nat]
      /\ map (fun o => writes (output_Adapter o)) (outputs logger') = [1%nat; 1%nat]
  | _ => False
  end.
Proof. vm_compute. repeat split. Qed.

(** C8 on a logger whose first binding fails. *)
Lemma Writer_continues_after_write_error_witness :
  exists logger' w' errs new,
    writeToOutputs failing_logger (build_message env LoggerLevelError "boom") world
    = Normal logger' w'
    /\ stderr w' = stderr world ++ errs
    /\ calls w' = calls world ++ new
    /\ (forall i o e,
           outputs failing_logger !! i = Some o ->
           output_Level o >= Level (build_message env LoggerLevelError "boom") ->
           snd (adapter_Write (output_Adapter o) (build_message env LoggerLevelError "boom"))
           = Some e ->
           In ("logger: unable write loggerMessage to adapter:" +:+ output_Name o
               +:+ ", error: " +:+ e +:+ GoStrings.newline) errs)
    /\ (forall j o,
           outputs failing_logger !! j = Some o ->
           output_Level o >= Level (build_message env LoggerLevelError "boom") ->
           In (CallWrite j (build_message env LoggerLevelError "boom")) new)
    /\ (synchronous failing_logger = true ->
        Writer env failing_logger LoggerLevelError "boom" world = Normal (logger', None) w')
    /\ (forall r w'',
           Writer env failing_logger LoggerLevelError "boom" world = Normal r w'' ->
           snd r = None).
Proof.
  apply (Writer_continues_after_write_error env failing_logger LoggerLevelError "boom" world).
  vm_compute. discriminate.
Defined.

Lemma level_Error_defined : 0 <= LoggerLevelError <= 7.
Proof. unfold LoggerLevelError. lia. Qed.

(** C10 on a synchronous and on an asynchronous logger. *)
Lemma Writer_returns_nil_witness :
  (exists logger' w',
      Writer env failing_logger LoggerLevelError "boom" world = Normal (logger', None) w')
  /\ (exists logger' w',
         Writer env async_logger LoggerLevelError "boom" async_world
         = Normal (logger', None) w').
Proof.
  split.
  - apply (proj1 (proj2 (proj2 (Writer_returns_nil env failing_logger LoggerLevelError
                                                   "boom" world level_Error_defined)))).
    reflexivity.
  - apply (proj2 (proj2 (proj2 (Writer_returns_nil env async_logger LoggerLevelError
                                                   "boom" async_world level_Error_defined)))).
    + reflexivity.
    + unfold async_logger. simpl. lia.
    + unfold async_logger, chan_len. simpl. lia.
Defined.

(** C9 in a process where the console adapter is registered. *)
Lemma NewLogger_console_binding_witness :
  exists w', NewLogger tt world = Normal console_logger w'.
Proof.
  apply (proj2 (NewLogger_console_binding tt world) (new "console" false)
               (new "console" false tt)).
  - vm_compute. reflexivity.
  - reflexivity.
Defined.

(** The assertions of logger_test.go that concern the core. *)
Example TestLogger_LoggerLevel :
  LoggerLevel (fun s => s) "emerGENCY" = LoggerLevelEmergency
  /\ LoggerLevel (fun s => s) "ALERT" = LoggerLevelAlert
  /\ LoggerLevel (fun s => s) "cRITICAL" = LoggerLevelCritical
  /\ LoggerLevel (fun s => s) "DEBUG" = LoggerLevelDebug
  /\ LoggerLevel (fun s => s) "ooox" = LoggerLevelDebug.
Proof. repeat split. Qed.

Example TestLogger_Detach :
  outputs (fst (Detach console_logger "console")) = [].
Proof. reflexivity. Qed.

End Instances.

(** * Further theorems *)

(** * Further properties of the code *)

(** ** The registry and attach *)

Section RegistryFacts.

Context {A Config : Type} `{!LoggerAbstract A Config}.

Implicit Types (w : World A) (logger : Logger A) (outs : list (outputLogger A)).

(** X1. Registering a non-nil factory under a name that is not registered
    returns; afterwards the name is bound to that factory, every other
    name is bound as before, and nothing was printed or called. *)
Theorem Register_then_lookup (adapterName : string) (newLog : adapterLoggerFunc A) w :
  adapters w !! adapterName = None ->
  exists w',
    Register adapterName (Some newLog) w = Normal tt w'
    /\ adapters w' !! adapterName = Some newLog
    /\ (forall other, other <> adapterName -> adapters w' !! other = adapters w !! other)
    /\ stdout w' = stdout w /\ stderr w' = stderr w /\ calls w' = calls w.
Proof.
  intros Hfree. unfold Register. rewrite Hfree. eexists. split; [reflexivity|].
  simpl. split; [apply lookup_insert_eq|]. split; [|auto].
  intros other Hne. now apply lookup_insert_ne.
Qed.

(** X2. [Register] returns exactly when the name is not yet registered and
    the factory is not nil; otherwise it panics, and a panic leaves the
    registry and the rest of the process state as they were: an entry is
    never overwritten. *)
Theorem Register_at_most_once (adapterName : string) (newLog : option (adapterLoggerFunc A)) w :
  ((exists w', Register adapterName newLog w = Normal tt w')
   <-> adapters w !! adapterName = None /\ newLog <> None)
  /\ ((exists v, Register adapterName newLog w = Panicked v w)
      <-> adapters w !! adapterName <> None \/ newLog = None)
  /\ (forall v w', Register adapterName newLog w = Panicked v w' -> w' = w)
  /\ (forall code w', Register adapterName newLog w <> Exited code w')
  /\ (forall w', Register adapterName newLog w <> Blocked w').
Proof.
  unfold Register.
  destruct (adapters w !! adapterName) as [old|], newLog as [f|].
  - split; [|split; [|split; [|split]]]; try discriminate.
    + split; [intros [w' Heq]; discriminate | intros [Hreg _]; discriminate].
    + split; [intros _; left; discriminate | intros _; eauto].
    + intros v w' Heq. now injection Heq as _ <-.
  - split; [|split; [|split; [|split]]]; try discriminate.
    + split; [intros [w' Heq]; discriminate | intros [Hreg _]; discriminate].
    + split; [intros _; now right | intros _; eauto].
    + intros v w' Heq. now injection Heq as _ <-.
  - split; [|split; [|split; [|split]]]; try discriminate.
    + split; [intros _; split; [reflexivity | discriminate] | intros _; eauto].
    + split; [intros [v Heq]; discriminate | intros [Hreg | Hnil]; congruence].
  - split; [|split; [|split; [|split]]]; try discriminate.
    + split; [intros [w' Heq]; discriminate | intros [_ Hnil]; congruence].
    + split; [intros _; now right | intros _; eauto].
    + intros v w' Heq. now injection Heq as _ <-.
Qed.

Lemma fresh_or_duplicate (adapterName : string) outs :
  (forall o, In o outs -> output_Name o <> adapterName)
  \/ (exists o, In o outs /\ output_Name o = adapterName).
Proof.
  induction outs as [|o rest [IH | (o' & Hin & Hname)]].
  - left. intros o [].
  - destruct (String.eqb (output_Name o) adapterName) eqn:Heq.
    + right. apply String.eqb_eq in Heq. exists o. split; [now left | exact Heq].
    + left. apply String.eqb_neq in Heq. intros o' [<- | Hin]; [exact Heq | now apply IH].
  - right. exists o'. split; [now right | exact Hname].
Qed.

(** X3. [attach] of a name no binding has and that is not registered prints
    the is-nil message and ends the process with status 0: no factory is
    called and nothing is attached. *)
Theorem attach_unregistered_exits logger (adapterName : string) (level : Z)
        (config : Config) w :
  (forall o, In o (outputs logger) -> output_Name o <> adapterName) ->
  adapters w !! adapterName = None ->
  exists w',
    attach logger adapterName level config w = Exited 0 w'
    /\ stdout w' = stdout w ++ [("logger: adapter " +:+ adapterName +:+ "is nil!")
                                +:+ GoStrings.newline]
    /\ calls w' = calls w
    /\ stderr w' = stderr w
    /\ adapters w' = adapters w.
Proof.
  intros Hfresh Hnone. eexists. split.
  - unfold attach. unfold bind at 1. rewrite (attach_scan_fresh _ _ _ Hfresh).
    unfold bind at 1. unfold lookup_adapter. rewrite Hnone.
    unfold bind, printError, Println, os_Exit. reflexivity.
  - simpl. auto.
Qed.

(** X4. When the adapter's [Init] returns an error, [attach] prints the
    init-failed message with the text of the error and ends the process
    with status 0, after the factory and [Init] were called: no binding is
    added. *)
Theorem attach_init_failure_exits logger (adapterName : string) (level : Z)
        (config : Config) w (logFun : adapterLoggerFunc A) (adapterLog : A) (e : string) :
  (forall o, In o (outputs logger) -> output_Name o <> adapterName) ->
  adapters w !! adapterName = Some logFun ->
  adapter_Init (logFun tt) config = (adapterLog, Some e) ->
  exists w',
    attach logger adapterName level config w = Exited 0 w'
    /\ stdout w' = stdout w ++ [("logger: adapter " +:+ adapterName
                                 +:+ " init failed, error: " +:+ e) +:+ GoStrings.newline]
    /\ calls w' = calls w ++ [CallInit adapterName]
    /\ stderr w' = stderr w
    /\ adapters w' = adapters w.
Proof.
  intros Hfresh Hreg Hinit. eexists. split.
  - unfold attach. unfold bind at 1. rewrite (attach_scan_fresh _ _ _ Hfresh).
    unfold bind at 1. unfold lookup_adapter. rewrite Hreg.
    unfold bind at 1. unfold record_call. rewrite Hinit.
    unfold bind, printError, Println, os_Exit. reflexivity.
  - simpl. auto.
Qed.

(** What a returning [attach] has done. *)
Lemma attach_run logger (adapterName : string) (level : Z) (config : Config) w r w' :
  attach logger adapterName level config w = Normal r w' ->
  (forall o, In o (outputs logger) -> output_Name o <> adapterName)
  /\ exists logFun adapterLog,
       adapters w !! adapterName = Some logFun
       /\ adapter_Init (logFun tt) config = (adapterLog, None)
       /\ r = (set_outputs logger
                 (outputs logger ++ [{| output_Name := adapterName; output_Level := level;
                                        output_Adapter := adapterLog |}]), None)
       /\ world_extends w w' [] [CallInit adapterName].
Proof.
  intros Hrun.
  assert (Hfresh : forall o, In o (outputs logger) -> output_Name o <> adapterName).
  { destruct (fresh_or_duplicate adapterName (outputs logger)) as [Hf | Hd]; [exact Hf|].
    destruct (attach_scan_duplicate adapterName (outputs logger) w Hd) as (w1 & Hex & _).
    unfold attach in Hrun. unfold bind at 1 in Hrun. rewrite Hex in Hrun. discriminate. }
  split; [exact Hfresh|].
  revert Hrun. unfold attach. unfold bind at 1.
  rewrite (attach_scan_fresh _ _ _ Hfresh).
  unfold bind at 1. unfold lookup_adapter.
  destruct (adapters w !! adapterName) as [logFun|]; [|discriminate].
  unfold bind at 1. unfold record_call.
  destruct (adapter_Init (logFun tt) config) as [adapterLog [e|]] eqn:Hinit; [discriminate|].
  simpl. intros Heq. injection Heq as <- <-.
  exists logFun, adapterLog. split; [reflexivity|]. split; [exact Hinit|].
  split; [reflexivity|]. unfold world_extends. simpl. now rewrite app_nil_r.
Qed.

(** X5. [attach] returns exactly when no binding has the name, the name is
    registered and [Init] succeeds; it then returns nil and the logger
    with the new binding, carrying the given name and level, added after
    the existing ones, which are kept as they are. *)
Theorem attach_appends_binding logger (adapterName : string) (level : Z) (config : Config) w :
  ((exists r w', attach logger adapterName level config w = Normal r w')
   <-> (forall o, In o (outputs logger) -> output_Name o <> adapterName)
       /\ exists logFun, adapters w !! adapterName = Some logFun
                         /\ snd (adapter_Init (logFun tt) config) = None)
  /\ (forall r w',
         attach logger adapterName level config w = Normal r w' ->
         snd r = None
         /\ (exists adapterLog,
               outputs (fst r)
               = outputs logger ++ [{| output_Name := adapterName; output_Level := level;
                                       output_Adapter := adapterLog |}])
         /\ msgChan (fst r) = msgChan logger
         /\ synchronous (fst r) = synchronous logger
         /\ wait (fst r) = wait logger
         /\ signalChan (fst r) = signalChan logger
         /\ calls w' = calls w ++ [CallInit adapterName]
         /\ stdout w' = stdout w).
Proof.
  split.
  - split.
    + intros (r & w' & Hrun).
      apply attach_run in Hrun as (Hfresh & logFun & adapterLog & Hreg & Hinit & _).
      split; [exact Hfresh|]. exists logFun. now rewrite Hinit.
    + intros (Hfresh & logFun & Hreg & Hinit).
      destruct (adapter_Init (logFun tt) config) as [adapterLog err] eqn:Hi.
      simpl in Hinit. subst err.
      destruct (attach_fresh logger adapterName level config w logFun adapterLog
                             Hfresh Hreg Hi) as (w' & Hrun & _).
      eauto.
  - intros r w' Hrun.
    apply attach_run in Hrun as (_ & logFun & adapterLog & _ & _ & -> & Hext).
    destruct Hext as (_ & Hout & _ & Hcalls & _). simpl.
    split; [reflexivity|]. split; [now exists adapterLog | auto 10].
Qed.

Lemma detach_filter logger (adapterName : string) :
  fst (detach logger adapterName)
  = set_outputs logger
      (List.filter (fun output => negb (String.eqb (output_Name output) adapterName))
                   (outputs logger)).
Proof. unfold detach. simpl. now rewrite detach_loop. Qed.

Lemma set_outputs_same logger : set_outputs logger (outputs logger) = logger.
Proof. now destruct logger. Qed.

Lemma set_outputs_twice logger outs1 outs2 :
  set_outputs (set_outputs logger outs1) outs2 = set_outputs logger outs2.
Proof. reflexivity. Qed.

(** X6. [detach] undoes [attach]: when [attach] of a name returns,
    detaching that name from the logger it returned gives back the logger
    as it was before. *)
Theorem attach_then_detach logger (adapterName : string) (level : Z) (config : Config)
        w r w' :
  attach logger adapterName level config w = Normal r w' ->
  fst (detach (fst r) adapterName) = logger.
Proof.
  intros Hrun.
  apply attach_run in Hrun as (Hfresh & logFun & adapterLog & _ & _ & -> & _).
  rewrite detach_filter. simpl. rewrite set_outputs_twice, List.filter_app. simpl.
  rewrite String.eqb_refl. simpl. rewrite app_nil_r.
  rewrite filter_keeps_all; [apply set_outputs_same|].
  intros o Hin. apply negb_true_iff, String.eqb_neq. now apply Hfresh.
Qed.

Lemma filter_filter_comm {X : Type} (p q : X -> bool) (l : list X) :
  List.filter p (List.filter q l) = List.filter q (List.filter p l).
Proof.
  induction l as [|x rest IH]; simpl; [reflexivity|].
  destruct (p x) eqn:Hp, (q x) eqn:Hq; simpl; rewrite ?Hp, ?Hq, IH; reflexivity.
Qed.

Lemma filter_idempotent {X : Type} (p : X -> bool) (l : list X) :
  List.filter p (List.filter p l) = List.filter p l.
Proof.
  induction l as [|x rest IH]; simpl; [reflexivity|].
  destruct (p x) eqn:Hp; simpl; rewrite ?Hp, IH; reflexivity.
Qed.

(** X7. Detaching a name twice is detaching it once, and detaching two
    names gives the same logger whichever is detached first. *)
Theorem detach_idempotent_and_commutes logger (name1 name2 : string) :
  fst (detach (fst (detach logger name1)) name1) = fst (detach logger name1)
  /\ fst (detach (fst (detach logger name1)) name2)
     = fst (detach (fst (detach logger name2)) name1).
Proof.
  rewrite !detach_filter. simpl. rewrite !set_outputs_twice. split.
  - now rewrite filter_idempotent.
  - now rewrite filter_filter_comm.
Qed.

(** X8. The logger [NewLogger] returns can be given a console binding of
    the caller's own only after the default one is detached, as
    _example does: [Detach] of console followed by [Attach] of console
    returns a synchronous logger whose single binding is the new one. *)
Theorem console_reattach_after_detach
        (ConsoleConfig_zero : Config) w logger w1 (level : Z) (config : Config)
        (newConsole : adapterLoggerFunc A) (adapterLog : A) :
  NewLogger ConsoleConfig_zero w = Normal logger w1 ->
  adapters w !! "console" = Some newConsole ->
  adapter_Init (newConsole tt) config = (adapterLog, None) ->
  exists w2,
    Attach (fst (Detach logger "console")) "console" level config w1
    = Normal ({| outputs := [{| output_Name := "console"; output_Level := level;
                                output_Adapter := adapterLog |}];
                 msgChan := make_chan 10; synchronous := true; wait := 0;
                 signalChan := make_chan 1 |}, None) w2.
Proof.
  intros Hnew Hreg Hinit. unfold NewLogger in Hnew; cbv zeta in Hnew.
  unfold bind in Hnew.
  destruct (attach _ "console" LoggerLevelDebug ConsoleConfig_zero w)
    as [r w0 | | |] eqn:Hatt; try discriminate.
  unfold ret in Hnew. injection Hnew as <- <-.
  apply attach_run in Hatt as (_ & logFun & adapterLog0 & _ & _ & -> & Hext).
  destruct Hext as (Hadapters & _).
  unfold Attach, Detach. rewrite detach_filter. cbn [fst set_outputs outputs app].
  simpl List.filter.
  match goal with
  | |- context [attach ?l _ _ _ _] =>
      destruct (attach_fresh l "console" level config w0 newConsole adapterLog)
        as (w2 & Hrun & _); [intros o [] | now rewrite Hadapters | exact Hinit |]
  end.
  exists w2. exact Hrun.
Qed.

End RegistryFacts.

(** ** Levels, events and Writer *)

Section LevelFacts.

Variable unicode_upper : string -> string.

Lemma levelString_undefined (level : Z) :
  ~ 0 <= level <= 7 -> levelString level = EmptyString.
Proof.
  intros Hout. unfold levelString.
  assert (Hnone : levelStringMapping !! level = None); [|now rewrite Hnone].
  unfold levelStringMapping. apply not_elem_of_list_to_map_1.
  unfold LoggerLevelEmergency, LoggerLevelAlert, LoggerLevelCritical, LoggerLevelError,
    LoggerLevelWarning, LoggerLevelNotice, LoggerLevelInfo, LoggerLevelDebug.
  simpl. rewrite !elem_of_cons, elem_of_nil. lia.
Qed.

(** X9. A level has a name exactly when it is one of the eight levels
    0 to 7; every other number reads as the empty string. *)
Theorem levelString_defined_iff (level : Z) :
  (levelString level <> EmptyString <-> 0 <= level <= 7)
  /\ (levelString level = EmptyString <-> ~ 0 <= level <= 7).
Proof.
  assert (Hdec : 0 <= level <= 7 \/ ~ 0 <= level <= 7) by lia.
  destruct Hdec as [Hin | Hout].
  - pose proof (levelString_defined level Hin). split; split; tauto.
  - pose proof (levelString_undefined level Hout) as Hnone. split; split; tauto.
Qed.

(** X10. Parsing the name of a level gives the level back. *)
Theorem LoggerLevel_of_levelString (level : Z) :
  0 <= level <= 7 -> LoggerLevel unicode_upper (levelString level) = level.
Proof.
  intros Hrange.
  assert (Hcases : level = 0 \/ level = 1 \/ level = 2 \/ level = 3
                   \/ level = 4 \/ level = 5 \/ level = 6 \/ level = 7) by lia.
  repeat (destruct Hcases as [-> | Hcases]; [vm_compute; reflexivity|]).
  subst. vm_compute. reflexivity.
Qed.

Lemma LoggerLevel_range (levelStr : string) :
  0 <= LoggerLevel unicode_upper levelStr <= 7.
Proof.
  unfold LoggerLevel; cbv zeta.
  repeat (match goal with
          | |- context [String.eqb ?a ?b] => destruct (String.eqb a b)
          end; [vm_compute; split; discriminate|]).
  vm_compute; split; discriminate.
Qed.

End LevelFacts.

Section WriterFacts.

Context {A Config : Type} `{!LoggerAbstract A Config}.

Implicit Types (w : World A) (logger : Logger A) (outs : list (outputLogger A)).

Lemma Writer_never_exits_defined env logger level msg w code w' :
  levelString level <> EmptyString ->
  Writer env logger level msg w <> Exited code w'.
Proof.
  intros Hdef. destruct (synchronous logger) eqn:Hsync.
  - destruct (Writer_synchronous env logger level msg w Hsync Hdef) as (w1 & Hrun & _).
    rewrite Hrun. discriminate.
  - rewrite (Writer_asynchronous env logger level msg w Hsync Hdef).
    destruct (wait_Add_cases logger 1 w) as [(_ & v & ->) | (_ & counted & -> & _)];
      [discriminate|].
    destruct (chan_send _ _); discriminate.
Qed.

(** X11. Whatever string [LoggerLevel] is given, the level it returns is
    one of the eight levels, so [Writer] called with it never ends the
    process and returns nil whenever it returns. *)
Theorem LoggerLevel_is_accepted_by_Writer
        (unicode_upper : string -> string) (levelStr : string) env logger msg w :
  0 <= LoggerLevel unicode_upper levelStr <= 7
  /\ (forall code w',
         Writer env logger (LoggerLevel unicode_upper levelStr) msg w <> Exited code w')
  /\ (forall r w',
         Writer env logger (LoggerLevel unicode_upper levelStr) msg w = Normal r w' ->
         snd r = None).
Proof.
  pose proof (LoggerLevel_range unicode_upper levelStr) as Hrange.
  pose proof (levelString_defined _ Hrange) as Hdef.
  split; [exact Hrange|]. split.
  - intros code w'. now apply Writer_never_exits_defined.
  - intros r w'. now apply Writer_nil_when_it_returns.
Qed.

(** X12. [Writer] with a number that is not one of the eight levels prints
    the illegal-level message and ends the process with status 0, in
    either mode: no adapter is called, nothing is queued or counted. *)
Theorem Writer_unknown_level_exits env logger (level : Z) (msg : string) w :
  ~ 0 <= level <= 7 ->
  exists w',
    Writer env logger level msg w = Exited 0 w'
    /\ stdout w' = stdout w ++ [("logger: level " +:+ GoStrings.Itoa level +:+ " is illegal!")
                                +:+ GoStrings.newline]
    /\ stderr w' = stderr w
    /\ calls w' = calls w.
Proof.
  intros Hout. pose proof (levelString_undefined level Hout) as Hnone.
  eexists. split.
  - unfold Writer, bind, check_level. rewrite Hnone. reflexivity.
  - simpl. auto.
Qed.

(** X13. In asynchronous mode [Writer] with one of the eight levels calls
    no adapter and prints nothing: when the queue has room it adds one to
    the counter, puts the event at the back of the queue and returns nil;
    when the queue is full (always, for a queue of capacity 0 with no
    receiver) it parks. *)
Theorem Writer_asynchronous_enqueues env logger (level : Z) (msg : string) w :
  synchronous logger = false -> 0 <= level <= 7 -> 0 <= wait logger ->
  ((chan_len (msgChan logger) < chan_cap (msgChan logger))%nat ->
   exists logger',
     Writer env logger level msg w = Normal (logger', None) w
     /\ chan_buf (msgChan logger')
        = chan_buf (msgChan logger) ++ [build_message env level msg]
     /\ chan_cap (msgChan logger') = chan_cap (msgChan logger)
     /\ wait logger' = wait logger + 1
     /\ outputs logger' = outputs logger
     /\ synchronous logger' = false
     /\ signalChan logger' = signalChan logger)
  /\ ((chan_cap (msgChan logger) <= chan_len (msgChan logger))%nat ->
      Writer env logger level msg w = Blocked w).
Proof.
  intros Hsync Hrange Hwait. pose proof (levelString_defined level Hrange) as Hdef.
  rewrite (Writer_asynchronous env logger level msg w Hsync Hdef).
  destruct (wait_Add_cases logger 1 w)
    as [(Hneg & _) | (_ & counted & -> & Ho & Hq & Hs & Hw & Hsig)]; [lia|].
  unfold chan_send. rewrite Hq. split.
  - intros Hroom. apply Nat.ltb_lt in Hroom. rewrite Hroom.
    eexists. split; [reflexivity|]. simpl. rewrite Ho, Hs, Hw, Hsig, Hsync. auto 10.
  - intros Hfull. apply Nat.ltb_ge in Hfull. now rewrite Hfull.
Qed.

End WriterFacts.

(** ** The event Writer builds and the default template *)

Section EventFacts.

Import GoStrings.

Lemma path_Split_file_no_slash (p : string) :
  Contains p "/" = false -> path_Split_file p = p.
Proof.
  intros Hno. destruct p as [|c p]; [reflexivity|].
  cbn [path_Split_file]. now rewrite Hno.
Qed.

Lemma path_Split_file_clean (p : string) : Contains (path_Split_file p) "/" = false.
Proof.
  induction p as [|c p IH]; [reflexivity|].
  cbn [path_Split_file]. destruct (Contains (String c p) "/") eqn:Hc; [exact IH | exact Hc].
Qed.

Lemma Contains_append_r (dir s sub : string) :
  Contains s sub = true -> Contains (dir +:+ s) sub = true.
Proof.
  intros Hc. induction dir as [|c dir IH]; [exact Hc|].
  rewrite append_cons, Contains_cons, IH. apply orb_true_r.
Qed.

Lemma prefix_nil (s : string) : String.prefix EmptyString s = true.
Proof. now destruct s. Qed.

Lemma path_Split_file_base (dir base : string) :
  Contains base "/" = false -> path_Split_file (dir +:+ "/" +:+ base) = base.
Proof.
  intros Hbase. induction dir as [|c dir IH].
  - rewrite append_nil_l, append_cons, append_nil_l. cbn [path_Split_file].
    rewrite Contains_cons. cbn [String.prefix]. rewrite prefix_nil.
    destruct (ascii_dec "/" "/") as [_ | Hne]; [|now elim Hne].
    now apply path_Split_file_no_slash.
  - rewrite append_cons. cbn [path_Split_file].
    rewrite Contains_cons, (Contains_append_r dir ("/" +:+ base) "/"), orb_true_r;
      [exact IH|].
    rewrite append_cons, Contains_cons. cbn [String.prefix]. rewrite prefix_nil.
    now destruct (ascii_dec "/" "/") as [_ | Hne]; [|elim Hne].
Qed.

(** X14. The file of the event [Writer] builds is the caller's file name
    without its directories: it never contains a slash, and it is what
    follows the last slash of the path; when the caller is unknown, file
    and function are the word null and the line is 0. *)
Theorem build_message_provenance (env : CallEnv) (level : Z) (msg : string) :
  Contains (File (build_message env level msg)) "/" = false
  /\ (env_caller env = None ->
      File (build_message env level msg) = "null"
      /\ Function (build_message env level msg) = "null"
      /\ Line (build_message env level msg) = 0)
  /\ (forall funcName dir base line,
         env_caller env = Some (funcName, dir +:+ "/" +:+ base, line) ->
         Contains base "/" = false ->
         File (build_message env level msg) = base
         /\ Function (build_message env level msg) = funcName
         /\ Line (build_message env level msg) = line)
  /\ Level (build_message env level msg) = level
  /\ LevelString (build_message env level msg) = levelString level
  /\ Body (build_message env level msg) = msg.
Proof.
  unfold build_message.
  destruct (env_caller env) as [[[funcName file] line]|]; simpl.
  - split; [apply path_Split_file_clean|]. split; [discriminate|]. split; [|auto].
    intros f dir base l Heq Hbase. injection Heq as -> -> ->.
    split; [now apply path_Split_file_base | auto].
  - split; [reflexivity|]. split; [auto|]. split; [discriminate | auto].
Qed.

Lemma Contains_percent_cons (c : ascii) (p : string) :
  Contains (String c p) "%" = false -> c <> "%"%char /\ Contains p "%" = false.
Proof.
  rewrite Contains_cons. intros Hc. apply orb_false_iff in Hc as [Hp Hrest].
  split; [|exact Hrest]. intros ->. cbn [String.prefix] in Hp.
  rewrite prefix_nil in Hp. now destruct (ascii_dec "%" "%") as [_ | Hne]; [|elim Hne].
Qed.

(** A replacement of a token that begins with a percent sign passes over a
    prefix without percent signs. *)
Lemma Replace1_clean_prefix (p s t new : string) :
  Contains p "%" = false ->
  Replace1 (p +:+ s) (String "%" t) new = p +:+ Replace1 s (String "%" t) new.
Proof.
  induction p as [|c p IH]; intros Hclean; [reflexivity|].
  apply Contains_percent_cons in Hclean as [Hc Hp].
  rewrite !append_cons, Replace1_cons. cbn [String.prefix].
  destruct (ascii_dec "%" c) as [Heq | _]; [now elim Hc|].
  f_equal. now apply IH.
Qed.

(** X15. The default template renders an event as its millisecond time,
    its level name in brackets and its body, whatever the body contains,
    when the time and the level name contain no percent sign (as those
    [Writer] writes do). *)
Theorem default_format_renders (loggerMsg : loggerMessage) :
  Contains (MillisecondFormat loggerMsg) "%" = false ->
  Contains (LevelString loggerMsg) "%" = false ->
  loggerMessageFormat defaultLoggerMessageFormat loggerMsg
  = MillisecondFormat loggerMsg +:+ " [" +:+ LevelString loggerMsg +:+ "] "
    +:+ Body loggerMsg.
Proof.
  intros Htime Hname. unfold loggerMessageFormat, defaultLoggerMessageFormat; cbv zeta.
  rewrite (Replace1_not_Contains _ "%timestamp%") by reflexivity.
  rewrite (Replace1_not_Contains _ "%timestamp_format%") by reflexivity.
  rewrite (Replace1_not_Contains _ "%millisecond%") by reflexivity.
  rewrite (Replace1_prefix _ "%millisecond_format%") by reflexivity.
  change (drop (String.length "%millisecond_format%")
               "%millisecond_format% [%level_string%] %body%")
    with (" [%level_string%] %body%").
  rewrite (Replace1_clean_prefix _ _ "level%") by exact Htime.
  rewrite (Replace1_not_Contains " [%level_string%] %body%" "%level%") by reflexivity.
  rewrite (Replace1_clean_prefix _ _ "level_string%") by exact Htime.
  change " [%level_string%] %body%" with (" [" +:+ "%level_string%] %body%").
  rewrite (Replace1_clean_prefix " [" _ "level_string%") by reflexivity.
  rewrite (Replace1_prefix "%level_string%] %body%" "%level_string%") by reflexivity.
  change (drop (String.length "%level_string%") "%level_string%] %body%")
    with ("] %body%").
  rewrite (Replace1_clean_prefix _ _ "file%") by exact Htime.
  rewrite (Replace1_clean_prefix " [" _ "file%") by reflexivity.
  rewrite (Replace1_clean_prefix _ _ "file%") by exact Hname.
  rewrite (Replace1_not_Contains "] %body%" "%file%") by reflexivity.
  rewrite (Replace1_clean_prefix _ _ "line%") by exact Htime.
  rewrite (Replace1_clean_prefix " [" _ "line%") by reflexivity.
  rewrite (Replace1_clean_prefix _ _ "line%") by exact Hname.
  rewrite (Replace1_not_Contains "] %body%" "%line%") by reflexivity.
  rewrite (Replace1_clean_prefix _ _ "function%") by exact Htime.
  rewrite (Replace1_clean_prefix " [" _ "function%") by reflexivity.
  rewrite (Replace1_clean_prefix _ _ "function%") by exact Hname.
  rewrite (Replace1_not_Contains "] %body%" "%function%") by reflexivity.
  rewrite (Replace1_clean_prefix _ _ "body%") by exact Htime.
  rewrite (Replace1_clean_prefix " [" _ "body%") by reflexivity.
  rewrite (Replace1_clean_prefix _ _ "body%") by exact Hname.
  change "] %body%" with ("] " +:+ "%body%").
  rewrite (Replace1_clean_prefix "] " _ "body%") by reflexivity.
  rewrite (Replace1_prefix "%body%" "%body%") by reflexivity.
  change (drop (String.length "%body%") "%body%") with EmptyString.
  now rewrite append_nil_r.
Qed.

End EventFacts.

(** ** Dispatch, the delivery mode and flush *)

Section ModeFacts.

Context {A Config : Type} `{!LoggerAbstract A Config}.

Implicit Types (w : World A) (logger : Logger A) (outs : list (outputLogger A)).

Lemma written_names outs loggerMsg :
  map output_Name (map (fun o => write_result o loggerMsg) outs) = map output_Name outs.
Proof.
  rewrite map_map. apply map_ext. intros o. unfold write_result.
  now destruct (admits o loggerMsg).
Qed.

(** X16. Dispatch changes no binding's name or threshold and attaches or
    detaches nothing; a binding that does not admit the event is left
    exactly as it was, an admitting one holds the adapter its [Write]
    left; the queue, the mode, the counter, the registry and standard
    output are untouched. *)
Theorem writeToOutputs_keeps_bindings logger loggerMsg w logger' w' :
  writeToOutputs logger loggerMsg w = Normal logger' w' ->
  map output_Name (outputs logger') = map output_Name (outputs logger)
  /\ map output_Level (outputs logger') = map output_Level (outputs logger)
  /\ (forall i o, outputs logger !! i = Some o ->
                  output_Level o < Level loggerMsg ->
                  outputs logger' !! i = Some o)
  /\ (forall i o, outputs logger !! i = Some o ->
                  output_Level o >= Level loggerMsg ->
                  outputs logger' !! i
                  = Some {| output_Name := output_Name o; output_Level := output_Level o;
                            output_Adapter :=
                              fst (adapter_Write (output_Adapter o) loggerMsg) |})
  /\ msgChan logger' = msgChan logger
  /\ synchronous logger' = synchronous logger
  /\ wait logger' = wait logger
  /\ signalChan logger' = signalChan logger
  /\ adapters w' = adapters w
  /\ stdout w' = stdout w.
Proof.
  destruct (writeToOutputs_run logger loggerMsg w) as (w1 & Hrun & Hext).
  rewrite Hrun. intros Heq. injection Heq as <- <-.
  destruct Hext as (Ha & Ho & _). simpl.
  split; [apply written_names|]. split; [apply written_levels|].
  split; [|split; [|auto 10]].
  - intros i o Hl Hlt. rewrite list_lookup_fmap, Hl. simpl. f_equal.
    unfold write_result, admits.
    destruct (output_Level o >=? Level loggerMsg) eqn:Hge; [|reflexivity].
    apply Z.geb_le in Hge. lia.
  - intros i o Hl Hge. rewrite list_lookup_fmap, Hl. simpl. f_equal.
    unfold write_result, admits. apply Z.ge_le in Hge. apply Z.geb_le in Hge.
    now rewrite Hge.
Qed.

Lemma Writer_asynchronous_run env logger level msg w r w' :
  synchronous logger = false ->
  Writer env logger level msg w = Normal r w' ->
  w' = w
  /\ snd r = None
  /\ outputs (fst r) = outputs logger
  /\ synchronous (fst r) = false
  /\ wait (fst r) = wait logger + 1
  /\ chan_buf (msgChan (fst r)) = chan_buf (msgChan logger) ++ [build_message env level msg]
  /\ chan_cap (msgChan (fst r)) = chan_cap (msgChan logger)
  /\ signalChan (fst r) = signalChan logger.
Proof.
  intros Hsync. unfold Writer, bind.
  destruct (check_level_cases (A:=A) level w) as [-> | [w1 ->]]; [|discriminate].
  rewrite Hsync. cbn [negb].
  destruct (wait_Add_cases logger 1 w)
    as [(_ & v & ->) | (_ & counted & -> & Ho & Hq & Hs & Hw & Hsig)]; [discriminate|].
  unfold chan_send. rewrite Hq.
  destruct (chan_len (msgChan logger) <? chan_cap (msgChan logger))%nat; [|discriminate].
  unfold ret. intros Heq. injection Heq as <- <-. simpl.
  rewrite Ho, Hs, Hw, Hsig, Hsync. auto 10.
Qed.

Lemma Writer_synchronous_run env logger level msg w r w' :
  synchronous logger = true ->
  Writer env logger level msg w = Normal r w' ->
  writeToOutputs logger (build_message env level msg) w = Normal (fst r) w'
  /\ snd r = None.
Proof.
  intros Hsync. unfold Writer, bind.
  destruct (check_level_cases (A:=A) level w) as [-> | [w1 ->]]; [|discriminate].
  rewrite Hsync. cbn [negb].
  destruct (writeToOutputs logger (build_message env level msg) w)
    as [written w1 | | |]; try discriminate.
  unfold ret. intros Heq. injection Heq as <- <-. auto.
Qed.

Lemma Flush_asynchronous_run logger w logger' w' :
  synchronous logger = false ->
  Flush logger w = Normal logger' w' ->
  w' = w /\ wait logger = 0
  /\ logger' = set_signalChan logger
                 {| chan_buf := chan_buf (signalChan logger) ++ ["flush"];
                    chan_cap := chan_cap (signalChan logger) |}.
Proof.
  intros Hsync. unfold Flush. rewrite Hsync. cbn [negb]. unfold chan_send.
  destruct (chan_len (signalChan logger) <? chan_cap (signalChan logger))%nat;
    [|discriminate].
  cbn [wait set_signalChan].
  destruct (wait logger =? 0) eqn:Hzero; [|discriminate].
  unfold ret. intros Heq. injection Heq as <- <-. apply Z.eqb_eq in Hzero. auto.
Qed.

(** X17. No method of the logger leads back to synchronous mode: whatever
    call returns on an asynchronous logger, the logger it leaves is
    asynchronous. *)
Theorem asynchronous_mode_is_final (op : Op Config) logger w logger' w' :
  synchronous logger = false ->
  run_op op logger w = Normal logger' w' ->
  synchronous logger' = false.
Proof.
  intros Hsync. destruct op as [adapterName level config | adapterName | data
                                | env level msg | ]; cbn [run_op]; unfold bind, ret.
  - destruct (Attach logger adapterName level config w) as [r w1 | | |] eqn:Hrun;
      try discriminate.
    intros Heq. injection Heq as <- _.
    apply attach_run in Hrun as (_ & logFun & adapterLog & _ & _ & -> & _). exact Hsync.
  - intros Heq. injection Heq as <- _. exact Hsync.
  - intros Hrun. now apply SetAsync_returns in Hrun as (Hs & _).
  - destruct (Writer env logger level msg w) as [r w1 | | |] eqn:Hrun; try discriminate.
    intros Heq. injection Heq as <- _.
    now apply (Writer_asynchronous_run _ _ _ _ _ _ _ Hsync) in Hrun as (_ & _ & _ & Hs & _).
  - intros Hrun. apply (Flush_asynchronous_run _ _ _ _ Hsync) in Hrun as (_ & _ & ->).
    exact Hsync.
Qed.

(** X18. In synchronous mode nothing is queued or counted: every call
    other than [SetAsync] that returns leaves the logger synchronous, with
    the queue, the signal channel and the counter as they were. *)
Theorem synchronous_mode_uses_no_queue (op : Op Config) logger w logger' w' :
  synchronous logger = true ->
  (forall data, op <> OpSetAsync data) ->
  run_op op logger w = Normal logger' w' ->
  synchronous logger' = true
  /\ msgChan logger' = msgChan logger
  /\ signalChan logger' = signalChan logger
  /\ wait logger' = wait logger.
Proof.
  intros Hsync Hop. destruct op as [adapterName level config | adapterName | data
                                    | env level msg | ]; cbn [run_op]; unfold bind, ret.
  - destruct (Attach logger adapterName level config w) as [r w1 | | |] eqn:Hrun;
      try discriminate.
    intros Heq. injection Heq as <- _.
    apply attach_run in Hrun as (_ & logFun & adapterLog & _ & _ & -> & _). auto.
  - intros Heq. injection Heq as <- _. auto.
  - now elim (Hop data).
  - destruct (Writer env logger level msg w) as [r w1 | | |] eqn:Hrun; try discriminate.
    intros Heq. injection Heq as <- _.
    apply (Writer_synchronous_run _ _ _ _ _ _ _ Hsync) in Hrun as (Hrun & _).
    destruct (writeToOutputs_run logger (build_message env level msg) w) as (w2 & Hrun' & _).
    rewrite Hrun' in Hrun. injection Hrun as <- _. auto.
  - unfold Flush. rewrite Hsync. cbn [negb]. rewrite (flush_synchronous logger w Hsync).
    intros Heq. now injection Heq as <- _.
Qed.

End ModeFacts.

(** ** Sequences of calls, and flush run on its own *)

Section SequentialFacts.

Context {A Config : Type} `{!LoggerAbstract A Config}.

Implicit Types (w : World A) (logger : Logger A) (outs : list (outputLogger A)).

Lemma dispatched_cons (thresholds : list Z) loggerMsg (events : list loggerMessage) :
  dispatched thresholds (loggerMsg :: events)
  = map (fun i => (i, loggerMsg)) (admitted_from 0 thresholds (Level loggerMsg))
    ++ dispatched thresholds events.
Proof. reflexivity. Qed.

(** X19. Synchronous logging composes: a sequence of [Writer] calls with
    known levels on a synchronous logger returns, and the writes it makes
    are those of the first event on every binding that admits it, then
    those of the second, and so on, in call order and binding order; no
    binding is flushed, attached or detached, and the counter and the
    queue are untouched. *)
Theorem log_calls_synchronous (todo : list LogCall) logger w :
  synchronous logger = true ->
  Forall (fun call => levelString (call_level call) <> EmptyString) todo ->
  exists logger' w',
    log_calls todo logger w = Normal logger' w'
    /\ writes_of (calls w')
       = writes_of (calls w)
         ++ dispatched (map output_Level (outputs logger)) (map call_event todo)
    /\ flushes_of (calls w') = flushes_of (calls w)
    /\ map output_Name (outputs logger') = map output_Name (outputs logger)
    /\ map output_Level (outputs logger') = map output_Level (outputs logger)
    /\ synchronous logger' = true
    /\ wait logger' = wait logger
    /\ msgChan logger' = msgChan logger.
Proof.
  intros Hsync Hdef. revert logger w Hsync.
  induction Hdef as [|call rest Hcall Hrest IH]; intros logger w Hsync.
  - exists logger, w. simpl. unfold ret, dispatched. simpl. rewrite app_nil_r. auto 10.
  - destruct (Writer_synchronous (call_env call) logger (call_level call) (call_msg call) w
                                 Hsync Hcall) as (w1 & Hrun & Hext).
    cbn [log_calls]. unfold bind. rewrite Hrun. cbn [fst].
    destruct (IH (set_outputs logger
                    (map (fun o => write_result o (call_event call)) (outputs logger))) w1)
      as (logger' & w' & Hrest' & Hwr & Hfl & Hn & Hl & Hs & Hw & Hq); [exact Hsync|].
    exists logger', w'. split; [exact Hrest'|].
    destruct Hext as (_ & _ & _ & Hcalls & _).
    cbn [set_outputs outputs wait msgChan] in *.
    rewrite written_levels in Hwr, Hl. rewrite written_names in Hn.
    rewrite Hcalls, writes_of_app, writes_of_writes in Hwr.
    rewrite Hcalls, flushes_of_app, flushes_of_writes, app_nil_r in Hfl.
    repeat split; auto.
    rewrite Hwr, map_cons, dispatched_cons, <- app_assoc. reflexivity.
Qed.

Lemma write_calls_of (loggerMsg : loggerMessage) (positions : list nat) :
  map (fun write : nat * loggerMessage => CallWrite (fst write) (snd write))
      (map (fun i => (i, loggerMsg)) positions)
  = map (fun i => CallWrite i loggerMsg) positions.
Proof. rewrite map_map. apply map_ext. reflexivity. Qed.

Lemma flush_queue_run (queued : list loggerMessage) logger w :
  chan_buf (msgChan logger) = queued ->
  Z.of_nat (length queued) <= wait logger ->
  exists logger' w',
    flush_queue queued logger w = Normal logger' w'
    /\ chan_buf (msgChan logger') = []
    /\ chan_cap (msgChan logger') = chan_cap (msgChan logger)
    /\ wait logger' = wait logger - Z.of_nat (length queued)
    /\ map output_Name (outputs logger') = map output_Name (outputs logger)
    /\ map output_Level (outputs logger') = map output_Level (outputs logger)
    /\ synchronous logger' = synchronous logger
    /\ signalChan logger' = signalChan logger
    /\ calls w'
       = calls w
         ++ map (fun write => CallWrite (fst write) (snd write))
                (dispatched (map output_Level (outputs logger)) queued).
Proof.
  revert logger w. induction queued as [|loggerMsg rest IH]; intros logger w Hbuf Hwait.
  - exists logger, w. simpl. unfold ret, dispatched. simpl.
    rewrite app_nil_r, Z.sub_0_r. auto 12.
  - cbn [flush_queue]. unfold bind.
    destruct (writeToOutputs_run
                (set_msgChan logger {| chan_buf := rest; chan_cap := chan_cap (msgChan logger) |})
                loggerMsg w) as (w1 & Hrun & Hext).
    rewrite Hrun.
    match goal with
    | |- context [wait_Add ?l (-1) w1] =>
        destruct (wait_Add_cases l (-1) w1)
          as [(Hneg & _) | (_ & counted & Hadd & Ho & Hq & Hs & Hw & Hsig)]
    end.
    { cbn [set_outputs set_msgChan wait] in Hneg. simpl length in Hwait. lia. }
    rewrite Hadd.
    cbn [set_outputs set_msgChan wait outputs msgChan synchronous signalChan] in *.
    destruct (IH counted w1) as (logger' & w' & Hrest & Hb' & Hc' & Hw' & Hn' & Hl' & Hs'
                                 & Hsig' & Hcalls').
    { now rewrite Hq. }
    { rewrite Hw. simpl length in Hwait. lia. }
    exists logger', w'. split; [exact Hrest|].
    destruct Hext as (_ & _ & _ & Hcalls & _).
    rewrite Ho in Hn', Hl', Hcalls'. rewrite written_names in Hn'.
    rewrite written_levels in Hl', Hcalls'.
    rewrite Hq in Hc'. rewrite Hs in Hs'. rewrite Hsig in Hsig'. cbn [chan_cap] in Hc'.
    repeat split; auto.
    + rewrite Hw', Hw. simpl length. lia.
    + rewrite Hcalls', Hcalls, dispatched_cons, map_app, write_calls_of, <- app_assoc.
      reflexivity.
Qed.

(** X20. [flush] in asynchronous mode, run with no other goroutine sending
    meanwhile and a counter that covers the queue: it returns with the
    queue empty and the counter lowered by the number of queued events,
    and the adapter calls it made are, in this order, the writes of the
    queued events, event by event in queue order and each on the bindings
    that admit it in binding order, and after all of them one flush of
    every binding, in binding order; it makes no other adapter call. *)
Theorem flush_drains_then_flushes logger w :
  synchronous logger = false ->
  Z.of_nat (chan_len (msgChan logger)) <= wait logger ->
  exists logger' w',
    flush logger w = Normal logger' w'
    /\ chan_buf (msgChan logger') = []
    /\ wait logger' = wait logger - Z.of_nat (chan_len (msgChan logger))
    /\ calls w'
       = calls w
         ++ map (fun write => CallWrite (fst write) (snd write))
                (dispatched (map output_Level (outputs logger))
                            (chan_buf (msgChan logger)))
         ++ map CallFlush (seq 0 (length (outputs logger)))
    /\ map output_Name (outputs logger') = map output_Name (outputs logger)
    /\ map output_Level (outputs logger') = map output_Level (outputs logger).
Proof.
  intros Hsync Hwait. unfold flush. rewrite Hsync. cbn [negb]. unfold bind.
  destruct (flush_queue_run (chan_buf (msgChan logger)) logger w eq_refl Hwait)
    as (drained & w1 & Hrun & Hb & _ & Hw & Hn & Hl & _ & _ & Hwrites).
  rewrite Hrun.
  destruct (flush_outputs_run (outputs drained) 0 w1) as (w' & Hflush & Hext).
  rewrite Hflush. unfold ret.
  exists (set_outputs drained (map flush_result (outputs drained))), w'.
  destruct Hext as (_ & _ & _ & Hcalls & _).
  cbn [set_outputs msgChan wait outputs].
  split; [reflexivity|]. split; [exact Hb|]. split; [exact Hw|].
  split; [|split].
  - assert (Hlen : length (outputs drained) = length (outputs logger)).
    { rewrite <- (length_map output_Level (outputs drained)), Hl. apply length_map. }
    rewrite Hcalls, Hwrites, Hlen, <- app_assoc. reflexivity.
  - rewrite <- Hn, map_map. apply map_ext. reflexivity.
  - rewrite <- Hl, map_map. apply map_ext. reflexivity.
Qed.

(** X21. [Flush] in asynchronous mode makes no adapter call of its own and
    changes nothing but the signal channel: it returns exactly when the
    signal channel has room for the flush signal and the in-flight counter
    is zero, having queued that signal; in every other case it parks (at
    the send of line 296 or at [Wait]), and it never exits or panics. *)
Theorem Flush_asynchronous_only_signals logger w :
  synchronous logger = false ->
  match Flush logger w with
  | Normal logger' w' =>
      w' = w
      /\ (chan_len (signalChan logger) < chan_cap (signalChan logger))%nat
      /\ wait logger = 0
      /\ logger' = set_signalChan logger
                     {| chan_buf := chan_buf (signalChan logger) ++ ["flush"];
                        chan_cap := chan_cap (signalChan logger) |}
  | Blocked w' =>
      w' = w
      /\ ((chan_cap (signalChan logger) <= chan_len (signalChan logger))%nat
          \/ wait logger <> 0)
  | Exited _ _ | Panicked _ _ => False
  end.
Proof.
  intros Hsync. unfold Flush. rewrite Hsync. cbn [negb]. unfold chan_send.
  destruct (chan_len (signalChan logger) <? chan_cap (signalChan logger))%nat eqn:Hroom.
  - cbn [wait set_signalChan]. apply Nat.ltb_lt in Hroom.
    destruct (wait logger =? 0) eqn:Hzero.
    + apply Z.eqb_eq in Hzero. unfold ret. auto.
    + apply Z.eqb_neq in Hzero. unfold block. auto.
  - apply Nat.ltb_ge in Hroom. unfold block. auto.
Qed.

End SequentialFacts.

(** ** Every interleaving of the two goroutines *)

Section InterleavingFacts.

Context {A Config : Type} `{!LoggerAbstract A Config}.

Implicit Types (w : World A) (logger : Logger A) (c : AsyncState A).

Variable bindings : nat.
Variable before : list nat.

Lemma flush_phase_main_step c c' :
  main_step c = Some c' ->
  synchronous (cfg_logger c) = false ->
  flush_phase bindings before c -> flush_phase bindings before c'.
Proof.
  intros Hstep Hsync Hphase. destruct c as [logger w mpc wpc].
  destruct Hphase as [Hstop | (Hlive & Hlen & Hcase)]; simpl in *.
  { subst mpc. discriminate. }
  unfold main_step in Hstep. cbn [cfg_main cfg_logger] in Hstep. rewrite Hsync in Hstep.
  cbn [negb] in Hstep.
  destruct mpc as [[|call rest] | m rest | m rest | | | | ].
  - injection Hstep as <-. right; simpl.
    split; [exact Hlive|]. split; [exact Hlen|].
    destruct Hcase as [Hc | [Hc | [Hc | Hc]]]; destruct Hc as (Hsig & Hrest);
      try discriminate. left. auto.
  - unfold main_does, bind in Hstep. cbn [cfg_world cfg_worker] in Hstep.
    destruct (check_level_cases (A:=A) (call_level call) w) as [Hrun | [w1 Hrun]];
      rewrite Hrun in Hstep.
    + unfold ret in Hstep. injection Hstep as <-. right; simpl.
      split; [exact Hlive|]. split; [exact Hlen|].
      destruct Hcase as [Hc | [Hc | [Hc | Hc]]]; destruct Hc as (Hsig & Hrest);
        try discriminate. left. auto.
    + injection Hstep as <-. now left.
  - unfold main_does in Hstep. cbn [cfg_world cfg_worker] in Hstep.
    destruct (wait_Add_cases logger 1 w)
      as [(_ & v & Hrun) | (_ & counted & Hrun & Ho & Hq & Hs & Hw & Hsg)];
      rewrite Hrun in Hstep; injection Hstep as <-; [now left|].
    right; simpl. rewrite Ho, Hsg.
    split; [exact Hlive|]. split; [exact Hlen|].
    destruct Hcase as [Hc | [Hc | [Hc | Hc]]]; destruct Hc as (Hsig & Hrest);
      try discriminate. left. auto.
  - destruct (chan_send (msgChan logger) m) as [ch|]; [|discriminate].
    injection Hstep as <-. right; simpl.
    split; [exact Hlive|]. split; [exact Hlen|].
    destruct Hcase as [Hc | [Hc | [Hc | Hc]]]; destruct Hc as (Hsig & Hrest);
      try discriminate. left. auto.
  - unfold chan_send in Hstep.
    destruct (chan_len (signalChan logger) <? chan_cap (signalChan logger))%nat;
      [|discriminate].
    injection Hstep as <-. right; simpl.
    split; [exact Hlive|]. split; [exact Hlen|].
    destruct Hcase as [Hc | [Hc | [Hc | Hc]]]; destruct Hc as (Hsig & Hrest);
      try discriminate.
    destruct Hrest as (Hbuf & Hfl & Hcalls). rewrite Hbuf. right; left. auto.
  - destruct (wait logger =? 0); [|discriminate].
    injection Hstep as <-. right; simpl.
    split; [exact Hlive|]. split; [exact Hlen|].
    destruct Hcase as [Hc | [Hc | [Hc | Hc]]]; destruct Hc as (Hsig & Hrest);
      try discriminate; [right; left | right; right; left | right; right; right]; auto.
  - discriminate.
  - discriminate.
Qed.

Lemma write_result_length (outs : list (outputLogger A)) loggerMsg :
  length (map (fun o => write_result o loggerMsg) outs) = length outs.
Proof. apply length_map. Qed.

Lemma flush_phase_worker_step (thresholds : list Z) (events : list loggerMessage)
      (writes : list (nat * loggerMessage)) (pick : SelectCase) c c' :
  worker_step pick c = Some c' ->
  accounted thresholds events writes c ->
  flush_phase bindings before c -> flush_phase bindings before c'.
Proof.
  intros Hstep Hacc Hphase. destruct c as [logger w mpc wpc].
  destruct Hphase as [Hstop | (Hlive & Hlen & Hcase)]; simpl in *.
  { left. subst mpc. eapply worker_step_stopped; [exact Hstep | reflexivity]. }
  destruct Hacc as [Hstop | (Hsync & _ & _ & through & _ & _ & Hwait)]; simpl in *.
  { left. subst mpc. eapply worker_step_stopped; [exact Hstep | reflexivity]. }
  pose proof (main_counted_nonneg mpc) as Hcounted.
  unfold worker_step in Hstep. cbn [cfg_worker cfg_logger cfg_main] in Hstep.
  destruct wpc as [ | m | | signal | | m | | | ].
  - (* select *)
    destruct pick.
    + unfold chan_recv in Hstep.
      destruct (chan_buf (msgChan logger)) as [|m buf] eqn:Hbuf.
      * destruct mpc as [ | | m rest | | | | ]; try discriminate.
        destruct (chan_cap (msgChan logger) =? 0)%nat; [|discriminate].
        injection Hstep as <-. right; simpl.
        split; [discriminate|]. split; [exact Hlen|].
        destruct Hcase as [Hc | [Hc | [Hc | Hc]]]; destruct Hc as (Hsig & Hrest);
          try discriminate. left. auto.
      * injection Hstep as <-. right; simpl.
        split; [discriminate|]. split; [exact Hlen|].
        destruct Hcase as [Hc | [Hc | [Hc | Hc]]]; destruct Hc as (Hsig & Hb & Hfl & Hrest);
          try discriminate; [left | right; left | right; right; right]; auto.
    + unfold chan_recv in Hstep.
      destruct (chan_buf (signalChan logger)) as [|signal sbuf] eqn:Hbuf; [discriminate|].
      injection Hstep as <-. right; simpl.
      split; [discriminate|]. split; [exact Hlen|].
      destruct Hcase as [Hc | [Hc | [Hc | Hc]]]; destruct Hc as (Hsig & Hb & Hfl & Hrest);
        try discriminate.
      injection Hb as -> ->. right; right; left. repeat split; auto.
      intros s Hs. now injection Hs as <-.
  - (* line 265 *)
    unfold worker_does in Hstep. cbn [cfg_world cfg_main] in Hstep.
    destruct (writeToOutputs_run logger m w) as (w' & Hrun & Hext).
    rewrite Hrun in Hstep. injection Hstep as <-.
    destruct Hext as (_ & _ & _ & Hcalls & _).
    right; simpl. rewrite Hcalls, flushes_of_app, flushes_of_writes, app_nil_r.
    split; [discriminate|]. split; [now rewrite write_result_length|].
    destruct Hcase as [Hc | [Hc | [Hc | Hc]]]; destruct Hc as (Hsig & Hb & Hfl & Hrest);
      try discriminate; [left | right; left | right; right; right]; auto.
  - (* line 266 *)
    unfold worker_does in Hstep. cbn [cfg_world cfg_main] in Hstep.
    destruct (wait_Add_cases logger (-1) w)
      as [(Hneg & _) | (_ & counted & Hrun & Ho & Hq & Hs & Hw & Hsg)].
    { simpl in Hwait. lia. }
    rewrite Hrun in Hstep. injection Hstep as <-.
    right; simpl. rewrite Ho, Hsg.
    split; [discriminate|]. split; [exact Hlen|].
    destruct Hcase as [Hc | [Hc | [Hc | Hc]]]; destruct Hc as (Hsig & Hb & Hfl & Hrest);
      try discriminate; [left | right; left | right; right; right]; auto.
  - (* line 268 *)
    destruct Hcase as [Hc | [Hc | [Hc | Hc]]]; destruct Hc as (Hsig & Hb & Hfl & Hrest);
      try discriminate.
    destruct Hrest as (Hflush & Hcalls). rewrite (Hflush signal eq_refl), Hsync in Hstep.
    simpl in Hstep. injection Hstep as <-. right; simpl.
    split; [discriminate|]. split; [exact Hlen|].
    right; right; left. repeat split; auto. discriminate.
  - (* line 279 *)
    destruct Hcase as [Hc | [Hc | [Hc | Hc]]]; destruct Hc as (Hsig & Hb & Hfl & Hrest);
      try discriminate.
    destruct Hrest as (Hflush & Hcalls).
    unfold chan_recv in Hstep.
    destruct (chan_buf (msgChan logger)) as [|m buf]; injection Hstep as <-;
      right; simpl; (split; [discriminate|]); (split; [exact Hlen|]);
      right; right; left; repeat split; auto; discriminate.
  - (* line 281 *)
    destruct Hcase as [Hc | [Hc | [Hc | Hc]]]; destruct Hc as (Hsig & Hb & Hfl & Hrest);
      try discriminate.
    destruct Hrest as (Hflush & Hcalls).
    unfold worker_does in Hstep. cbn [cfg_world cfg_main] in Hstep.
    destruct (writeToOutputs_run logger m w) as (w' & Hrun & Hext).
    rewrite Hrun in Hstep. injection Hstep as <-.
    destruct Hext as (_ & _ & _ & Hcalls' & _).
    right; simpl. rewrite Hcalls', flushes_of_app, flushes_of_writes, app_nil_r.
    split; [discriminate|]. split; [now rewrite write_result_length|].
    right; right; left. repeat split; auto. discriminate.
  - (* line 282 *)
    destruct Hcase as [Hc | [Hc | [Hc | Hc]]]; destruct Hc as (Hsig & Hb & Hfl & Hrest);
      try discriminate.
    destruct Hrest as (Hflush & Hcalls).
    unfold worker_does in Hstep. cbn [cfg_world cfg_main] in Hstep.
    destruct (wait_Add_cases logger (-1) w)
      as [(Hneg & _) | (_ & counted & Hrun & Ho & Hq & Hs & Hw & Hsg)].
    { simpl in Hwait. lia. }
    rewrite Hrun in Hstep. injection Hstep as <-.
    right; simpl. rewrite Ho, Hsg.
    split; [discriminate|]. split; [exact Hlen|].
    right; right; left. repeat split; auto. discriminate.
  - (* lines 287-289 *)
    destruct Hcase as [Hc | [Hc | [Hc | Hc]]]; destruct Hc as (Hsig & Hb & Hfl & Hrest);
      try discriminate.
    destruct Hrest as (Hflush & Hcalls).
    unfold worker_does, bind in Hstep. cbn [cfg_world cfg_main] in Hstep.
    destruct (flush_outputs_run (outputs logger) 0 w) as (w' & Hrun & Hext).
    rewrite Hrun in Hstep. unfold ret in Hstep. injection Hstep as <-.
    destruct Hext as (_ & _ & _ & Hcalls' & _).
    right; simpl. rewrite Hcalls', flushes_of_app, Hcalls.
    split; [discriminate|]. split; [now rewrite length_map|].
    right; right; right. repeat split; auto. f_equal. rewrite Hlen. clear.
    generalize 0%nat. induction bindings as [|n IH]; intros i; simpl; [reflexivity|].
    now rewrite IH.
  - now elim Hlive.
Qed.

Lemma flush_phase_run (thresholds : list Z) (events : list loggerMessage)
      (writes : list (nat * loggerMessage)) (sched : list Move) c c' :
  run_schedule sched c = Some c' ->
  accounted thresholds events writes c ->
  flush_phase bindings before c -> flush_phase bindings before c'.
Proof.
  revert c. induction sched as [|mv rest IH]; intros c Hrun Hacc Hphase.
  - simpl in Hrun. now injection Hrun as <-.
  - simpl in Hrun. destruct (step mv c) as [c1|] eqn:Hstep; [|discriminate].
    apply (IH c1 Hrun).
    + apply (accounted_run _ _ _ [mv] c c1); [|exact Hacc]. simpl. now rewrite Hstep.
    + destruct mv as [|pick]; simpl in Hstep.
      * destruct Hacc as [Hstop | (Hsync & _)].
        { destruct c as [logger w mpc wpc]. simpl in Hstop. subst mpc. discriminate. }
        apply (flush_phase_main_step c c1 Hstep Hsync Hphase).
      * apply (flush_phase_worker_step _ _ _ pick c c1 Hstep Hacc Hphase).
Qed.

End InterleavingFacts.

Section AsyncRuns.

Context {A Config : Type} `{!LoggerAbstract A Config}.

Implicit Types (w : World A) (logger : Logger A) (c : AsyncState A).

Lemma async_start_accounted logger0 (data : list Z) w0 logger w (todo : list LogCall) :
  wait logger0 = 0 ->
  SetAsync logger0 data w0 = Normal logger w ->
  accounted (map output_Level (outputs logger0)) (map call_event todo)
            (writes_of (calls w0)) (async_start logger w todo)
  /\ flush_phase (length (outputs logger0)) (flushes_of (calls w0))
                 (async_start logger w todo).
Proof.
  intros Hwait0 Hasync.
  apply SetAsync_returns in Hasync as (Hsync & Houts & Hwait & Hbuf & Hsbuf & _ & Hcalls).
  split.
  - right; simpl. rewrite Hsync, Houts, Hwait, Hbuf, Hcalls, Hwait0.
    repeat split; try discriminate. exists []. simpl. rewrite app_nil_r. auto.
  - right; simpl. rewrite Houts, Hsbuf, Hcalls.
    split; [discriminate|]. split; [reflexivity|]. left. auto.
Qed.

(** X22. In asynchronous mode, at every moment of every interleaving of
    the calling goroutine (any number of [Writer] calls, then [Flush]) and
    the drain goroutine, the writes made so far are exactly those of an
    initial part of the logged events, in call order and each on the
    bindings that admit it: no event is written twice, out of order or
    before it is logged; and the counter is never below the number of
    queued events. *)
Theorem events_written_in_call_order
        logger0 (data : list Z) w0 logger w (todo : list LogCall) (sched : list Move) c :
  wait logger0 = 0 ->
  SetAsync logger0 data w0 = Normal logger w ->
  run_schedule sched (async_start logger w todo) = Some c ->
  cfg_main c <> MStopped ->
  exists through pending,
    map call_event todo = through ++ pending
    /\ writes_of (calls (cfg_world c))
       = writes_of (calls w0) ++ dispatched (map output_Level (outputs logger0)) through
    /\ Z.of_nat (chan_len (msgChan (cfg_logger c))) <= wait (cfg_logger c)
    /\ map output_Level (outputs (cfg_logger c)) = map output_Level (outputs logger0).
Proof.
  intros Hwait0 Hasync Hrun Hlive.
  destruct (async_start_accounted logger0 data w0 logger w todo Hwait0 Hasync) as [Hacc _].
  apply (accounted_run _ _ _ sched _ c Hrun) in Hacc.
  destruct Hacc as [Hstop | (_ & Hlev & _ & through & Hev & Hwr & Hcount)]; [contradiction|].
  exists through, (worker_holds (cfg_worker c) ++ chan_buf (msgChan (cfg_logger c))
                   ++ main_unsent (cfg_main c)).
  split; [exact Hev|]. split; [exact Hwr|]. split; [|exact Hlev].
  pose proof (main_counted_nonneg (cfg_main c)). unfold chan_len.
  assert (0 <= worker_owes (cfg_worker c)) by (destruct (cfg_worker c); simpl; lia).
  lia.
Qed.

(** X23. The drain goroutine outlives every interleaving: it ends only
    when the process does (a [Writer] with an unknown level).  Its [Done]
    never finds the counter at zero, so it never panics, and the counter
    is never negative. *)
Theorem drain_goroutine_never_panics
        logger0 (data : list Z) w0 logger w (todo : list LogCall) (sched : list Move) c :
  wait logger0 = 0 ->
  SetAsync logger0 data w0 = Normal logger w ->
  run_schedule sched (async_start logger w todo) = Some c ->
  cfg_main c <> MStopped ->
  cfg_worker c <> WStopped /\ 0 <= wait (cfg_logger c).
Proof.
  intros Hwait0 Hasync Hrun Hlive.
  destruct (async_start_accounted logger0 data w0 logger w todo Hwait0 Hasync)
    as [Hacc Hphase].
  apply (flush_phase_run _ _ _ _ _ sched _ c Hrun Hacc) in Hphase.
  apply (accounted_run _ _ _ sched _ c Hrun) in Hacc.
  destruct Hphase as [Hstop | (Hworker & _)]; [contradiction|].
  destruct Hacc as [Hstop | (_ & _ & _ & through & _ & _ & Hcount)]; [contradiction|].
  split; [exact Hworker|].
  pose proof (main_counted_nonneg (cfg_main c)).
  assert (0 <= worker_owes (cfg_worker c)) by (destruct (cfg_worker c); simpl; lia).
  lia.
Qed.

(** X24. In every interleaving, no binding is flushed before [Flush] has
    sent its signal, and the one [Flush] call flushes every binding at
    most once: the flushes made so far are none, or one per binding in
    binding order. *)
Theorem bindings_flushed_at_most_once
        logger0 (data : list Z) w0 logger w (todo : list LogCall) (sched : list Move) c :
  wait logger0 = 0 ->
  SetAsync logger0 data w0 = Normal logger w ->
  run_schedule sched (async_start logger w todo) = Some c ->
  cfg_main c <> MStopped ->
  (flushes_of (calls (cfg_world c)) = flushes_of (calls w0)
   \/ flushes_of (calls (cfg_world c))
      = flushes_of (calls w0) ++ seq 0 (length (outputs logger0)))
  /\ (main_signalled (cfg_main c) = false ->
      flushes_of (calls (cfg_world c)) = flushes_of (calls w0))
  /\ length (outputs (cfg_logger c)) = length (outputs logger0).
Proof.
  intros Hwait0 Hasync Hrun Hlive.
  destruct (async_start_accounted logger0 data w0 logger w todo Hwait0 Hasync)
    as [Hacc Hphase].
  apply (flush_phase_run _ _ _ _ _ sched _ c Hrun Hacc) in Hphase.
  destruct Hphase as [Hstop | (_ & Hlen & Hcase)]; [contradiction|].
  destruct Hcase as [Hc | [Hc | [Hc | Hc]]].
  - destruct Hc as (_ & _ & _ & Hfl). auto.
  - destruct Hc as (Hsig & _ & _ & Hfl). repeat split; auto.
  - destruct Hc as (Hsig & _ & _ & _ & Hfl). repeat split; auto.
  - destruct Hc as (Hsig & _ & _ & Hfl). repeat split; auto. congruence.
Qed.

Lemma flushes_of_flushes (positions : list nat) :
  flushes_of (map CallFlush positions) = positions.
Proof. induction positions as [|i rest IH]; simpl; [reflexivity | now rewrite IH]. Qed.

Lemma drain_from_outputs logger w (mpc : MainPc) :
  exists c',
    run_schedule [WorkerStep CaseMsg]
                 {| cfg_logger := logger; cfg_world := w; cfg_main := mpc;
                    cfg_worker := WFlushOutputs |} = Some c'
    /\ cfg_worker c' = WSelect /\ cfg_main c' = mpc
    /\ flushes_of (calls (cfg_world c'))
       = flushes_of (calls w) ++ seq 0 (length (outputs logger))
    /\ writes_of (calls (cfg_world c')) = writes_of (calls w).
Proof.
  cbn [run_schedule step]. unfold worker_step. cbn [cfg_worker cfg_logger].
  unfold worker_does, bind. cbn [cfg_world cfg_main].
  destruct (flush_outputs_run (outputs logger) 0 w) as (w' & Hrun & Hext).
  rewrite Hrun. unfold ret. eexists. split; [reflexivity|]. simpl.
  destruct Hext as (_ & _ & _ & Hcalls & _). rewrite Hcalls.
  rewrite flushes_of_app, flushes_of_flushes, writes_of_app, writes_of_flushes, app_nil_r.
  auto.
Qed.

Lemma drain_from_test logger w (mpc : MainPc) :
  chan_buf (msgChan logger) = [] ->
  exists c',
    run_schedule [WorkerStep CaseMsg; WorkerStep CaseMsg]
                 {| cfg_logger := logger; cfg_world := w; cfg_main := mpc;
                    cfg_worker := WFlushTest |} = Some c'
    /\ cfg_worker c' = WSelect /\ cfg_main c' = mpc
    /\ flushes_of (calls (cfg_world c'))
       = flushes_of (calls w) ++ seq 0 (length (outputs logger))
    /\ writes_of (calls (cfg_world c')) = writes_of (calls w).
Proof.
  intros Hbuf. cbn [run_schedule step]. unfold worker_step at 1.
  cbn [cfg_worker cfg_logger]. unfold chan_recv. rewrite Hbuf. unfold goto_worker.
  cbn [cfg_world cfg_main]. apply drain_from_outputs.
Qed.

Lemma drain_from_signal logger w (mpc : MainPc) :
  synchronous logger = false ->
  chan_buf (msgChan logger) = [] ->
  exists c',
    run_schedule [WorkerStep CaseMsg; WorkerStep CaseMsg; WorkerStep CaseMsg]
                 {| cfg_logger := logger; cfg_world := w; cfg_main := mpc;
                    cfg_worker := WSignal "flush" |} = Some c'
    /\ cfg_worker c' = WSelect /\ cfg_main c' = mpc
    /\ flushes_of (calls (cfg_world c'))
       = flushes_of (calls w) ++ seq 0 (length (outputs logger))
    /\ writes_of (calls (cfg_world c')) = writes_of (calls w).
Proof.
  intros Hsync Hbuf. cbn [run_schedule step]. unfold worker_step at 1.
  cbn [cfg_worker cfg_logger]. rewrite Hsync.
  change (String.eqb "flush" "flush" && negb false) with true. cbv iota.
  unfold goto_worker. cbn [cfg_world cfg_main]. now apply drain_from_test.
Qed.

Lemma drain_from_select logger w (mpc : MainPc) :
  synchronous logger = false ->
  chan_buf (msgChan logger) = [] ->
  chan_buf (signalChan logger) = ["flush"] ->
  exists c',
    run_schedule drain_signal
                 {| cfg_logger := logger; cfg_world := w; cfg_main := mpc;
                    cfg_worker := WSelect |} = Some c'
    /\ cfg_worker c' = WSelect /\ cfg_main c' = mpc
    /\ flushes_of (calls (cfg_world c'))
       = flushes_of (calls w) ++ seq 0 (length (outputs logger))
    /\ writes_of (calls (cfg_world c')) = writes_of (calls w).
Proof.
  intros Hsync Hbuf Hsig. unfold drain_signal. cbn [run_schedule step].
  unfold worker_step at 1. cbn [cfg_worker cfg_logger]. unfold chan_recv. rewrite Hsig.
  unfold goto_worker. cbn [cfg_world cfg_main].
  apply (drain_from_signal
           (set_signalChan logger {| chan_buf := []; chan_cap := chan_cap (signalChan logger) |})
           w mpc); [exact Hsync | exact Hbuf].
Qed.

(** X25. The flush pass is late, not lost: whenever [Flush] has returned,
    whatever the interleaving before, the drain goroutine running on its
    own for at most four steps ends back at its [select] with every
    binding flushed exactly once, in binding order, and no further
    write. *)
Theorem flush_pass_completes_after_return
        logger0 (data : list Z) w0 logger w (todo : list LogCall) (sched : list Move) c :
  wait logger0 = 0 ->
  SetAsync logger0 data w0 = Normal logger w ->
  run_schedule sched (async_start logger w todo) = Some c ->
  cfg_main c = MReturned ->
  exists rest c',
    drain_only rest
    /\ (length rest <= 4)%nat
    /\ run_schedule rest c = Some c'
    /\ cfg_main c' = MReturned
    /\ cfg_worker c' = WSelect
    /\ flushes_of (calls (cfg_world c'))
       = flushes_of (calls w0) ++ seq 0 (length (outputs logger0))
    /\ writes_of (calls (cfg_world c')) = writes_of (calls (cfg_world c)).
Proof.
  intros Hwait0 Hasync Hrun Hmain.
  destruct (async_start_accounted logger0 data w0 logger w todo Hwait0 Hasync)
    as [Hacc Hphase].
  apply (flush_phase_run _ _ _ _ _ sched _ c Hrun Hacc) in Hphase.
  apply (accounted_run _ _ _ sched _ c Hrun) in Hacc.
  destruct c as [lg wd mpc wpc]. simpl in Hmain. subst mpc.
  destruct Hphase as [Hstop | (Hworker & Hlen & Hcase)]; [discriminate|].
  destruct Hacc as [Hstop | (Hsync & _ & Hret & through & _ & _ & Hcount)]; [discriminate|].
  simpl in *. specialize (Hret eq_refl). rewrite Hret in Hcount.
  assert (Hq : chan_buf (msgChan lg) = [] /\ worker_holds wpc = [] /\ worker_owes wpc = 0).
  { destruct (chan_buf (msgChan lg)), wpc; simpl in *; repeat split; try reflexivity; lia. }
  destruct Hq as (Hbuf & Hholds & Howes).
  assert (Hsteps : forall n, Forall (fun mv : Move => mv <> MainStep)
                                    (repeat (WorkerStep CaseMsg) n)).
  { intros n. induction n; simpl; constructor; auto; discriminate. }
  destruct Hcase as [Hc | [Hc | [Hc | Hc]]].
  - destruct Hc as (Hsig & _). discriminate.
  - destruct Hc as (_ & Hsbuf & Hnf & Hfl).
    assert (wpc = WSelect) as -> by (destruct wpc; simpl in *; congruence).
    destruct (drain_from_select lg wd MReturned Hsync Hbuf Hsbuf)
      as (c' & Hrun' & Hw' & Hm' & Hfl' & Hwr').
    exists drain_signal, c'. rewrite Hfl', Hfl, Hlen.
    repeat split; auto.
    unfold drain_only, drain_signal. repeat constructor; discriminate.
  - destruct Hc as (_ & Hsbuf & Hf & Hflush & Hfl).
    destruct wpc as [ | m | | signal | | m | | | ]; simpl in *; try discriminate.
    + rewrite (Hflush signal eq_refl).
      destruct (drain_from_signal lg wd MReturned Hsync Hbuf)
        as (c' & Hrun' & Hw' & Hm' & Hfl' & Hwr').
      exists (repeat (WorkerStep CaseMsg) 3), c'. rewrite Hfl', Hfl, Hlen.
      repeat split; auto; solve [apply Hsteps | simpl; lia].
    + destruct (drain_from_test lg wd MReturned Hbuf)
        as (c' & Hrun' & Hw' & Hm' & Hfl' & Hwr').
      exists (repeat (WorkerStep CaseMsg) 2), c'. rewrite Hfl', Hfl, Hlen.
      repeat split; auto; solve [apply Hsteps | simpl; lia].
    + destruct (drain_from_outputs lg wd MReturned)
        as (c' & Hrun' & Hw' & Hm' & Hfl' & Hwr').
      exists (repeat (WorkerStep CaseMsg) 1), c'. rewrite Hfl', Hfl, Hlen.
      repeat split; auto; solve [apply Hsteps | simpl; lia].
  - destruct Hc as (_ & Hsbuf & Hnf & Hfl).
    assert (wpc = WSelect) as -> by (destruct wpc; simpl in *; congruence).
    exists [], {| cfg_logger := lg; cfg_world := wd; cfg_main := MReturned;
                  cfg_worker := WSelect |}.
    simpl. repeat split; auto. constructor.
Qed.

End AsyncRuns.

(** ** The facade, NewLogger without a console adapter, and an unbuffered queue *)

Section FacadeFacts.

Context {A Config : Type} `{!LoggerAbstract A Config}.

Implicit Types (w : World A) (logger : Logger A) (c : AsyncState A).

Lemma log_at_synchronous (level : Z) env logger (msg : string) w :
  synchronous logger = true -> levelString level <> EmptyString ->
  exists w',
    log_at level env logger msg w
    = Normal (set_outputs logger
                (map (fun o => write_result o (build_message env level msg))
                     (outputs logger))) w'
    /\ writes_of (calls w')
       = writes_of (calls w)
         ++ map (fun i => (i, build_message env level msg))
                (admitted (outputs logger) (build_message env level msg)).
Proof.
  intros Hsync Hdef.
  destruct (Writer_synchronous env logger level msg w Hsync Hdef) as (w' & Hrun & Hext).
  exists w'. unfold log_at, bind. rewrite Hrun. split; [reflexivity|].
  destruct Hext as (_ & _ & _ & Hcalls & _).
  now rewrite Hcalls, writes_of_app, writes_of_writes.
Qed.

Lemma log_at_never_exits (level : Z) env logger (msg : string) w code w' :
  levelString level <> EmptyString ->
  log_at level env logger msg w <> Exited code w'.
Proof.
  intros Hdef. unfold log_at, bind.
  destruct (Writer env logger level msg w) as [r w1 | code1 w1 | v w1 | w1] eqn:Hrun;
    try discriminate.
  now elim (Writer_never_exits_defined env logger level msg w code1 w1 Hdef).
Qed.

Lemma facade_entry (unicode_upper : string -> string) (n : string) (level : Z) :
  In (n, level) level_names ->
  logs_at_named_level unicode_upper (n, log_at (A:=A) level).
Proof.
  intros Hin. unfold logs_at_named_level. cbn [fst snd].
  rewrite (LoggerLevel_of_name unicode_upper n n level Hin eq_refl).
  assert (Hrange : 0 <= level <= 7 /\ levelString level = n).
  { simpl in Hin.
    repeat (destruct Hin as [Hin | Hin];
            [injection Hin as <- <-; split; [vm_compute; split; discriminate | reflexivity]|]).
    contradiction. }
  destruct Hrange as [Hrange Hname]. split; [exact Hrange|]. split; [exact Hname|].
  pose proof (levelString_defined level Hrange) as Hdef.
  intros env logger msg w. split.
  - intros code w'. now apply log_at_never_exits.
  - intros Hsync.
    destruct (log_at_synchronous level env logger msg w Hsync Hdef) as (w' & Hrun & Hwr).
    exists w'. split; [exact Hrun|]. split; [|exact Hwr].
    unfold build_message. destruct (env_caller env) as [[[fn file] line]|]; exact Hname.
Qed.

(** X26. Each of the eight facade methods logs at the severity it is named
    after: the event it builds carries the method's name as level string
    and the number [LoggerLevel] gives for that name; no facade method
    ends the process; and on a synchronous logger it returns after
    writing the event to exactly the bindings that admit that severity. *)
Theorem facade_logs_at_named_level (unicode_upper : string -> string) :
  Forall (logs_at_named_level unicode_upper) (facade (A:=A)).
Proof.
  unfold facade.
  repeat (apply List.Forall_cons; [apply facade_entry; simpl; tauto|]).
  apply List.Forall_nil.
Qed.

(** X27. [NewLogger] depends on the console adapter: when no factory is
    registered under console it prints that the adapter is nil and ends
    the process; when the console adapter's [Init] fails on the empty
    configuration it prints the init-failed message and ends the process;
    otherwise it returns.  The exit status is 0 in both cases, and
    [NewLogger] never panics or parks. *)
Theorem NewLogger_needs_console (ConsoleConfig_zero : Config) w :
  match adapters w !! "console" with
  | None =>
      exists w',
        NewLogger ConsoleConfig_zero w = Exited 0 w'
        /\ stdout w' = stdout w ++ ["logger: adapter consoleis nil!" +:+ GoStrings.newline]
        /\ calls w' = calls w
  | Some newConsole =>
      match snd (adapter_Init (newConsole tt) ConsoleConfig_zero) with
      | Some e =>
          exists w',
            NewLogger ConsoleConfig_zero w = Exited 0 w'
            /\ stdout w' = stdout w ++ [("logger: adapter console init failed, error: " +:+ e)
                                        +:+ GoStrings.newline]
            /\ calls w' = calls w ++ [CallInit "console"]
      | None =>
          exists logger w',
            NewLogger ConsoleConfig_zero w = Normal logger w'
            /\ stdout w' = stdout w
            /\ calls w' = calls w ++ [CallInit "console"]
      end
  end.
Proof.
  remember (NewLogger ConsoleConfig_zero w) as outcome eqn:Hout.
  unfold NewLogger in Hout; cbv zeta in Hout. unfold bind at 1 in Hout.
  match type of Hout with
  | context [attach ?l _ _ _ _] => set (fresh := l) in Hout
  end.
  assert (Hfresh : forall o, In o (outputs fresh) -> output_Name o <> "console")
    by (intros o []).
  unfold attach in Hout. unfold bind at 1 in Hout.
  rewrite (attach_scan_fresh _ _ _ Hfresh) in Hout.
  unfold bind at 1 in Hout. unfold lookup_adapter in Hout.
  destruct (adapters w !! "console") as [newConsole|] eqn:Hreg.
  - unfold bind at 1 in Hout. unfold record_call in Hout.
    destruct (adapter_Init (newConsole tt) ConsoleConfig_zero) as [adapterLog [e|]];
      cbn [snd].
    + unfold bind, printError, Println, os_Exit in Hout. subst outcome.
      eexists. split; [reflexivity|]. simpl. auto.
    + unfold bind, ret in Hout. subst outcome.
      eexists _, _. split; [reflexivity|]. simpl. auto.
  - unfold bind, printError, Println, os_Exit in Hout. subst outcome.
    eexists. split; [reflexivity|]. simpl. auto.
Qed.

End FacadeFacts.

Section UnbufferedFacts.

Context {A Config : Type} `{!LoggerAbstract A Config}.

Implicit Types (w : World A) (logger : Logger A) (c : AsyncState A).

Lemma handoff_round_runs c (call : LogCall) (rest : list LogCall) :
  unbuffered_idle c (call :: rest) ->
  levelString (call_level call) <> EmptyString ->
  exists c', run_schedule handoff_round c = Some c' /\ unbuffered_idle c' rest.
Proof.
  intros (Hmain & Hworker & Hsync & Hwait & Hbuf & Hcap & Hsbuf & Hscap) Hdef.
  destruct c as [[outs [mbuf mcap] sync wt [sbuf scap]] w mpc wpc]. simpl in *. subst.
  unfold handoff_round. cbn [run_schedule step].
  (* Writer up to line 236 *)
  unfold main_step at 1. cbn [cfg_main cfg_logger synchronous negb].
  rewrite (check_level_ret _ Hdef).
  unfold main_does at 1, bind, ret. cbn [cfg_world cfg_worker].
  (* line 237 *)
  unfold main_step at 1. cbn [cfg_main cfg_logger].
  unfold main_does at 1, wait_Add, ret. cbn [wait cfg_world cfg_worker outputs msgChan
                                              synchronous signalChan].
  change (0 + 1 <? 0) with false. cbv iota.
  (* lines 238 and 264: the hand-over *)
  unfold worker_step at 1. cbn [cfg_worker cfg_logger msgChan cfg_main].
  unfold chan_recv. cbn [chan_buf chan_cap Nat.eqb cfg_world].
  (* line 265 *)
  unfold worker_step at 1. cbn [cfg_worker cfg_logger].
  match goal with
  | |- context [writeToOutputs ?l ?m] =>
      destruct (writeToOutputs_run l m w) as (w' & Hrun & Hext)
  end.
  unfold worker_does at 1. cbn [cfg_world cfg_main]. rewrite Hrun.
  (* line 266 *)
  unfold worker_step at 1. cbn [cfg_worker cfg_logger].
  unfold worker_does, wait_Add, set_outputs, ret.
  cbn [wait cfg_world cfg_main outputs msgChan synchronous signalChan].
  change (0 + 1 + -1 <? 0) with false. cbv iota.
  eexists. split; [reflexivity|].
  unfold unbuffered_idle. simpl. repeat split; auto.
Qed.

Lemma flush_alone_returns c :
  cfg_main c = MCall [] ->
  synchronous (cfg_logger c) = false ->
  wait (cfg_logger c) = 0 ->
  chan_buf (signalChan (cfg_logger c)) = [] ->
  (0 < chan_cap (signalChan (cfg_logger c)))%nat ->
  exists c', run_schedule flush_alone c = Some c' /\ cfg_main c' = MReturned.
Proof.
  intros Hmain Hsync Hwait Hsbuf Hscap.
  destruct c as [[outs [mbuf mcap] sync wt [sbuf scap]] w mpc wpc]. simpl in *. subst.
  destruct scap as [|scap]; [lia|].
  eexists. split; [reflexivity|]. reflexivity.
Qed.

Lemma handoff_schedule_runs (todo : list LogCall) c :
  unbuffered_idle c todo ->
  Forall (fun call => levelString (call_level call) <> EmptyString) todo ->
  exists c',
    run_schedule (handoff_schedule (length todo)) c = Some c' /\ cfg_main c' = MReturned.
Proof.
  intros Hidle Hdef. revert c Hidle.
  induction Hdef as [|call rest Hcall Hrest IH]; intros c Hidle.
  - destruct Hidle as (Hmain & _ & Hsync & Hwait & _ & _ & Hsbuf & Hscap).
    now apply flush_alone_returns.
  - destruct (handoff_round_runs c call rest Hidle Hcall) as (c1 & Hrun1 & Hidle1).
    destruct (IH c1 Hidle1) as (c' & Hrun' & Hmain').
    exists c'. split; [|exact Hmain'].
    cbn [length handoff_schedule]. rewrite run_schedule_app, Hrun1. exact Hrun'.
Qed.

(** X28. Asynchronous logging cannot be stuck by the queue size: for every
    queue capacity [SetAsync] accepts, an unbuffered queue included, and
    every sequence of calls with known levels, there is an interleaving in
    which every [Writer] and the final [Flush] return. *)
Theorem Flush_can_return_for_every_capacity
        logger0 (data : list Z) w0 logger w (todo : list LogCall) :
  wait logger0 = 0 ->
  SetAsync logger0 data w0 = Normal logger w ->
  Forall (fun call => levelString (call_level call) <> EmptyString) todo ->
  exists c,
    run_schedule (delivery_schedule (chan_cap (msgChan logger)) (length todo))
                 (async_start logger w todo) = Some c
    /\ cfg_main c = MReturned.
Proof.
  intros Hwait0 Hasync Hdef.
  apply SetAsync_returns in Hasync as (Hsync & _ & Hwait & Hbuf & Hsbuf & Hscap & _).
  unfold delivery_schedule.
  destruct (chan_cap (msgChan logger) =? 0)%nat eqn:Hcap.
  - apply Nat.eqb_eq in Hcap. apply handoff_schedule_runs; [|exact Hdef].
    unfold unbuffered_idle. simpl. rewrite Hscap. repeat split; auto; lia.
  - apply Nat.eqb_neq in Hcap.
    destruct (eager_schedule_runs todo (async_start logger w todo))
      as (c & Hrun & Hmain & _); [|exact Hdef|eauto].
    unfold idle. simpl. rewrite Hscap. repeat split; auto; lia.
Qed.

End UnbufferedFacts.

(** ** Further theorems on the counting adapter *)

Section MoreInstances.

Import Probe Sample.

Lemma NewLogger_created :
  NewLogger tt world = Normal (fst created) (snd created).
Proof. vm_compute. reflexivity. Qed.

Lemma attach_attached :
  attach console_logger "file" LoggerLevelWarning tt world
  = Normal (fst attached) (snd attached).
Proof. vm_compute. reflexivity. Qed.

Lemma writeToOutputs_written :
  writeToOutputs failing_logger event world = Normal (fst written) (snd written).
Proof. vm_compute. reflexivity. Qed.

(** X1 on a database adapter registered after console and file. *)
Lemma Register_then_lookup_witness :
  exists w',
    Register "database" (Some (new "database" false)) world = Normal tt w'
    /\ adapters w' !! "database" = Some (new "database" false)
    /\ (forall other, other <> "database" -> adapters w' !! other = adapters world !! other)
    /\ stdout w' = stdout world /\ stderr w' = stderr world /\ calls w' = calls world.
Proof.
  apply (Register_then_lookup "database" (new "database" false) world).
  vm_compute. reflexivity.
Defined.

(** X3: no database adapter is registered in [world]. *)
Lemma attach_unregistered_exits_witness :
  exists w',
    attach console_logger "database" LoggerLevelDebug tt world = Exited 0 w'
    /\ stdout w' = stdout world ++ [("logger: adapter " +:+ "database" +:+ "is nil!")
                                    +:+ GoStrings.newline]
    /\ calls w' = calls world
    /\ stderr w' = stderr world
    /\ adapters w' = adapters world.
Proof.
  apply (attach_unregistered_exits console_logger "database" LoggerLevelDebug tt world).
  - intros o [<- | []]. discriminate.
  - vm_compute. reflexivity.
Defined.

(** X6: attaching file to the console logger and detaching it again. *)
Lemma attach_then_detach_witness :
  fst (detach (fst (fst attached)) "file") = console_logger.
Proof.
  apply (attach_then_detach console_logger "file" LoggerLevelWarning tt world
                            (fst attached) (snd attached)).
  exact attach_attached.
Defined.

(** X8 on the logger [NewLogger] returns in [world]. *)
Lemma console_reattach_after_detach_witness :
  exists w2,
    Attach (fst (Detach (fst created) "console")) "console" LoggerLevelError tt (snd created)
    = Normal ({| outputs := [{| output_Name := "console"; output_Level := LoggerLevelError;
                                output_Adapter := new "console" false tt |}];
                 msgChan := make_chan 10; synchronous := true; wait := 0;
                 signalChan := make_chan 1 |}, None) w2.
Proof.
  apply (console_reattach_after_detach tt world (fst created) (snd created) LoggerLevelError
                                       tt (new "console" false) (new "console" false tt)).
  - exact NewLogger_created.
  - vm_compute. reflexivity.
  - reflexivity.
Defined.

(** X10 at Warning. *)
Lemma LoggerLevel_of_levelString_witness :
  LoggerLevel (fun s => s) (levelString LoggerLevelWarning) = LoggerLevelWarning.
Proof.
  apply (LoggerLevel_of_levelString (fun s => s) LoggerLevelWarning).
  unfold LoggerLevelWarning. lia.
Defined.

(** X12 at level 8. *)
Lemma Writer_unknown_level_exits_witness :
  exists w',
    Writer env console_logger 8 "lost" world = Exited 0 w'
    /\ stdout w' = stdout world ++ [("logger: level " +:+ GoStrings.Itoa 8 +:+ " is illegal!")
                                    +:+ GoStrings.newline]
    /\ stderr w' = stderr world
    /\ calls w' = calls world.
Proof.
  apply (Writer_unknown_level_exits env console_logger 8 "lost" world). lia.
Defined.

(** X13 on the asynchronous console logger and on an unbuffered one. *)
Lemma Writer_asynchronous_enqueues_witness :
  (exists logger',
      Writer env async_logger LoggerLevelError "queued" async_world
      = Normal (logger', None) async_world
      /\ chan_buf (msgChan logger') = [build_message env LoggerLevelError "queued"]
      /\ wait logger' = 1)
  /\ Writer env unbuffered_logger LoggerLevelError "queued" async_world
     = Blocked async_world.
Proof.
  split.
  - destruct (proj1 (Writer_asynchronous_enqueues env async_logger LoggerLevelError "queued"
                                                  async_world eq_refl
                                                  ltac:(unfold LoggerLevelError; lia)
                                                  ltac:(simpl; lia)))
      as (logger' & Hrun & Hbuf & _ & Hwait & _).
    + unfold async_logger, chan_len. simpl. lia.
    + exists logger'. auto.
  - apply (proj2 (Writer_asynchronous_enqueues env unbuffered_logger LoggerLevelError "queued"
                                               async_world eq_refl
                                               ltac:(unfold LoggerLevelError; lia)
                                               ltac:(simpl; lia))).
    unfold unbuffered_logger, chan_len. simpl. lia.
Defined.

(** X15 on [event]. *)
Lemma default_format_renders_witness :
  loggerMessageFormat defaultLoggerMessageFormat event
  = "2023-11-14 22:13:20.123 [Error] disk nearly full".
Proof.
  apply (default_format_renders event); vm_compute; reflexivity.
Defined.

(** X16 on the failing file binding (threshold Warning) and the console
    binding (threshold Debug), both of which admit an Error event. *)
Lemma writeToOutputs_keeps_bindings_witness :
  map output_Name (outputs (fst written)) = ["file"; "console"]
  /\ map output_Level (outputs (fst written)) = [LoggerLevelWarning; LoggerLevelDebug]
  /\ synchronous (fst written) = true
  /\ wait (fst written) = 0.
Proof.
  destruct (writeToOutputs_keeps_bindings failing_logger event world (fst written)
                                          (snd written) writeToOutputs_written)
    as (Hnames & Hlevels & _ & _ & _ & Hsync & Hwait & _).
  rewrite Hnames, Hlevels, Hsync, Hwait. repeat split.
Defined.

(** X17: detaching from the asynchronous logger leaves it asynchronous. *)
Lemma asynchronous_mode_is_final_witness :
  synchronous (fst (Detach async_logger "console")) = false.
Proof.
  apply (asynchronous_mode_is_final (OpDetach "console") async_logger async_world
                                    (fst (Detach async_logger "console")) async_world).
  - reflexivity.
  - reflexivity.
Defined.

(** X18: the attach [NewLogger] makes on its fresh synchronous logger. *)
Lemma synchronous_mode_uses_no_queue_witness :
  synchronous (fst created) = true
  /\ msgChan (fst created) = msgChan console_logger
  /\ signalChan (fst created) = signalChan console_logger
  /\ wait (fst created) = wait console_logger.
Proof.
  apply (synchronous_mode_uses_no_queue (OpAttach "console" LoggerLevelDebug tt)
           {| outputs := []; msgChan := make_chan 10; synchronous := true;
              wait := 0; signalChan := make_chan 1 |}
           world (fst created) (snd created)).
  - reflexivity.
  - intros data. discriminate.
  - vm_compute. reflexivity.
Defined.

(** X19 on one Emergency call to the logger with two bindings. *)
Lemma log_calls_synchronous_witness :
  exists logger' w',
    log_calls one_call failing_logger world = Normal logger' w'
    /\ writes_of (calls w')
       = writes_of (calls world)
         ++ dispatched (map output_Level (outputs failing_logger)) (map call_event one_call)
    /\ flushes_of (calls w') = flushes_of (calls world)
    /\ map output_Name (outputs logger') = map output_Name (outputs failing_logger)
    /\ map output_Level (outputs logger') = map output_Level (outputs failing_logger)
    /\ synchronous logger' = true
    /\ wait logger' = wait failing_logger
    /\ msgChan logger' = msgChan failing_logger.
Proof.
  apply (log_calls_synchronous one_call failing_logger world).
  - reflexivity.
  - repeat constructor. vm_compute. discriminate.
Defined.

(** X20 on a queue holding a Debug event and an Error event, with a file
    binding (threshold Warning) before a console binding (threshold
    Debug): the console binding is written the first event, both bindings
    the second, and only then both are flushed. *)
Lemma flush_drains_then_flushes_witness :
  exists logger' w',
    flush queued_logger async_world = Normal logger' w'
    /\ chan_buf (msgChan logger') = []
    /\ wait logger' = 0
    /\ calls w'
       = [ CallWrite 1 (build_message env LoggerLevelDebug "first");
           CallWrite 0 event; CallWrite 1 event;
           CallFlush 0; CallFlush 1 ]
    /\ map output_Name (outputs logger') = ["file"; "console"]
    /\ map output_Level (outputs logger') = [LoggerLevelWarning; LoggerLevelDebug].
Proof.
  apply (flush_drains_then_flushes queued_logger async_world).
  - reflexivity.
  - vm_compute. discriminate.
Defined.

(** X21 on the asynchronous console logger, whose counter is zero. *)
Lemma Flush_asynchronous_only_signals_witness :
  match Flush async_logger async_world with
  | Normal logger' w' =>
      w' = async_world
      /\ (chan_len (signalChan async_logger) < chan_cap (signalChan async_logger))%nat
      /\ wait async_logger = 0
      /\ logger' = set_signalChan async_logger
                     {| chan_buf := chan_buf (signalChan async_logger) ++ ["flush"];
                        chan_cap := chan_cap (signalChan async_logger) |}
  | Blocked w' =>
      w' = async_world
      /\ ((chan_cap (signalChan async_logger) <= chan_len (signalChan async_logger))%nat
          \/ wait async_logger <> 0)
  | Exited _ _ | Panicked _ _ => False
  end.
Proof.
  apply (Flush_asynchronous_only_signals async_logger async_world). reflexivity.
Defined.

Lemma early_state_running : cfg_main early_state <> MStopped.
Proof. vm_compute. discriminate. Qed.

Lemma early_state_returned : cfg_main early_state = MReturned.
Proof. vm_compute. reflexivity. Qed.

(** X22 on the run [early_return]. *)
Lemma events_written_in_call_order_witness :
  exists through pending,
    map call_event one_call = through ++ pending
    /\ writes_of (calls (cfg_world early_state))
       = writes_of (calls world)
         ++ dispatched (map output_Level (outputs console_logger)) through
    /\ Z.of_nat (chan_len (msgChan (cfg_logger early_state))) <= wait (cfg_logger early_state)
    /\ map output_Level (outputs (cfg_logger early_state))
       = map output_Level (outputs console_logger).
Proof.
  apply (events_written_in_call_order console_logger [] world async_logger async_world
                                      one_call early_return early_state).
  - reflexivity.
  - exact SetAsync_on_probe.
  - exact early_return_runs.
  - exact early_state_running.
Defined.

(** X23 on the run [early_return]. *)
Lemma drain_goroutine_never_panics_witness :
  cfg_worker early_state <> WStopped /\ 0 <= wait (cfg_logger early_state).
Proof.
  apply (drain_goroutine_never_panics console_logger [] world async_logger async_world
                                      one_call early_return early_state).
  - reflexivity.
  - exact SetAsync_on_probe.
  - exact early_return_runs.
  - exact early_state_running.
Defined.

(** X24 on the run [early_return]. *)
Lemma bindings_flushed_at_most_once_witness :
  (flushes_of (calls (cfg_world early_state)) = flushes_of (calls world)
   \/ flushes_of (calls (cfg_world early_state))
      = flushes_of (calls world) ++ seq 0 (length (outputs console_logger)))
  /\ (main_signalled (cfg_main early_state) = false ->
      flushes_of (calls (cfg_world early_state)) = flushes_of (calls world))
  /\ length (outputs (cfg_logger early_state)) = length (outputs console_logger).
Proof.
  apply (bindings_flushed_at_most_once console_logger [] world async_logger async_world
                                       one_call early_return early_state).
  - reflexivity.
  - exact SetAsync_on_probe.
  - exact early_return_runs.
  - exact early_state_running.
Defined.

(** X25 on the run [early_return], in which [Flush] returned with the
    signal unread. *)
Lemma flush_pass_completes_after_return_witness :
  exists rest c',
    drain_only rest
    /\ (length rest <= 4)%nat
    /\ run_schedule rest early_state = Some c'
    /\ cfg_main c' = MReturned
    /\ cfg_worker c' = WSelect
    /\ flushes_of (calls (cfg_world c'))
       = flushes_of (calls world) ++ seq 0 (length (outputs console_logger))
    /\ writes_of (calls (cfg_world c')) = writes_of (calls (cfg_world early_state)).
Proof.
  apply (flush_pass_completes_after_return console_logger [] world async_logger async_world
                                           one_call early_return early_state).
  - reflexivity.
  - exact SetAsync_on_probe.
  - exact early_return_runs.
  - exact early_state_returned.
Defined.

Lemma SetAsync_unbuffered :
  SetAsync console_logger [0] world = Normal unbuffered_logger async_world.
Proof. vm_compute. reflexivity. Qed.

(** X28 on an unbuffered queue. *)
Lemma Flush_can_return_for_every_capacity_witness :
  exists c,
    run_schedule (delivery_schedule (chan_cap (msgChan unbuffered_logger)) (length one_call))
                 (async_start unbuffered_logger async_world one_call) = Some c
    /\ cfg_main c = MReturned.
Proof.
  apply (Flush_can_return_for_every_capacity console_logger [0] world unbuffered_logger
                                             async_world one_call).
  - reflexivity.
  - exact SetAsync_unbuffered.
  - repeat constructor. vm_compute. discriminate.
Defined.

End MoreInstances.

Section RefusingInstance.

Import Refusing.

(** X4 on the adapter whose [Init] refuses. *)
Lemma attach_init_failure_exits_witness :
  exists w',
    attach logger "database" LoggerLevelDebug tt world = Exited 0 w'
    /\ stdout w' = stdout world
                   ++ [("logger: adapter " +:+ "database" +:+ " init failed, error: "
                        +:+ "connection refused") +:+ GoStrings.newline]
    /\ calls w' = calls world ++ [CallInit "database"]
    /\ stderr w' = stderr world
    /\ adapters w' = adapters world.
Proof.
  apply (attach_init_failure_exits logger "database" LoggerLevelDebug tt
                                   world new (new tt)
                                   "connection refused").
  - intros o [].
  - vm_compute. reflexivity.
  - reflexivity.
Defined.

End RefusingInstance.
